(** * agentcore-cli: identity provisioning, stack teardown and bind listings

    A shallow embedding of
    - [src/cli/operations/deploy/pre-deploy-identity.ts]
    - [src/cli/operations/destroy/index.ts]
    - the bind-selection listings of [AddIdentityFlow] and [AddMemoryFlow]
    together with the properties the project specification states about them,
    and of further code of the same files and of their neighbours: the
    credential queries, the remove flow's check for deployed stacks, AWS
    account detection, the dev-server configuration
    ([src/cli/operations/dev/config.ts]), the text inputs
    ([SecretInput], [TextInput]) and the handlers of the identity flow.

    The TypeScript functions are asynchronous and talk to AWS and to the local
    disk.  Every [await] is sequential, so a function is embedded as a
    computation over an explicit [State] (remote records, local files and the
    trace of calls issued so far) inside an immutable [Env] (what the outside
    world answers, and which call fails at which moment). *)

From stdpp Require Import base strings gmap list.

Set Default Proof Using "Type".

(** ** JavaScript conventions *)

(** A value caught by [catch (error)].  The sources only ever look at
    [error instanceof Error ? error.message : String(error)] and at
    [isNoCredentialsError(error)] (of [cli/errors], not among the sources: the
    classification of a failure as a missing-credentials condition), so a
    thrown value carries exactly these two readings. *)
Record Thrown := mkThrown {
  thrownMessage : string;
  thrownNoCredentials : bool;
}.

(** [new Error(message)] *)
Definition newError (message : string) : Thrown := mkThrown message false.

(** Completion of an awaited computation: a value, or a rejection. *)
Inductive Completion (A : Type) : Type :=
| Normal (a : A)
| Abrupt (e : Thrown).
Arguments Normal {A} a.
Arguments Abrupt {A} e.

(** Truthiness of a [string | undefined]: [undefined] and the empty string
    are falsy.  Returns the string when it is truthy. *)
Definition truthyString (s : option string) : option string :=
  match s with
  | Some EmptyString => None
  | Some s => Some s
  | None => None
  end.

(** Truthiness of a [boolean | undefined]. *)
Definition truthyBool (b : option bool) : bool := default false b.

(** A template literal's rendering of a [string | undefined] hole. *)
Definition interpolate (s : option string) : string := default "undefined" s.

(** ** Data model *)

(** [OwnedIdentityProvider]: the [relation: 'own'] arm of an agent's
    identity-provider reference. *)
Module OwnedIdentityProvider.
Record t := mk {
  name : string;
  variant : string;
  envVarName : string;
}.
End OwnedIdentityProvider.

(** An agent's identity-provider reference, a union tagged by [relation]. *)
Inductive IdentityProvider :=
| Own (p : OwnedIdentityProvider.t)
| Use (name : string) (envVarName : string).

Module AgentEnvSpec.
Record t := mk {
  name : string;
  identityProviders : list IdentityProvider;
}.
End AgentEnvSpec.

Module AgentCoreProjectSpec.
Record t := mk {
  name : string;
  agents : list AgentEnvSpec.t;
  identityKmsKeyArn : option string;
}.
End AgentCoreProjectSpec.

Module AwsDeploymentTarget.
Record t := mk {
  name : string;
  region : string;
  account : string;
}.
End AwsDeploymentTarget.

(** [DiscoveredStack] of [cli/cloudformation/stack-discovery]. *)
Record DiscoveredStack := mkDiscoveredStack {
  stackName : string;
  stackArn : string;
}.

(** Modelled from the spec: the schema of the deployed-state file is not among
    the sources.  It is a JSON object whose [targets] member is keyed by target
    name, each value a discovered-stack descriptor.  The finite map holds the
    own members of the JavaScript object used as a dictionary; what a property
    read finds besides them is [objectPrototypeMembers]. *)
Record DeployedState := mkDeployedState {
  targets : gmap string DiscoveredStack;
}.

(** The names a plain object inherits from [Object.prototype].  Read through
    an object that has no own member of that name, each of them is a truthy
    value (a function, or the prototype itself for [__proto__]). *)
Definition objectPrototypeMembers : list string :=
  ["constructor"; "hasOwnProperty"; "isPrototypeOf"; "propertyIsEnumerable";
   "toLocaleString"; "toString"; "valueOf"; "__defineGetter__";
   "__defineSetter__"; "__lookupGetter__"; "__lookupSetter__"; "__proto__"].

(** Truthiness of the property read [object[name]] on a plain object whose own
    members, all of them objects, are [members]. *)
Definition truthyMember {V} (members : gmap string V) (name : string) : bool :=
  bool_decide (is_Some (members !! name))
  || bool_decide (name ∈ objectPrototypeMembers).

(** Modelled from the spec: [SecureCredentials] of [lib] is not among the
    sources.  [fromEnvVars] wraps a plain mapping, [get] looks a key up, and
    [merge(primary, override)] prefers the override where it defines the key. *)
Module SecureCredentials.
Abbreviation t := (gmap string string).
Definition fromEnvVars (envVars : gmap string string) : t := envVars.
Definition merge (primary override : t) : t := override ∪ primary.
Definition get (credentials : t) (key : string) : option string := credentials !! key.
End SecureCredentials.

(** [StackSelectionStrategy] of [@aws-cdk/toolkit-lib]. *)
Inductive StackSelectionStrategy :=
| ALL_STACKS
| MAIN_ASSEMBLY
| ONLY_SINGLE
| PATTERN_MATCH
| PATTERN_MUST_MATCH
| PATTERN_MUST_MATCH_SINGLE.

Record StackSelector := mkStackSelector {
  strategy : StackSelectionStrategy;
  patterns : list string;
}.

(** The token vault's [kmsConfiguration]. *)
Inductive KeyType := CustomerManagedKey | ServiceManagedKey.

Record KmsConfiguration := mkKmsConfiguration {
  keyType : KeyType;
  kmsKeyArn : option string;
}.

(** [CreateKeyCommand]'s response: [response.KeyMetadata?.Arn]. *)
Record KeyMetadataType := mkKeyMetadata { Arn : option string }.
Record CreateKeyResponse := mkCreateKeyResponse { KeyMetadata : option KeyMetadataType }.

(** The [{ success, keyArn?, error? }] objects returned by
    [setTokenVaultKmsKey], [createApiKeyProvider] and [setupTokenVaultKms]. *)
Record OpResult := mkOpResult {
  success : bool;
  keyArn : option string;
  error : option string;
}.

(** ** The outside world *)

(** Every call that leaves the process or touches a configuration file. *)
Inductive Call :=
| CReadEnvFile (configBaseDir : string)
| CKmsCreateKey (description tagValue : string)
| CSetTokenVaultKmsKey (keyArn : string)
| CApiKeyProviderExists (name : string)
| CCreateApiKeyProvider (name apiKey : string)
| CReadProjectSpec (baseDir : option string)
| CReadAWSDeploymentTargets (baseDir : option string)
| CFindStack (region projectName targetName : string)
| CToolkitInitialize (projectDir : string)
| CToolkitDestroy (stacks : StackSelector)
| CReadDeployedState
| CWriteDeployedState (deployedState : DeployedState).

(** What the world answers during one session.  Calls are numbered in the
    order they are issued, across invocations; [throws t] is the exception the
    [t]-th call ends in (if any), [rejects t] the [{ success: false, error }]
    answer of a service that reports failure by value.  The sources do not say
    what a write of the deployed-state file that throws leaves on disk:
    [interruptedWrite t previous written] is what the file holds after the write
    of [written] issued at moment [t] over [previous] has thrown. *)
Record Env := mkEnv {
  throws : nat → option Thrown;
  rejects : nat → option (option string);
  kmsCreateKeyResponse : nat → CreateKeyResponse;
  envFileAt : string → gmap string string;
  projectSpecAt : option string → AgentCoreProjectSpec.t;
  awsTargetsAt : option string → list AwsDeploymentTarget.t;
  stackRegistry : string → string → string → option DiscoveredStack;
  directories : gset string;
  interruptedWrite : nat → DeployedState → DeployedState → DeployedState;
}.

(** What changes: the identity service's records, the deployed-state file and
    the calls issued so far. *)
Record State := mkState {
  apiKeyProviders : gset string;
  tokenVault : option KmsConfiguration;
  deployedStateFile : DeployedState;
  trace : list Call;
}.

Definition clock (s : State) : nat := length (trace s).

Definition record (c : Call) (s : State) : State :=
  mkState (apiKeyProviders s) (tokenVault s) (deployedStateFile s) (trace s ++ [c]).

Definition withProvider (name : string) (s : State) : State :=
  mkState ({[name]} ∪ apiKeyProviders s) (tokenVault s) (deployedStateFile s) (trace s).

Definition withTokenVault (configuration : KmsConfiguration) (s : State) : State :=
  mkState (apiKeyProviders s) (Some configuration) (deployedStateFile s) (trace s).

Definition withDeployedState (deployedState : DeployedState) (s : State) : State :=
  mkState (apiKeyProviders s) (tokenVault s) deployedState (trace s).

(** ** Computations *)

Definition M (A : Type) : Type := Env → State → Completion A * State.

Definition ret {A} (a : A) : M A := λ _ s, (Normal a, s).

Definition bind {A B} (m : M A) (k : A → M B) : M B :=
  λ env s,
    match m env s with
    | (Normal a, s') => k a env s'
    | (Abrupt e, s') => (Abrupt e, s')
    end.

Definition throw {A} (e : Thrown) : M A := λ _ s, (Abrupt e, s).

(** [try { body } catch (error) { handler }] *)
Definition tryCatch {A} (body : M A) (handler : Thrown → M A) : M A :=
  λ env s,
    match body env s with
    | (Normal a, s') => (Normal a, s')
    | (Abrupt e, s') => handler e env s'
    end.

#[global] Instance M_ret : MRet M := @ret.
#[global] Instance M_bind : MBind M := λ A B k m, bind m k.

(** [for (const x of xs) { ... }] over a loop-carried value. *)
Fixpoint forOf {X S} (xs : list X) (body : X → S → M S) (acc : S) : M S :=
  match xs with
  | [] => ret acc
  | x :: xs' => acc' ← body x acc; forOf xs' body acc'
  end.

(** One awaited call: it is recorded, then it either throws (as the
    environment dictates for this moment) or has its effect and answers. *)
Definition perform {A} (c : Call) (effect : Env → State → A * State) : M A :=
  λ env s,
    match throws env (clock s) with
    | Some e => (Abrupt e, record c s)
    | None => let '(a, s') := effect env s in (Normal a, record c s')
    end.

(** ** Collaborators

    The helpers of [lib], [cli/operations/identity], [cli/cloudformation] and
    [cli/cdk] wrap one request each.  Their answers come from the environment
    and from the records they act on. *)

(** Modelled from the spec: [readEnvFile] of [lib] is not among the sources.
    It reads the local secrets file ([ENV_VAR=value] per line) under
    [configBaseDir] into a mapping. *)
Definition readEnvFile (configBaseDir : string) : M (gmap string string) :=
  perform (CReadEnvFile configBaseDir) (λ env s, (envFileAt env configBaseDir, s)).

(** [kmsClient.send(new CreateKeyCommand({ Description, Tags }))]: the
    symmetric-key creation call, which answers with the key's metadata. *)
Definition kmsCreateKey (description tagValue : string) : M CreateKeyResponse :=
  perform (CKmsCreateKey description tagValue)
    (λ env s, (kmsCreateKeyResponse env (clock s), s)).

(** Modelled from the spec: [setTokenVaultKmsKey] of [cli/operations/identity]
    is not among the sources.  It is the token-vault configuration write (set
    customer-managed key ARN), answering success or failure; on success the
    vault is encrypted with that key. *)
Definition setTokenVaultKmsKey (keyArn : string) : M OpResult :=
  perform (CSetTokenVaultKmsKey keyArn)
    (λ env s,
      match rejects env (clock s) with
      | Some err => (mkOpResult false None err, s)
      | None =>
          (mkOpResult true None None,
           withTokenVault (mkKmsConfiguration CustomerManagedKey (Some keyArn)) s)
      end).

(** Modelled from the spec: [apiKeyProviderExists] of
    [cli/operations/identity] is not among the sources.  It is the
    identity-provider existence check. *)
Definition apiKeyProviderExists (name : string) : M bool :=
  perform (CApiKeyProviderExists name)
    (λ env s, (bool_decide (name ∈ apiKeyProviders s), s)).

(** Modelled from the spec: [createApiKeyProvider] of
    [cli/operations/identity] is not among the sources.  It is the creation
    call (name, secret), answering success or failure; on success the identity
    service holds a provider of that name. *)
Definition createApiKeyProvider (name apiKey : string) : M OpResult :=
  perform (CCreateApiKeyProvider name apiKey)
    (λ env s,
      match rejects env (clock s) with
      | Some err => (mkOpResult false None err, s)
      | None =>
          (mkOpResult true None None, withProvider name s)
      end).

(** Modelled from the spec: [ConfigIO] of [lib] is not among the sources.
    [readProjectSpec] and [readAWSDeploymentTargets] read the project
    specification file and the deployment-targets file under the base
    directory. *)
Definition readProjectSpec (baseDir : option string) : M AgentCoreProjectSpec.t :=
  perform (CReadProjectSpec baseDir) (λ env s, (projectSpecAt env baseDir, s)).

Definition readAWSDeploymentTargets (baseDir : option string)
  : M (list AwsDeploymentTarget.t) :=
  perform (CReadAWSDeploymentTargets baseDir) (λ env s, (awsTargetsAt env baseDir, s)).

(** Modelled from the spec: [findStack] of [cli/cloudformation/stack-discovery]
    is not among the sources.  It is the stack lookup by project and target
    name, answering a stack descriptor or "not found" ([null]). *)
Definition findStack (region projectName targetName : string)
  : M (option DiscoveredStack) :=
  perform (CFindStack region projectName targetName)
    (λ env s, (stackRegistry env region projectName targetName, s)).

(** [existsSync(path)] of [fs]: synchronous, never throws. *)
Definition existsSync (path : string) : M bool :=
  λ env s, (Normal (bool_decide (path ∈ directories env)), s).

(** Modelled from the spec: [CdkToolkitWrapper] of [cli/cdk/toolkit-lib] is not
    among the sources.  [toolkit.initialize()] prepares the toolkit over
    [projectDir]; [toolkit.destroy({ stacks })] is the stack destroy call
    scoped by the given selection. *)
Definition toolkitInitialize (projectDir : string) : M unit :=
  perform (CToolkitInitialize projectDir) (λ env s, (tt, s)).

Definition toolkitDestroy (stacks : StackSelector) : M unit :=
  perform (CToolkitDestroy stacks) (λ env s, (tt, s)).

(** Modelled from the spec: [ConfigIO.readDeployedState] and
    [ConfigIO.writeDeployedState] read and write the deployed-state file.  A
    write that returns has replaced the content of the file; what a write that
    throws leaves behind is up to the environment. *)
Definition readDeployedState : M DeployedState :=
  perform CReadDeployedState (λ env s, (deployedStateFile s, s)).

Definition writeDeployedState (deployedState : DeployedState) : M unit :=
  λ env s,
    match throws env (clock s) with
    | Some e =>
        (Abrupt e,
         record (CWriteDeployedState deployedState)
           (withDeployedState
              (interruptedWrite env (clock s) (deployedStateFile s) deployedState) s))
    | None =>
        (Normal tt,
         record (CWriteDeployedState deployedState) (withDeployedState deployedState s))
    end.

(** * [cli/operations/deploy/pre-deploy-identity.ts] *)

Module PreDeployIdentity.

Inductive Status := StatusCreated | StatusExists | StatusSkipped | StatusError.

#[global] Instance Status_eq_dec : EqDecision Status.
Proof. solve_decision. Defined.

Module ApiKeyProviderSetupResult.
Record t := mk {
  agentName : string;
  providerName : string;
  status : Status;
  error : option string;
}.
End ApiKeyProviderSetupResult.

Record PreDeployIdentityResult := mkPreDeployIdentityResult {
  results : list ApiKeyProviderSetupResult.t;
  hasErrors : bool;
  kmsKeyArn : option string;
}.

Record SetupApiKeyProvidersOptions := mkSetupApiKeyProvidersOptions {
  projectSpec : AgentCoreProjectSpec.t;
  configBaseDir : string;
  region : string;
  runtimeCredentials : option SecureCredentials.t;
  enableKmsEncryption : option bool;
}.

(** Lines 112-119 of [setupTokenVaultKms]: configure the token vault to use
    the key. *)
Definition configureTokenVault (keyArn : string) : M OpResult :=
  result ← setTokenVaultKmsKey keyArn;
  if negb (success result)
  then mret (mkOpResult false None (error result))
  else mret (mkOpResult true (Some keyArn) None).

(** Lines 89-123. *)
Definition setupTokenVaultKms (region : string) (projectSpec : AgentCoreProjectSpec.t)
  : M OpResult :=
  tryCatch
    (match truthyString (AgentCoreProjectSpec.identityKmsKeyArn projectSpec) with
     | Some keyArn => configureTokenVault keyArn
     | None =>
         (* Create KMS key if not provided *)
         response ← kmsCreateKey
           ("AgentCore Identity encryption key for " +:+ AgentCoreProjectSpec.name projectSpec)
           (AgentCoreProjectSpec.name projectSpec);
         match truthyString (KeyMetadata response ≫= Arn) with
         | None => mret (mkOpResult false None (Some "Failed to create KMS key"))
         | Some keyArn => configureTokenVault keyArn
         end
     end)
    (λ error, mret (mkOpResult false None (Some (thrownMessage error)))).

(** Lines 144-191. *)
Definition setupApiKeyCredentialProvider (agentName : string)
    (provider : OwnedIdentityProvider.t) (credentials : SecureCredentials.t)
  : M ApiKeyProviderSetupResult.t :=
  (* envVarName is the SOT - read API key from secure credentials using this key *)
  match truthyString
          (SecureCredentials.get credentials (OwnedIdentityProvider.envVarName provider)) with
  | None =>
      mret (ApiKeyProviderSetupResult.mk agentName (OwnedIdentityProvider.name provider)
              StatusSkipped
              (Some ("No " +:+ OwnedIdentityProvider.envVarName provider
                       +:+ " found in agentcore/.env.local")))
  | Some apiKey =>
      tryCatch
        (exists_ ← apiKeyProviderExists (OwnedIdentityProvider.name provider);
         if exists_ : bool
         then mret (ApiKeyProviderSetupResult.mk agentName
                      (OwnedIdentityProvider.name provider) StatusExists None)
         else
           createResult ← createApiKeyProvider (OwnedIdentityProvider.name provider) apiKey;
           mret (ApiKeyProviderSetupResult.mk agentName
                   (OwnedIdentityProvider.name provider)
                   (if success createResult then StatusCreated else StatusError)
                   (error createResult)))
        (λ error,
          (* Provide clearer error message for AWS credentials issues *)
          let errorMessage :=
            if thrownNoCredentials error
            then "AWS credentials not found. Run `aws sso login` or set AWS_ACCESS_KEY_ID/AWS_SECRET_ACCESS_KEY."
            else thrownMessage error in
          mret (ApiKeyProviderSetupResult.mk agentName
                  (OwnedIdentityProvider.name provider) StatusError (Some errorMessage)))
  end.

(** [agent.identityProviders.filter(p => p.relation === 'own')] *)
Definition ownedProviders (identityProviders : list IdentityProvider)
  : list OwnedIdentityProvider.t :=
  omap (λ p, match p with Own o => Some o | Use _ _ => None end) identityProviders.

(** [provider.variant === 'ApiKeyCredentialProvider'] *)
Definition isApiKeyCredentialProvider (provider : OwnedIdentityProvider.t) : bool :=
  String.eqb (OwnedIdentityProvider.variant provider) "ApiKeyCredentialProvider".

(** Lines 125-142. *)
Definition setupAgentIdentityProviders (agent : AgentEnvSpec.t)
    (credentials : SecureCredentials.t)
  : M (list ApiKeyProviderSetupResult.t) :=
  forOf (ownedProviders (AgentEnvSpec.identityProviders agent))
    (λ provider results,
      if isApiKeyCredentialProvider provider
      then
        result ← setupApiKeyCredentialProvider (AgentEnvSpec.name agent) provider credentials;
        mret (results ++ [result])
      else mret results)
    [].

(** [r => r.status === 'error'] *)
Definition isError (r : ApiKeyProviderSetupResult.t) : bool :=
  bool_decide (ApiKeyProviderSetupResult.status r = StatusError).

(** Lines 77-86 of [setupApiKeyProviders]: the loop over the agents and the
    aggregate returned after it. *)
Definition setupAllAgents (projectSpec : AgentCoreProjectSpec.t)
    (allCredentials : SecureCredentials.t) (kmsKeyArn : option string)
  : M PreDeployIdentityResult :=
  results ← forOf (AgentCoreProjectSpec.agents projectSpec)
    (λ agent results,
      agentResults ← setupAgentIdentityProviders agent allCredentials;
      mret (results ++ agentResults))
    [];
  mret (mkPreDeployIdentityResult results (existsb isError results) kmsKeyArn).

(** Lines 62-72: the result returned when the KMS step fails. *)
Definition tokenVaultFailure (error : option string) : PreDeployIdentityResult :=
  mkPreDeployIdentityResult
    [ApiKeyProviderSetupResult.mk EmptyString "TokenVault" StatusError
       (Some ("Failed to configure KMS: " +:+ interpolate error))]
    true None.

(** Line 59: [enableKmsEncryption || projectSpec.identityKmsKeyArn] *)
Definition kmsRequested (options : SetupApiKeyProvidersOptions) : bool :=
  truthyBool (enableKmsEncryption options)
  || bool_decide (is_Some (truthyString
       (AgentCoreProjectSpec.identityKmsKeyArn (projectSpec options)))).

(** Lines 52-53. *)
Definition allCredentialsOf (options : SetupApiKeyProvidersOptions)
    (envVars : gmap string string) : SecureCredentials.t :=
  let envCredentials := SecureCredentials.fromEnvVars envVars in
  match runtimeCredentials options with
  | Some runtime => SecureCredentials.merge envCredentials runtime
  | None => envCredentials
  end.

(** Lines 45-87.  Set up API key credential providers for all owned identity
    providers. *)
Definition setupApiKeyProviders (options : SetupApiKeyProvidersOptions)
  : M PreDeployIdentityResult :=
  envVars ← readEnvFile (configBaseDir options);
  (* Wrap env vars in SecureCredentials and merge with runtime credentials *)
  let allCredentials := allCredentialsOf options envVars in
  (* Configure KMS encryption for token vault if enabled *)
  if kmsRequested options
  then
    kmsResult ← setupTokenVaultKms (region options) (projectSpec options);
    if negb (success kmsResult)
    then mret (tokenVaultFailure (error kmsResult))
    else setupAllAgents (projectSpec options) allCredentials (keyArn kmsResult)
  else setupAllAgents (projectSpec options) allCredentials None.

End PreDeployIdentity.

(** * [cli/operations/destroy/index.ts] *)

Module Destroy.

Record DeployedTarget := mkDeployedTarget {
  target : AwsDeploymentTarget.t;
  stack : DiscoveredStack;
}.

Record DiscoverDeployedResult := mkDiscoverDeployedResult {
  projectName : string;
  deployedTargets : list DeployedTarget;
}.

Module DestroyTargetOptions.
Record t := mk {
  target : DeployedTarget;
  cdkProjectDir : string;
}.
End DestroyTargetOptions.

(** Lines 23-41.  Discover all deployed stacks for the current project. *)
Definition discoverDeployedTargets (configBaseDir : option string)
  : M DiscoverDeployedResult :=
  (* new ConfigIO(configBaseDir ? { baseDir: configBaseDir } : undefined) *)
  let baseDir := truthyString configBaseDir in
  projectSpec ← readProjectSpec baseDir;
  targets ← readAWSDeploymentTargets baseDir;
  deployedTargets ← forOf targets
    (λ target deployedTargets,
      tryCatch
        (stack ← findStack (AwsDeploymentTarget.region target)
                   (AgentCoreProjectSpec.name projectSpec)
                   (AwsDeploymentTarget.name target);
         match stack with
         | Some stack => mret (deployedTargets ++ [mkDeployedTarget target stack])
         | None => mret deployedTargets
         end)
        (* Ignore errors checking individual targets (e.g., no credentials) *)
        (λ _, mret deployedTargets))
    [];
  mret (mkDiscoverDeployedResult (AgentCoreProjectSpec.name projectSpec) deployedTargets).

(** Lines 65-68: the stack selection handed to [toolkit.destroy]. *)
Definition destroySelection (options : DestroyTargetOptions.t) : StackSelector :=
  mkStackSelector PATTERN_MUST_MATCH [stackName (stack (DestroyTargetOptions.target options))].

(** Lines 71-81: clean up deployed-state.json after successful destroy. *)
Definition cleanupDeployedState (options : DestroyTargetOptions.t) : M unit :=
  tryCatch
    (deployedState ← readDeployedState;
     let name := AwsDeploymentTarget.name (target (DestroyTargetOptions.target options)) in
     (* if (deployedState.targets[target.target.name]) *)
     if truthyMember (targets deployedState) name
     then
       (* delete removes an own member, and nothing when there is none *)
       writeDeployedState (mkDeployedState (delete name (targets deployedState)))
     else mret tt)
    (* Ignore errors reading/writing deployed state *)
    (λ _, mret tt).

Definition cdkProjectNotFound : Thrown :=
  newError "CDK project not found. Cannot destroy without CDK project.".

(** Lines 51-82.  Destroy a specific target's CloudFormation stack and clean
    up local state. *)
Definition destroyTarget (options : DestroyTargetOptions.t) : M unit :=
  present ← existsSync (DestroyTargetOptions.cdkProjectDir options);
  if negb present
  then throw cdkProjectNotFound
  else
    toolkitInitialize (DestroyTargetOptions.cdkProjectDir options);;
    toolkitDestroy (destroySelection options);;
    cleanupDeployedState options.

End Destroy.

(** * Bind-selection listings of the TUI

    [AddIdentityFlow] ([cli/tui/screens/identity/AddIdentityFlow.tsx]) and
    [AddMemoryFlow] offer, once a target agent is chosen, the resources that
    may be bound to it. *)

Module Tui.

Record SelectableItem := mkSelectableItem {
  id : string;
  title : string;
  description : option string;
}.

(** The entries produced by [useOwnedIdentities] and [useOwnedMemories]. *)
Record OwnedResource := mkOwnedResource {
  name : string;
  ownerAgent : string;
}.

Inductive Access := read | readwrite.

Inductive IdentityFlowState :=
| IModeSelect
| ICreateWizard
| IBindSelectAgent
| IBindSelectIdentity (targetAgent : string)
| IBindEnterEnvvar (targetAgent identityName : string)
| ICreateSuccess (identityName ownerAgent : string)
| IBindSuccess (identityName targetAgent : string)
| IError (message : string).

Inductive MemoryFlowState :=
| MModeSelect
| MCreateWizard
| MBindSelectAgent
| MBindSelectMemory (targetAgent : string)
| MBindSelectAccess (targetAgent memoryName : string)
| MBindEnterEnvvar (targetAgent memoryName : string) (access : Access)
| MCreateSuccess (memoryName ownerAgent : string)
| MBindSuccess (memoryName targetAgent : string)
| MError (message : string).

(** [r => ({ id: r.name, title: r.name, description: `Owned by ${r.ownerAgent}` })] *)
Definition toItem (r : OwnedResource) : SelectableItem :=
  mkSelectableItem (name r) (name r) (Some ("Owned by " +:+ ownerAgent r)).

(** [r => r.ownerAgent !== targetAgent] *)
Definition notOwnedBy (targetAgent : string) (r : OwnedResource) : bool :=
  negb (String.eqb (ownerAgent r) targetAgent).

(** Identity selection for bind flow - filter out identities already owned
    by target agent. *)
Definition identityItems (flow : IdentityFlowState)
    (ownedIdentities : list OwnedResource) : list SelectableItem :=
  match flow with
  | IBindSelectIdentity targetAgent =>
      map toItem (List.filter (notOwnedBy targetAgent) ownedIdentities)
  | _ => []
  end.

(** Memory selection for bind flow - filter out memories already attached
    to target agent. *)
Definition memoryItems (flow : MemoryFlowState)
    (ownedMemories : list OwnedResource) : list SelectableItem :=
  match flow with
  | MBindSelectMemory targetAgent =>
      map toItem (List.filter (notOwnedBy targetAgent) ownedMemories)
  | _ => []
  end.

End Tui.

(** * Vocabulary of the properties *)

(** The calls issued while the state went from [s] to [s']. *)
Definition issued (s s' : State) : list Call := drop (clock s) (trace s').

(** Calls of the per-provider phase: the existence check and the creation. *)
Definition isProviderCall (c : Call) : bool :=
  match c with
  | CApiKeyProviderExists _ | CCreateApiKeyProvider _ _ => true
  | _ => false
  end.

Definition existenceCheck (c : Call) : option string :=
  match c with
  | CApiKeyProviderExists name => Some name
  | _ => None
  end.

Definition isWrite (c : Call) : bool :=
  match c with
  | CWriteDeployedState _ => true
  | _ => false
  end.

Definition findStackCall (c : Call) : option (string * string * string) :=
  match c with
  | CFindStack region projectName targetName => Some (region, projectName, targetName)
  | _ => None
  end.

Module IdentitySpec.
Import PreDeployIdentity.

(** The key-creation request issued at moment [t] fails: it throws, or its
    answer carries no ARN. *)
Definition keyCreationFails (env : Env) (t : nat) : Prop :=
  is_Some (throws env t)
  ∨ truthyString (KeyMetadata (kmsCreateKeyResponse env t) ≫= Arn) = None.

(** The vault reconfiguration issued at moment [t] fails: it throws, or it
    answers [{ success: false }]. *)
Definition vaultReconfigurationFails (env : Env) (t : nat) : Prop :=
  is_Some (throws env t) ∨ is_Some (rejects env t).

(** The KMS step started at moment [t] fails. *)
Definition kmsSetupFails (projectSpec : AgentCoreProjectSpec.t) (env : Env) (t : nat)
  : Prop :=
  match truthyString (AgentCoreProjectSpec.identityKmsKeyArn projectSpec) with
  | Some _ => vaultReconfigurationFails env t
  | None => keyCreationFails env t ∨ vaultReconfigurationFails env (S t)
  end.

(** The (agent name, owned API-key identity provider) pairs of one agent and
    of a project, in the order the loops visit them. *)
Definition agentApiKeyPairs (agent : AgentEnvSpec.t)
  : list (string * OwnedIdentityProvider.t) :=
  map (pair (AgentEnvSpec.name agent))
      (List.filter isApiKeyCredentialProvider
         (ownedProviders (AgentEnvSpec.identityProviders agent))).

Definition ownedApiKeyPairs (projectSpec : AgentCoreProjectSpec.t)
  : list (string * OwnedIdentityProvider.t) :=
  concat (map agentApiKeyPairs (AgentCoreProjectSpec.agents projectSpec)).

(** The secret a provider is provisioned with, if it has one. *)
Definition secretOf (credentials : SecureCredentials.t)
    (provider : OwnedIdentityProvider.t) : option string :=
  truthyString (SecureCredentials.get credentials (OwnedIdentityProvider.envVarName provider)).

Definition hasSecret (credentials : SecureCredentials.t)
    (pair : string * OwnedIdentityProvider.t) : bool :=
  bool_decide (is_Some (secretOf credentials pair.2)).

Definition skippedEntry (pair : string * OwnedIdentityProvider.t)
  : ApiKeyProviderSetupResult.t :=
  ApiKeyProviderSetupResult.mk pair.1 (OwnedIdentityProvider.name pair.2) StatusSkipped
    (Some ("No " +:+ OwnedIdentityProvider.envVarName pair.2
             +:+ " found in agentcore/.env.local")).

(** The message reported for a thrown value. *)
Definition reportedMessage (e : Thrown) : string :=
  if thrownNoCredentials e
  then "AWS credentials not found. Run `aws sso login` or set AWS_ACCESS_KEY_ID/AWS_SECRET_ACCESS_KEY."
  else thrownMessage e.

(** Outcome table of one provisioning attempt (specification, section 4.2,
    step 3), with the moment each request is issued at. *)
Inductive Attempt (env : Env) (credentials : SecureCredentials.t)
    (agentName : string) (provider : OwnedIdentityProvider.t)
  : State → ApiKeyProviderSetupResult.t → State → Prop :=
| AttemptSkipped s :
    secretOf credentials provider = None →
    Attempt env credentials agentName provider s (skippedEntry (agentName, provider)) s
| AttemptCheckThrows s apiKey e :
    secretOf credentials provider = Some apiKey →
    throws env (clock s) = Some e →
    Attempt env credentials agentName provider s
      (ApiKeyProviderSetupResult.mk agentName (OwnedIdentityProvider.name provider)
         StatusError (Some (reportedMessage e)))
      (record (CApiKeyProviderExists (OwnedIdentityProvider.name provider)) s)
| AttemptExists s apiKey :
    secretOf credentials provider = Some apiKey →
    throws env (clock s) = None →
    OwnedIdentityProvider.name provider ∈ apiKeyProviders s →
    Attempt env credentials agentName provider s
      (ApiKeyProviderSetupResult.mk agentName (OwnedIdentityProvider.name provider)
         StatusExists None)
      (record (CApiKeyProviderExists (OwnedIdentityProvider.name provider)) s)
| AttemptCreateThrows s apiKey e :
    secretOf credentials provider = Some apiKey →
    throws env (clock s) = None →
    OwnedIdentityProvider.name provider ∉ apiKeyProviders s →
    throws env (S (clock s)) = Some e →
    Attempt env credentials agentName provider s
      (ApiKeyProviderSetupResult.mk agentName (OwnedIdentityProvider.name provider)
         StatusError (Some (reportedMessage e)))
      (record (CCreateApiKeyProvider (OwnedIdentityProvider.name provider) apiKey)
         (record (CApiKeyProviderExists (OwnedIdentityProvider.name provider)) s))
| AttemptCreateRejected s apiKey err :
    secretOf credentials provider = Some apiKey →
    throws env (clock s) = None →
    OwnedIdentityProvider.name provider ∉ apiKeyProviders s →
    throws env (S (clock s)) = None →
    rejects env (S (clock s)) = Some err →
    Attempt env credentials agentName provider s
      (ApiKeyProviderSetupResult.mk agentName (OwnedIdentityProvider.name provider)
         StatusError err)
      (record (CCreateApiKeyProvider (OwnedIdentityProvider.name provider) apiKey)
         (record (CApiKeyProviderExists (OwnedIdentityProvider.name provider)) s))
| AttemptCreated s apiKey :
    secretOf credentials provider = Some apiKey →
    throws env (clock s) = None →
    OwnedIdentityProvider.name provider ∉ apiKeyProviders s →
    throws env (S (clock s)) = None →
    rejects env (S (clock s)) = None →
    Attempt env credentials agentName provider s
      (ApiKeyProviderSetupResult.mk agentName (OwnedIdentityProvider.name provider)
         StatusCreated None)
      (record (CCreateApiKeyProvider (OwnedIdentityProvider.name provider) apiKey)
         (withProvider (OwnedIdentityProvider.name provider)
            (record (CApiKeyProviderExists (OwnedIdentityProvider.name provider)) s))).

(** One attempt per pair, in order, each starting where the previous ended. *)
Inductive Attempts (env : Env) (credentials : SecureCredentials.t)
  : State → list (string * OwnedIdentityProvider.t)
    → list ApiKeyProviderSetupResult.t → State → Prop :=
| AttemptsNil s : Attempts env credentials s [] [] s
| AttemptsCons s agentName provider entry s1 pairs entries s2 :
    Attempt env credentials agentName provider s entry s1 →
    Attempts env credentials s1 pairs entries s2 →
    Attempts env credentials s ((agentName, provider) :: pairs) (entry :: entries) s2.

(** A step that leaves the identity providers alone. *)
Definition beforeProviders (s s1 : State) : Prop :=
  apiKeyProviders s1 = apiKeyProviders s
  ∧ deployedStateFile s1 = deployedStateFile s
  ∧ ∃ calls, trace s1 = trace s ++ calls ∧ Forall (λ c, isProviderCall c = false) calls.

(** The sentence "every owned API-key provider whose name already exists
    remotely is reported with status exists", taken literally. *)
Definition existing_provider_always_reported_exists : Prop :=
  ∀ options env s r s' i agentName provider entry,
    setupApiKeyProviders options env s = (Normal r, s') →
    ownedApiKeyPairs (projectSpec options) !! i = Some (agentName, provider) →
    OwnedIdentityProvider.name provider ∈ apiKeyProviders s →
    results r !! i = Some entry →
    ApiKeyProviderSetupResult.status entry = StatusExists.

(** The clause "only precondition failures (missing directory, KMS setup
    failure) are thrown to the caller", as far as it counts a failure of the
    KMS step among the failures that reach the caller as a rejection. *)
Definition kms_setup_failure_is_thrown : Prop :=
  ∀ options env s,
    throws env (clock s) = None →
    kmsRequested options = true →
    kmsSetupFails (projectSpec options) env (S (clock s)) →
    ∃ e, (setupApiKeyProviders options env s).1 = Abrupt e.

End IdentitySpec.

(** ** Scenarios *)

Module Scenarios.
Import PreDeployIdentity.

(** A world in which every call succeeds, KMS hands out one key and the
    environment file is empty. *)
Definition quietEnv : Env :=
  mkEnv (λ _, None) (λ _, None)
    (λ _, mkCreateKeyResponse
            (Some (mkKeyMetadata (Some "arn:aws:kms:us-east-1:123:key/new-key"))))
    (λ _, ∅)
    (λ _, AgentCoreProjectSpec.mk "test-project" [] None)
    (λ _, [])
    (λ _ _ _, None)
    ∅ (λ _ previous _, previous).

(** The same world with [CRED1_KEY] in the environment file. *)
Definition secretEnv : Env :=
  mkEnv (λ _, None) (λ _, None) (kmsCreateKeyResponse quietEnv)
    (λ _, {["CRED1_KEY" := "secret"]})
    (projectSpecAt quietEnv) (awsTargetsAt quietEnv) (stackRegistry quietEnv) ∅
    (interruptedWrite quietEnv).

(** The same world, except that the call numbered [1] is denied. *)
Definition deniedEnv : Env :=
  mkEnv (λ t, if Nat.eqb t 1 then Some (newError "AccessDeniedException") else None)
    (λ _, None) (kmsCreateKeyResponse quietEnv) (λ _, ∅)
    (projectSpecAt quietEnv) (awsTargetsAt quietEnv) (stackRegistry quietEnv) ∅
    (interruptedWrite quietEnv).

Definition freshState : State := mkState ∅ None (mkDeployedState ∅) [].

(** The identity service already holds [Cred1]. *)
Definition provisionedState : State := mkState {["Cred1"]} None (mkDeployedState ∅) [].

(** The token vault already uses a customer-managed key. *)
Definition encryptedVaultState : State :=
  mkState ∅
    (Some (mkKmsConfiguration CustomerManagedKey
             (Some "arn:aws:kms:us-east-1:123:key/existing")))
    (mkDeployedState ∅) [].

Definition cred1 : OwnedIdentityProvider.t :=
  OwnedIdentityProvider.mk "Cred1" "ApiKeyCredentialProvider" "CRED1_KEY".

(** Agent [A] owns identity [Cred1], whose secret lives in [CRED1_KEY]. *)
Definition projectA : AgentCoreProjectSpec.t :=
  AgentCoreProjectSpec.mk "proj" [AgentEnvSpec.mk "A" [Own cred1]] None.

Definition optionsA : SetupApiKeyProvidersOptions :=
  mkSetupApiKeyProvidersOptions projectA "/tmp" "us-east-1" None None.

(** The options of the repository's KMS test: an empty project, encryption
    requested, no key ARN recorded. *)
Definition optionsKms : SetupApiKeyProvidersOptions :=
  mkSetupApiKeyProvidersOptions (AgentCoreProjectSpec.mk "test-project" [] None)
    "/tmp" "us-east-1" None (Some true).

(** Agents [A] and [B] own [Cred1] and [Cred2]; both secrets are present and
    the call numbered [1] (the existence check of [Cred1]) is denied. *)
Definition cred2 : OwnedIdentityProvider.t :=
  OwnedIdentityProvider.mk "Cred2" "ApiKeyCredentialProvider" "CRED2_KEY".

Definition optionsAB : SetupApiKeyProvidersOptions :=
  mkSetupApiKeyProvidersOptions
    (AgentCoreProjectSpec.mk "proj"
       [AgentEnvSpec.mk "A" [Own cred1]; AgentEnvSpec.mk "B" [Own cred2]] None)
    "/tmp" "us-east-1" None None.

(** The same two agents with encryption requested. *)
Definition optionsKmsAB : SetupApiKeyProvidersOptions :=
  mkSetupApiKeyProvidersOptions
    (AgentCoreProjectSpec.mk "proj"
       [AgentEnvSpec.mk "A" [Own cred1]; AgentEnvSpec.mk "B" [Own cred2]] None)
    "/tmp" "us-east-1" None (Some true).

Definition deniedSecretsEnv : Env :=
  mkEnv (throws deniedEnv) (λ _, None) (kmsCreateKeyResponse quietEnv)
    (λ _, {["CRED1_KEY" := "secret"; "CRED2_KEY" := "other"]})
    (projectSpecAt quietEnv) (awsTargetsAt quietEnv) (stackRegistry quietEnv) ∅
    (interruptedWrite quietEnv).

Definition entryOf (agentName providerName : string) (status : Status)
    (error : option string) : ApiKeyProviderSetupResult.t :=
  ApiKeyProviderSetupResult.mk agentName providerName status error.

End Scenarios.

Module DestroySpec.
Import Destroy.

(** The outcome of the lookup issued at moment [t] for one target, as a
    result that is filtered afterwards: a failed lookup and a missing stack
    both contribute nothing. *)
Definition lookupAt (env : Env) (t : nat) (projectName : string)
    (target : AwsDeploymentTarget.t) : option DeployedTarget :=
  match throws env t with
  | Some _ => None
  | None =>
      mkDeployedTarget target
        <$> stackRegistry env (AwsDeploymentTarget.region target) projectName
              (AwsDeploymentTarget.name target)
  end.

(** One lookup per target, the first at moment [t], keeping the found ones. *)
Fixpoint discovered (env : Env) (t : nat) (projectName : string)
    (targets : list AwsDeploymentTarget.t) : list DeployedTarget :=
  match targets with
  | [] => []
  | target :: rest =>
      option_list (lookupAt env t projectName target)
        ++ discovered env (S t) projectName rest
  end.

(** The sentence "on success the DeployedState entry is absent afterward, even
    if local-state cleanup itself later fails", taken literally. *)
Definition entry_absent_after_every_successful_destroy : Prop :=
  ∀ options env s s',
    destroyTarget options env s = (Normal tt, s') →
    targets (deployedStateFile s')
      !! AwsDeploymentTarget.name (target (DestroyTargetOptions.target options))
    = None.


(** A deployed target [prod], its infrastructure project on disk, and a
    deployed-state file that records it. *)
Definition prodStack : DiscoveredStack :=
  mkDiscoveredStack "AgentCore-proj-prod"
    "arn:aws:cloudformation:us-east-1:123:stack/AgentCore-proj-prod/1".

Definition stagingStack : DiscoveredStack :=
  mkDiscoveredStack "AgentCore-proj-staging"
    "arn:aws:cloudformation:eu-west-1:123:stack/AgentCore-proj-staging/1".

Definition prodOptions : DestroyTargetOptions.t :=
  DestroyTargetOptions.mk
    (mkDeployedTarget (AwsDeploymentTarget.mk "prod" "us-east-1" "123") prodStack)
    "/work/agentcore/cdk".


Definition prodState : State :=
  mkState ∅ None
    (mkDeployedState {["prod" := prodStack; "staging" := stagingStack]}) [].

(** Every call succeeds. *)
Definition diskEnv : Env :=
  mkEnv (λ _, None) (λ _, None) (λ _, mkCreateKeyResponse None) (λ _, ∅)
    (λ _, AgentCoreProjectSpec.mk "proj" [] None)
    (λ _, [AwsDeploymentTarget.mk "prod" "us-east-1" "123";
           AwsDeploymentTarget.mk "staging" "eu-west-1" "123"])
    (λ region projectName targetName,
       if String.eqb targetName "prod" then Some prodStack
       else if String.eqb targetName "staging" then Some stagingStack
       else None)
    {["/work/agentcore/cdk"]} (λ _ previous _, previous).

(** The call numbered [2] fails: the read of the deployed-state file when
    [destroyTarget] starts at moment [0], the first stack lookup when
    [discoverDeployedTargets] does. *)
Definition unreadableEnv : Env :=
  mkEnv (λ t, if Nat.eqb t 2 then Some (newError "EACCES: permission denied") else None)
    (rejects diskEnv) (kmsCreateKeyResponse diskEnv) (envFileAt diskEnv)
    (projectSpecAt diskEnv) (awsTargetsAt diskEnv) (stackRegistry diskEnv)
    (directories diskEnv) (interruptedWrite diskEnv).

End DestroySpec.

(** * Further code of the cited files *)

(** ** [pre-deploy-identity.ts]: the queries beside [setupApiKeyProviders] *)

Module IdentityQueries.
Import PreDeployIdentity.

(** [p => p.relation === 'own' && p.variant === 'ApiKeyCredentialProvider'] *)
Definition isOwnedApiKeyProvider (p : IdentityProvider) : bool :=
  match p with
  | Own o => isApiKeyCredentialProvider o
  | Use _ _ => false
  end.

(** Lines 196-200.  Check if any agents have owned API key identity providers
    that need setup. *)
Definition hasOwnedIdentityApiProviders (projectSpec : AgentCoreProjectSpec.t) : bool :=
  existsb (λ agent, existsb isOwnedApiKeyProvider (AgentEnvSpec.identityProviders agent))
    (AgentCoreProjectSpec.agents projectSpec).

Module MissingCredential.
Record t := mk {
  providerName : string;
  envVarName : string;
  agentName : string;
}.
End MissingCredential.

(** Lines 219-221: the owned API-key providers of one agent. *)
Definition ownedApiKeyProviders (identityProviders : list IdentityProvider)
  : list OwnedIdentityProvider.t :=
  omap (λ p, match p with
             | Own o => if isApiKeyCredentialProvider o then Some o else None
             | Use _ _ => None
             end)
    identityProviders.


(** The requests of the KMS step. *)
Definition isKmsCall (c : Call) : bool :=
  match c with
  | CKmsCreateKey _ _ | CSetTokenVaultKmsKey _ => true
  | _ => false
  end.


(** Check-then-act: in [calls] every creation request comes right after the
    existence check of the same name, and carries the secret of one of
    [pairs] with that name. *)
Definition createsAreChecked (credentials : SecureCredentials.t)
    (pairs : list (string * OwnedIdentityProvider.t)) (calls : list Call) : Prop :=
  ∀ i name apiKey,
    calls !! i = Some (CCreateApiKeyProvider name apiKey) →
    ∃ j, i = S j
      ∧ calls !! j = Some (CApiKeyProviderExists name)
      ∧ ∃ pair, pair ∈ pairs
          ∧ OwnedIdentityProvider.name pair.2 = name
          ∧ truthyString
              (SecureCredentials.get credentials
                 (OwnedIdentityProvider.envVarName pair.2))
            = Some apiKey.

End IdentityQueries.

(** ** [useRemoveFlow.ts]: the check for deployed resources *)

Module RemoveFlow.

(** Lines 91-97: the loop over the targets, left at the first stack found. *)
Fixpoint findFirstStack (currentProjectName : string)
    (targets : list AwsDeploymentTarget.t) : M bool :=
  match targets with
  | [] => mret false
  | target :: rest =>
      stack ← findStack (AwsDeploymentTarget.region target) currentProjectName
                (AwsDeploymentTarget.name target);
      match stack with
      | Some _ => mret true
      | None => findFirstStack currentProjectName rest
      end
  end.

(** Lines 87-101 of [checkProject]: check for deployed stacks per target.  The
    value returned is the one [hasDeployedResources] ends with. *)
Definition checkDeployedResources (currentProjectName : string) : M bool :=
  match truthyString (Some currentProjectName) with
  | Some _ =>
      tryCatch
        (targets ← readAWSDeploymentTargets None;
         findFirstStack currentProjectName targets)
        (* Ignore errors checking for deployed resources *)
        (λ _, mret false)
  | None => mret false
  end.

(** The lookup issued at moment [t] for a target ends the check: it throws or
    it finds a stack. *)
Definition decisive (env : Env) (t : nat) (currentProjectName : string)
    (target : AwsDeploymentTarget.t) : bool :=
  match throws env t with
  | Some _ => true
  | None =>
      bool_decide (is_Some (stackRegistry env (AwsDeploymentTarget.region target)
                              currentProjectName (AwsDeploymentTarget.name target)))
  end.

(** The number of lookups issued for [targets] when the first one is issued at
    moment [t]. *)
Fixpoint lookupsIssued (env : Env) (t : nat) (currentProjectName : string)
    (targets : list AwsDeploymentTarget.t) : nat :=
  match targets with
  | [] => 0
  | target :: rest =>
      if decisive env t currentProjectName target then 1
      else S (lookupsIssued env (S t) currentProjectName rest)
  end.

End RemoveFlow.

(** ** Vocabulary for discovery *)

Module DiscoverySpec.

(** The calls discovery may issue: the two configuration reads and the stack
    lookups. *)
Definition isDiscoveryCall (c : Call) : bool :=
  match c with
  | CReadProjectSpec _ | CReadAWSDeploymentTargets _ | CFindStack _ _ _ => true
  | _ => false
  end.

Definition isCleanupCall (c : Call) : bool :=
  match c with
  | CReadDeployedState | CWriteDeployedState _ => true
  | _ => false
  end.

End DiscoverySpec.

(** ** AWS account detection

    The part of [src/cli/operations/destroy/index.ts] after [getCdkProjectDir]
    (credential provider, [AwsCredentialsError], [detectAccount],
    [validateAwsCredentials]) and [detectAwsAccount].  The functions make one
    STS request each; what STS answers is an input of the model. *)

Module AwsCredentialsError.
Record t := mk {
  shortMessage : string;
  message : string;
}.
End AwsCredentialsError.

(** What [catch (err)] reads of a rejected STS request: [err?.name] and
    [err?.Code], each possibly [undefined]. *)
Module StsError.
Record t := mk {
  name : option string;
  Code : option string;
}.
End StsError.

Module AwsAccount.

(** [process.env] *)
Abbreviation ProcessEnv := (gmap string string).

Inductive CredentialProvider :=
| fromEnv
| fromNodeProviderChain.

(** [client.send(new GetCallerIdentityCommand({}))]: a response with its
    optional [Account], or a rejection. *)
Inductive StsOutcome :=
| Responded (Account : option string)
| Rejected (err : StsError.t).

(** The security token service, as seen through a client built with the given
    credentials and region. *)
Definition Sts : Type := CredentialProvider → string → StsOutcome.

Definition newline : string := String (Ascii.ascii_of_nat 10) EmptyString.

(** Lines 100-103. *)
Definition getCredentialProvider (processEnv : ProcessEnv) : CredentialProvider :=
  match truthyString (processEnv !! "AWS_ACCESS_KEY_ID") with
  | Some _ =>
      match truthyString (processEnv !! "AWS_SECRET_ACCESS_KEY") with
      | Some _ => fromEnv
      | None => fromNodeProviderChain
      end
  | None => fromNodeProviderChain
  end.

(** Lines 113-117: [super(detailedMessage ?? shortMessage)]. *)
Definition newAwsCredentialsError (shortMessage : string)
    (detailedMessage : option string) : AwsCredentialsError.t :=
  AwsCredentialsError.mk shortMessage (default shortMessage detailedMessage).

(** [process.env.AWS_REGION ?? process.env.AWS_DEFAULT_REGION ?? 'us-east-1'] *)
Definition clientRegion (processEnv : ProcessEnv) : string :=
  match processEnv !! "AWS_REGION" with
  | Some region => region
  | None => default "us-east-1" (processEnv !! "AWS_DEFAULT_REGION")
  end.

(** Line 136: [err?.name ?? err?.Code]. *)
Definition errorCode (err : StsError.t) : option string :=
  match StsError.name err with
  | Some name => Some name
  | None => StsError.Code err
  end.

Definition codeIs (code : option string) (expected : string) : bool :=
  bool_decide (code = Some expected).

(** Lines 125-161.  [inl] is a thrown [AwsCredentialsError], [inr] the value
    returned ([None] for [null]). *)
Definition detectAccount (processEnv : ProcessEnv) (sts : Sts)
    : AwsCredentialsError.t + option string :=
  let region := clientRegion processEnv in
  match sts (getCredentialProvider processEnv) region with
  | Responded Account => inr Account
  | Rejected err =>
      let code := errorCode err in
      if codeIs code "ExpiredTokenException" || codeIs code "ExpiredToken" then
        inl (newAwsCredentialsError "AWS credentials expired."
               (Some ("AWS credentials expired." +:+ newline +:+ newline
                      +:+ "To fix this:" +:+ newline +:+ "  Run: aws login")))
      else if codeIs code "InvalidClientTokenId" || codeIs code "SignatureDoesNotMatch" then
        inl (newAwsCredentialsError "AWS credentials are invalid."
               (Some ("AWS credentials are invalid." +:+ newline +:+ newline
                      +:+ "To fix this:" +:+ newline
                      +:+ "  1. Check your AWS_ACCESS_KEY_ID and AWS_SECRET_ACCESS_KEY"
                      +:+ newline +:+ "  2. Or run: aws login")))
      else if codeIs code "AccessDenied" || codeIs code "AccessDeniedException" then
        inl (newAwsCredentialsError "AWS credentials lack required permissions."
               (Some ("AWS credentials lack required permissions for STS:GetCallerIdentity."
                      +:+ newline +:+ newline +:+ "To fix this:" +:+ newline
                      +:+ "  Ensure your IAM user/role has sts:GetCallerIdentity permission")))
      else inr None
  end.

(** Lines 167-178. *)
Definition validateAwsCredentials (processEnv : ProcessEnv) (sts : Sts)
    : AwsCredentialsError.t + unit :=
  match detectAccount processEnv sts with
  | inl e => inl e
  | inr account =>
      match truthyString account with
      | Some _ => inr tt
      | None =>
          inl (newAwsCredentialsError "No AWS credentials configured."
                 (Some ("No AWS credentials configured." +:+ newline +:+ newline
                        +:+ "To fix this:" +:+ newline +:+ "  1. Run: aws login" +:+ newline
                        +:+ "  2. Or set AWS_ACCESS_KEY_ID and AWS_SECRET_ACCESS_KEY environment variables")))
      end
  end.

(** [detectAwsAccount]: the same request through the provider chain, every
    failure turned into [null]. *)
Definition detectAwsAccount (processEnv : ProcessEnv) (sts : Sts) : option string :=
  match sts fromNodeProviderChain (clientRegion processEnv) with
  | Responded Account => Account
  | Rejected _ => None
  end.

(** The error codes [detectAccount] recognises. *)
Definition recognisedCodes : list string :=
  ["ExpiredTokenException"; "ExpiredToken"; "InvalidClientTokenId";
   "SignatureDoesNotMatch"; "AccessDenied"; "AccessDeniedException"].

(** The short messages of the errors [validateAwsCredentials] throws. *)
Definition shortMessages : list string :=
  ["AWS credentials expired."; "AWS credentials are invalid.";
   "AWS credentials lack required permissions."; "No AWS credentials configured."].

(** A service that answers every request with account [123456789012] when the
    credentials come from the provider chain, and rejects the credentials of
    the environment as expired. *)
Definition chainOnlySts : Sts :=
  λ provider _,
    match provider with
    | fromNodeProviderChain => Responded (Some "123456789012")
    | fromEnv => Rejected (StsError.mk (Some "ExpiredToken") None)
    end.

(** A rejection named [Error] whose [Code] is a recognised one. *)
Definition namedErrorSts : Sts :=
  λ _ _, Rejected (StsError.mk (Some "Error") (Some "ExpiredToken")).

End AwsAccount.


(** ** Dev-server configuration

    [src/cli/operations/dev/config.ts].  The functions are synchronous; a
    [throw] is an [Abrupt] completion.  [isAbsolute], [dirname] and [join] of
    [node:path] are inputs of the model. *)

Module Dev.

(** [agent.runtime], a union tagged by [artifact].  The code tests
    [entrypoint] and [codeLocation] for truthiness before using them, so they
    are read as possibly [undefined]. *)
Inductive Runtime :=
| CodeZip (entrypoint : option string) (codeLocation : option string)
| ContainerImage (entrypoint : option string).

(** The members of [AgentEnvSpec] that dev mode reads. *)
Module Agent.
Record t := mk {
  name : string;
  targetLanguage : string;
  runtime : Runtime;
}.
End Agent.

(** The member of [AgentCoreProjectSpec] that dev mode reads. *)
Module Project.
Record t := mk {
  agents : list Agent.t;
}.
End Project.

Record DevConfig := mkDevConfig {
  agentName : string;
  module : option string;
  directory : string;
  hasConfig : bool;
  isPython : bool;
}.

Record DevSupportResult := mkDevSupportResult {
  supported : bool;
  reason : option string;
}.

Record Path := mkPath {
  isAbsolute : string → bool;
  dirname : string → string;
  join : string → string → string;
}.

Definition quote : string := String (Ascii.ascii_of_nat 34) EmptyString.

Definition slash : Ascii.ascii := Ascii.ascii_of_nat 47.

(** [runtime.entrypoint], whatever the artifact. *)
Definition entrypointOf (runtime : Runtime) : option string :=
  match runtime with
  | CodeZip entrypoint _ => entrypoint
  | ContainerImage entrypoint => entrypoint
  end.

(** Lines 26-51. *)
Definition isDevSupported (agent : Agent.t) : DevSupportResult :=
  if negb (bool_decide (Agent.targetLanguage agent = "Python")) then
    mkDevSupportResult false
      (Some ("Dev mode only supports Python agents. Agent " +:+ quote
             +:+ Agent.name agent +:+ quote +:+ " targets "
             +:+ Agent.targetLanguage agent +:+ "."))
  else
    match Agent.runtime agent with
    | ContainerImage _ =>
        mkDevSupportResult false
          (Some ("ContainerImage agent " +:+ quote +:+ Agent.name agent +:+ quote
                 +:+ " does not support dev mode."))
    | CodeZip entrypoint _ =>
        match truthyString entrypoint with
        | None =>
            mkDevSupportResult false
              (Some ("CodeZip agent " +:+ quote +:+ Agent.name agent +:+ quote
                     +:+ " is missing entrypoint."))
        | Some _ => mkDevSupportResult true None
        end
    end.

(** [codeLocation.replace(/\/$/, '')]: one slash at the very end is dropped. *)
Fixpoint stripTrailingSlash (s : string) : string :=
  match s with
  | EmptyString => EmptyString
  | String c rest =>
      match rest with
      | EmptyString => if Ascii.eqb c slash then EmptyString else s
      | String _ _ => String c (stripTrailingSlash rest)
      end
  end.

(** Lines 57-66. *)
Definition resolveCodeDirectory (path : Path) (codeLocation configRoot : string)
    : string :=
  let cleanPath := stripTrailingSlash codeLocation in
  if isAbsolute path cleanPath then cleanPath
  else
    let projectRoot := dirname path configRoot in
    join path projectRoot cleanPath.

(** Lines 71-74. *)
Definition getDevSupportedAgents (project : option Project.t) : list Agent.t :=
  match project with
  | None => []
  | Some project =>
      List.filter (λ agent, supported (isDevSupported agent)) (Project.agents project)
  end.




(** [s.split('/')]: the segments between slashes; never an empty array. *)
Fixpoint split (s : string) : list string :=
  match s with
  | EmptyString => [EmptyString]
  | String c rest =>
      if Ascii.eqb c slash then EmptyString :: split rest
      else
        match split rest with
        | segment :: segments => String c segment :: segments
        | [] => [String c EmptyString]
        end
  end.

(** Line 97: [workingDir.split('/').pop() ?? 'unknown']. *)
Definition dirNameOf (workingDir : string) : string :=
  default "unknown" (last (split workingDir)).

Fixpoint hasSlash (s : string) : bool :=
  match s with
  | EmptyString => false
  | String c rest => Ascii.eqb c slash || hasSlash rest
  end.

(** The configuration returned when there is nothing to configure from. *)
Definition defaultConfig (agentName workingDir : string) : DevConfig :=
  mkDevConfig agentName (Some "src.main:app") workingDir false true.

(** Lines 111-121: the target agent, or the error of an unknown name. *)
Definition findTargetAgent (project : Project.t) (agentName : option string)
    : Completion (option Agent.t) :=
  match truthyString agentName with
  | Some agentName =>
      match list_find (λ a, Agent.name a = agentName) (Project.agents project) with
      | Some (_, targetAgent) => Normal (Some targetAgent)
      | None =>
          Abrupt (newError ("Agent " +:+ quote +:+ agentName +:+ quote
                            +:+ " not found in project."))
      end
  | None => Normal (head (getDevSupportedAgents (Some project)))
  end.

(** Lines 91-153. *)
Definition getDevConfig (path : Path) (workingDir : string)
    (project : option Project.t) (configRoot agentName : option string)
    : Completion DevConfig :=
  let dirName := dirNameOf workingDir in
  match project with
  | None =>
      Normal (defaultConfig (default (dirName +:+ "_Agent") agentName) workingDir)
  | Some project =>
      match findTargetAgent project agentName with
      | Abrupt e => Abrupt e
      | Normal None => Normal (defaultConfig (dirName +:+ "_Agent") workingDir)
      | Normal (Some targetAgent) =>
          let supportResult := isDevSupported targetAgent in
          if negb (supported supportResult) then
            Abrupt (newError (default "Agent does not support dev mode"
                                (reason supportResult)))
          else
            let directory :=
              match truthyString configRoot, Agent.runtime targetAgent with
              | Some configRoot, CodeZip _ codeLocation =>
                  match truthyString codeLocation with
                  | Some codeLocation => resolveCodeDirectory path codeLocation configRoot
                  | None => workingDir
                  end
              | _, _ => workingDir
              end in
            Normal (mkDevConfig (Agent.name targetAgent)
                      (entrypointOf (Agent.runtime targetAgent)) directory true
                      (bool_decide (Agent.targetLanguage targetAgent = "Python")))
      end
  end.

(** The first agent of the project with the given name. *)
Definition firstNamed (project : Project.t) (agentName : string) : option Agent.t :=
  snd <$> list_find (λ a, Agent.name a = agentName) (Project.agents project).

(** The part of a path before its last slash, if it has a slash. *)
Fixpoint beforeLastSlash (s : string) : option string :=
  match s with
  | EmptyString => None
  | String c rest =>
      match beforeLastSlash rest with
      | Some prefix => Some (String c prefix)
      | None => if Ascii.eqb c slash then Some EmptyString else None
      end
  end.

(** The POSIX path functions on the paths of the examples, which are
    normalised (no trailing slash, no empty, [.] or [..] segment): a path is
    absolute when it starts with a slash, its directory is what precedes its
    last slash ([/] for a child of the root, [.] without a slash), and a
    relative path is joined to a directory with a slash. *)
Definition examplePath : Path :=
  mkPath (λ p, match p with String c _ => Ascii.eqb c slash | EmptyString => false end)
    (λ p,
       match beforeLastSlash p with
       | Some EmptyString => "/"
       | Some directory => directory
       | None => "."
       end)
    (λ a b, if String.eqb a "/" then a +:+ b else a +:+ "/" +:+ b).

Definition pythonAgent : Agent.t :=
  Agent.mk "researcher" "Python" (CodeZip (Some "main.py:app") (Some "app/researcher/")).

Definition containerAgent : Agent.t :=
  Agent.mk "packer" "Python" (ContainerImage None).

Definition typescriptAgent : Agent.t :=
  Agent.mk "web" "TypeScript" (CodeZip (Some "index.ts") None).

Definition exampleProject : Project.t :=
  Project.mk [typescriptAgent; containerAgent; pythonAgent].

End Dev.


(** ** Text inputs

    [src/cli/tui/components/SecretInput.tsx] and the [TextInput] component.
    A JavaScript string is the list of its code units; [length], [slice],
    indexing and [repeat] count code units.  The functions are the same for
    every type of code unit.  What a schema answers ([schema.safeParse]), what
    a custom validation answers and [String.prototype.trim] are inputs of the
    model. *)

Module Input.

(** [true | string] *)
Inductive CustomResult (Unit : Type) :=
| Valid
| Invalid (message : list Unit).
Arguments Valid {Unit}.
Arguments Invalid {Unit} message.

(** [schema.safeParse(value)] as far as it is read: [success], and
    [error.issues[0]?.message] otherwise. *)
Inductive SafeParse (Unit : Type) :=
| Success
| Failure (firstIssueMessage : option (list Unit)).
Arguments Success {Unit}.
Arguments Failure {Unit} firstIssueMessage.

(** What the submit handler of an input does. *)
Inductive SubmitAction (Unit : Type) :=
| Submitted (value : list Unit)
| Skipped
| Cancelled
| ErrorShown.
Arguments Submitted {Unit} value.
Arguments Skipped {Unit}.
Arguments Cancelled {Unit}.
Arguments ErrorShown {Unit}.

Record Lines (Unit : Type) := mkLines {
  lines : list (list Unit);
  cursorLine : nat;
  cursorCol : nat;
}.
Arguments mkLines {Unit} lines cursorLine cursorCol.
Arguments lines {Unit} _.
Arguments cursorLine {Unit} _.
Arguments cursorCol {Unit} _.

(** What [TextInput] renders on its input line. *)
Record View (Unit : Type) := mkView {
  showEllipsisBefore : bool;
  beforeCursor : list Unit;
  charAtCursor : Unit;
  afterCursor : list Unit;
  showEllipsisAfter : bool;
}.
Arguments mkView {Unit} _ _ _ _ _.
Arguments showEllipsisBefore {Unit} _.
Arguments beforeCursor {Unit} _.
Arguments charAtCursor {Unit} _.
Arguments afterCursor {Unit} _.
Arguments showEllipsisAfter {Unit} _.

Definition LINE_WIDTH : nat := 52.
Arguments LINE_WIDTH : simpl never.

Section WithUnit.
Context {Unit : Type}.

(** The code unit of [' ']. *)
Variable space : Unit.

(** [value.trim()] *)
Variable trim : list Unit → list Unit.

Variable schema : option (list Unit → SafeParse Unit).
Variable customValidation : option (list Unit → CustomResult Unit).

(** Truthiness of a [string | undefined]. *)
Definition truthy (s : option (list Unit)) : bool :=
  match s with
  | Some (_ :: _) => true
  | _ => false
  end.

(** [s.repeat(count)] *)
Definition repeatString (s : list Unit) (count : nat) : list Unit :=
  mjoin (replicate count s).

(** [s.slice(first, last)] for [0 <= first]. *)
Definition slice (s : list Unit) (first last : nat) : list Unit :=
  take (last - first) (drop first s).

(** [validateValue], the same in both components (lines 40-58 of
    [SecretInput.tsx]). *)
Definition validateValue (value : list Unit) : option (list Unit) :=
  match value with
  | [] => None
  | _ :: _ =>
      let schemaResult :=
        match schema with
        | Some schema =>
            match schema value with
            | Success => None
            | Failure firstIssueMessage => firstIssueMessage
            end
        | None => None
        end in
      match customValidation with
      | Some customValidation =>
          match customValidation value with
          | Invalid message => Some message
          | Valid => schemaResult
          end
      | None => schemaResult
      end
  end.

(** [SecretInput], lines 89-105: the submit handler.  [onSkip] tells whether
    the [onSkip] callback is provided. *)
Definition secretOnSubmit (onSkip : bool) (val : list Unit) : SubmitAction Unit :=
  let trimmed := trim val in
  match trimmed with
  | [] => if onSkip then Skipped else Cancelled
  | _ :: _ =>
      let validationError := validateValue trimmed in
      if negb (truthy validationError) then Submitted trimmed else ErrorShown
  end.

(** [TextInput]: the submit handler. *)
Definition textOnSubmit (allowEmpty : bool) (val : list Unit) : SubmitAction Unit :=
  let trimmed := trim val in
  let hasValue := allowEmpty || truthy (Some trimmed) in
  let validationError := validateValue trimmed in
  if hasValue && negb (truthy validationError) then Submitted trimmed else ErrorShown.

(** [SecretInput], lines 126-152. *)
Definition getDisplayValue (showValue : bool) (value : list Unit) (cursor : nat)
    (maskChar : list Unit) (revealChars : nat) : list Unit :=
  if showValue then value
  else if length value =? 0 then []
  else
    let cursorAtEnd := cursor =? length value in
    if negb cursorAtEnd then value
    else if (0 <? revealChars) && (revealChars * 2 <? length value) then
      let start := take revealChars value in
      let end' := drop (length value - revealChars) value in
      let middleLength := length value - revealChars * 2 in
      start ++ repeatString maskChar middleLength ++ end'
    else repeatString maskChar (length value).

(** Lines 162-164: the loop that cuts the display value into lines.  At most
    [fuel] iterations are run. *)
Fixpoint linesFrom (fuel i : nat) (displayValue : list Unit) : list (list Unit) :=
  match fuel with
  | 0 => []
  | S fuel =>
      if i <? length displayValue then
        slice displayValue i (i + LINE_WIDTH)
          :: linesFrom fuel (i + LINE_WIDTH) displayValue
      else []
  end.

(** Lines 155-170, on the display value.  Every iteration advances by
    [LINE_WIDTH], so the loop runs at most [length displayValue] times. *)
Definition getLines (displayValue : list Unit) (cursor : nat) : Lines Unit :=
  if length displayValue =? 0 then mkLines [] 0 0
  else
    mkLines (linesFrom (length displayValue) 0 displayValue)
      (cursor / LINE_WIDTH) (cursor mod LINE_WIDTH).

(** Line 181 and 219: a line is rendered with the cursor when its index is
    [cursorLine]. *)
Definition cursorRendered (l : Lines Unit) : bool :=
  bool_decide (cursorLine l < length (lines l)).

(** [TextInput]: [Math.max(20, terminalWidth - reservedChars)] with
    [terminalWidth = stdout?.columns ?? 80].  A negative difference loses
    against 20 just as a truncated one does. *)
Definition reservedChars (hideArrow : bool) : nat :=
  (if hideArrow then 0 else 2) + 1 + 2 + 2.

Definition maxDisplayWidth (columns : option nat) (hideArrow : bool) : nat :=
  Nat.max 20 (default 80 columns - reservedChars hideArrow).

(** [mask ? mask.repeat(value.length) : value] *)
Definition displayValueOf (mask : option (list Unit)) (value : list Unit)
    : list Unit :=
  match mask with
  | Some (c :: mask') => repeatString (c :: mask') (length value)
  | _ => value
  end.

(** The window of a display value of the given length that is longer than
    [maxWidth]: [(windowStart, windowEnd)].  [maxWidth] is at least 20, and
    the two other subtractions are clamped at zero by the source
    ([Math.max(0, ...)]). *)
Definition windowOf (displayLength cursor maxWidth : nat) : nat * nat :=
  let windowSize := maxWidth - 2 in
  let halfWindow := windowSize / 2 in
  let windowStart := Nat.max 0 (cursor - halfWindow) in
  let windowEnd := Nat.min displayLength (windowStart + windowSize) in
  let windowStart :=
    if windowEnd =? displayLength then Nat.max 0 (displayLength - windowSize)
    else windowStart in
  let windowEnd :=
    if windowStart =? 0 then Nat.min displayLength windowSize else windowEnd in
  (windowStart, windowEnd).

(** The windowed view of the input line. *)
Definition viewOf (displayValue : list Unit) (cursor maxWidth : nat) : View Unit :=
  if length displayValue <=? maxWidth then
    mkView false (slice displayValue 0 cursor)
      (default space (displayValue !! cursor))
      (drop (cursor + 1) displayValue) false
  else
    let '(windowStart, windowEnd) := windowOf (length displayValue) cursor maxWidth in
    let cursorInWindow := cursor - windowStart in
    let windowedText := slice displayValue windowStart windowEnd in
    mkView (0 <? windowStart) (slice windowedText 0 cursorInWindow)
      (default space (windowedText !! cursorInWindow))
      (drop (cursorInWindow + 1) windowedText)
      (windowEnd <? length displayValue).

(** The number of code units of the rendered children: the ellipses, the text
    before the cursor, the cursor's cell and the text after it. *)
Definition renderedWidth (view : View Unit) : nat :=
  (if showEllipsisBefore view then 1 else 0)
  + length (beforeCursor view) + 1 + length (afterCursor view)
  + (if showEllipsisAfter view then 1 else 0).

End WithUnit.

(** A schema that accepts the strings of at least three code units. *)
Definition minThree (value : list Ascii.ascii) : SafeParse Ascii.ascii :=
  if 3 <=? length value then Success
  else Failure (Some (String.list_ascii_of_string "too short")).

(** A custom validation that refuses everything without a message. *)
Definition silentRefusal (value : list Ascii.ascii) : CustomResult Ascii.ascii :=
  Invalid [].

Definition star : Ascii.ascii := Ascii.ascii_of_nat 42.

End Input.


(** ** Loading the project for dev mode

    [loadProjectConfig] of [src/cli/operations/dev/config.ts], lines 160-178.
    [findConfigRoot] and [configIO.configExists('project')] of [lib] are
    synchronous look-ups on the disk; what they answer is an input of the
    model. *)

Module DevLoad.

Definition loadProjectConfig (findConfigRoot : string → option string)
    (configExists : string → bool) (workingDir : string)
    : M (option AgentCoreProjectSpec.t) :=
  match truthyString (findConfigRoot workingDir) with
  | None => mret None
  | Some configRoot =>
      if negb (configExists configRoot) then mret None
      else
        tryCatch
          (projectSpec ← readProjectSpec (Some configRoot); mret (Some projectSpec))
          (* Invalid config *)
          (λ _, mret None)
  end.

End DevLoad.

(** ** The identity flow as a transition system

    [AddIdentityFlow]: the handlers that call [setFlow], each as the state it
    sets, together with the attach requests it issues.  A handler the source
    does not guard by the current state is applied in every state. *)

Module IdentityFlow.
Import Tui.

(** [createIdentity(config)]'s result. *)
Inductive CreateResult :=
| CreateOk (name ownerAgent : string)
| CreateError (error : string).

(** [attachIdentity(...)]'s result. *)
Inductive AttachResult :=
| AttachOk
| AttachError (error : string).

(** The arguments of one [attachIdentity] call. *)
Record AttachRequest := mkAttachRequest {
  targetAgent : string;
  identityName : string;
  envVarName : string;
}.

Inductive Event :=
| ModeSelected (item : SelectableItem)
| AgentSelected (item : SelectableItem)
| AgentExit
| IdentitySelected (item : SelectableItem)
| IdentityExit
| WizardExit
| CreateCompleted (result : CreateResult)
| EnvvarSubmitted (envVarName : string) (result : AttachResult)
| EnvvarCancelled
| ErrorBack.

(** The state set by the handler of an event, and the attach requests it
    sends. *)
Definition handle (flow : IdentityFlowState) (event : Event)
    : IdentityFlowState * list AttachRequest :=
  match event with
  | ModeSelected item =>
      (if String.eqb (id item) "create" then ICreateWizard else IBindSelectAgent, [])
  | AgentSelected item => (IBindSelectIdentity (id item), [])
  | AgentExit => (IModeSelect, [])
  | IdentitySelected item =>
      match flow with
      | IBindSelectIdentity targetAgent => (IBindEnterEnvvar targetAgent (id item), [])
      | _ => (flow, [])
      end
  | IdentityExit => (IBindSelectAgent, [])
  | WizardExit => (IModeSelect, [])
  | CreateCompleted (CreateOk name ownerAgent) => (ICreateSuccess name ownerAgent, [])
  | CreateCompleted (CreateError error) => (IError error, [])
  | EnvvarSubmitted envVarName result =>
      match flow with
      | IBindEnterEnvvar targetAgent identityName =>
          (match result with
           | AttachOk => IBindSuccess identityName targetAgent
           | AttachError error => IError error
           end,
           [mkAttachRequest targetAgent identityName envVarName])
      | _ => (flow, [])
      end
  | EnvvarCancelled =>
      match flow with
      | IBindEnterEnvvar targetAgent _ => (IBindSelectIdentity targetAgent, [])
      | _ => (flow, [])
      end
  | ErrorBack => (IModeSelect, [])
  end.

(** The events handled one after the other, from [flow]. *)
Fixpoint run (flow : IdentityFlowState) (events : list Event)
    : IdentityFlowState * list AttachRequest :=
  match events with
  | [] => (flow, [])
  | event :: events =>
      let '(flow', requests) := handle flow event in
      let '(final, requests') := run flow' events in
      (final, requests ++ requests')
  end.

(** An identity can be selected only among the items of the list on
    display. *)
Definition selectable (ownedIdentities : list OwnedResource)
    (flow : IdentityFlowState) (event : Event) : Prop :=
  match event with
  | IdentitySelected item => item ∈ identityItems flow ownedIdentities
  | _ => True
  end.

(** Every identity selected in the course of [events] was on display. *)
Fixpoint selectionsFromDisplay (ownedIdentities : list OwnedResource)
    (flow : IdentityFlowState) (events : list Event) : Prop :=
  match events with
  | [] => True
  | event :: events =>
      selectable ownedIdentities flow event
      ∧ selectionsFromDisplay ownedIdentities (handle flow event).1 events
  end.

(** The identity named in the state is one that an agent other than the
    target owns. *)
Definition bindable (ownedIdentities : list OwnedResource)
    (targetAgent identityName : string) : Prop :=
  ∃ r, r ∈ ownedIdentities ∧ name r = identityName ∧ ownerAgent r ≠ targetAgent.

Definition flowInvariant (ownedIdentities : list OwnedResource)
    (flow : IdentityFlowState) : Prop :=
  match flow with
  | IBindEnterEnvvar targetAgent identityName =>
      bindable ownedIdentities targetAgent identityName
  | _ => True
  end.

Definition exampleIdentities : list OwnedResource :=
  [mkOwnedResource "openai" "researcher"; mkOwnedResource "github" "packer"].

Definition exampleEvents : list Event :=
  [ModeSelected (mkSelectableItem "bind" "Bind existing identity" None);
   AgentSelected (mkSelectableItem "packer" "packer" None);
   IdentitySelected (toItem (mkOwnedResource "openai" "researcher"));
   EnvvarSubmitted "OPENAI_CREDENTIAL_ID" AttachOk].

End IdentityFlow.


(** * Properties *)

(** ** Running computations *)

Section Computations.
Context {A B : Type}.

Lemma bind_normal (m : M A) (k : A → M B) env s a s' :
  m env s = (Normal a, s') → (m ≫= k) env s = k a env s'.
Proof. intros H. unfold mbind, M_bind, bind. by rewrite H. Qed.

Lemma bind_abrupt (m : M A) (k : A → M B) env s e s' :
  m env s = (Abrupt e, s') → (m ≫= k) env s = (Abrupt e, s').
Proof. intros H. unfold mbind, M_bind, bind. by rewrite H. Qed.

Lemma perform_returns (c : Call) (effect : Env → State → A * State) env s :
  throws env (clock s) = None →
  perform c effect env s = (Normal (effect env s).1, record c (effect env s).2).
Proof. intros H. unfold perform. rewrite H. by destruct (effect env s). Qed.

Lemma perform_throws (c : Call) (effect : Env → State → A * State) env s e :
  throws env (clock s) = Some e →
  perform c effect env s = (Abrupt e, record c s).
Proof. intros H. unfold perform. by rewrite H. Qed.

End Computations.

Lemma clock_record c s : clock (record c s) = S (clock s).
Proof. unfold clock, record. simpl. rewrite length_app. simpl. lia. Qed.

Lemma issued_app s s' calls : trace s' = trace s ++ calls → issued s s' = calls.
Proof. intros H. unfold issued, clock. rewrite H. by rewrite drop_app_length. Qed.

(** ** The provisioning loop refines the outcome table *)

Module IdentityFacts.
Import PreDeployIdentity IdentitySpec.

Lemma setupApiKeyCredentialProvider_attempt env credentials agentName provider s :
  ∃ entry s',
    setupApiKeyCredentialProvider agentName provider credentials env s = (Normal entry, s')
    ∧ Attempt env credentials agentName provider s entry s'.
Proof.
  unfold setupApiKeyCredentialProvider.
  destruct (truthyString _) as [apiKey|] eqn:Hsecret.
  2: { eexists _, _. split; [reflexivity|]. by apply AttemptSkipped. }
  unfold tryCatch.
  destruct (throws env (clock s)) as [e|] eqn:Hcheck.
  { erewrite bind_abrupt by (by apply perform_throws).
    eexists _, _. split; [reflexivity|]. by eapply AttemptCheckThrows. }
  erewrite bind_normal by (by apply perform_returns). simpl.
  case_bool_decide as Hin.
  { eexists _, _. split; [reflexivity|]. by eapply AttemptExists. }
  destruct (throws env (S (clock s))) as [e|] eqn:Hcreate.
  { erewrite bind_abrupt by (apply perform_throws; by rewrite clock_record).
    eexists _, _. split; [reflexivity|]. by eapply AttemptCreateThrows. }
  erewrite bind_normal by (apply perform_returns; by rewrite clock_record).
  cbv beta. rewrite clock_record.
  destruct (rejects env (S (clock s))) as [err|] eqn:Hreject; simpl.
  - eexists _, _. split; [reflexivity|]. by eapply AttemptCreateRejected.
  - eexists _, _. split; [reflexivity|]. by eapply AttemptCreated.
Qed.

Lemma Attempts_app env credentials s pairs entries s1 pairs' entries' s2 :
  Attempts env credentials s pairs entries s1 →
  Attempts env credentials s1 pairs' entries' s2 →
  Attempts env credentials s (pairs ++ pairs') (entries ++ entries') s2.
Proof.
  induction 1 as [|? ? ? ? ? ? ? ? Hfirst Hrest IH]; intros Hmore; simpl; [done|].
  eapply AttemptsCons; [exact Hfirst | by apply IH].
Qed.

Lemma providers_loop_attempts env credentials agentName providers :
  ∀ results s, ∃ entries s',
    forOf providers
      (λ provider results,
        if isApiKeyCredentialProvider provider
        then
          result ← setupApiKeyCredentialProvider agentName provider credentials;
          mret (results ++ [result])
        else mret results)
      results env s = (Normal (results ++ entries), s')
    ∧ Attempts env credentials s
        (map (pair agentName) (List.filter isApiKeyCredentialProvider providers))
        entries s'.
Proof.
  induction providers as [|provider providers IH]; intros results s; simpl.
  { exists [], s. rewrite app_nil_r. split; [done | constructor]. }
  destruct (isApiKeyCredentialProvider provider) eqn:Hvariant.
  - destruct (setupApiKeyCredentialProvider_attempt env credentials agentName provider s)
      as (entry & s1 & Hrun & Hattempt).
    destruct (IH (results ++ [entry]) s1) as (entries & s2 & Hloop & Hrest).
    exists (entry :: entries), s2. split.
    + erewrite bind_normal by (erewrite bind_normal by exact Hrun; reflexivity).
      rewrite Hloop. by rewrite <- app_assoc.
    + simpl. by eapply AttemptsCons.
  - destruct (IH results s) as (entries & s2 & Hloop & Hrest).
    exists entries, s2. split; [|done].
    erewrite bind_normal by reflexivity. exact Hloop.
Qed.

Lemma setupAgentIdentityProviders_attempts env credentials agent s :
  ∃ entries s',
    setupAgentIdentityProviders agent credentials env s = (Normal entries, s')
    ∧ Attempts env credentials s (agentApiKeyPairs agent) entries s'.
Proof.
  destruct (providers_loop_attempts env credentials (AgentEnvSpec.name agent)
              (ownedProviders (AgentEnvSpec.identityProviders agent)) [] s)
    as (entries & s' & Hloop & Hattempts).
  by exists entries, s'.
Qed.

Lemma agents_loop_attempts env credentials agents :
  ∀ results s, ∃ entries s',
    forOf agents
      (λ agent results,
        agentResults ← setupAgentIdentityProviders agent credentials;
        mret (results ++ agentResults))
      results env s = (Normal (results ++ entries), s')
    ∧ Attempts env credentials s (concat (map agentApiKeyPairs agents)) entries s'.
Proof.
  induction agents as [|agent agents IH]; intros results s; simpl.
  { exists [], s. rewrite app_nil_r. split; [done | constructor]. }
  destruct (setupAgentIdentityProviders_attempts env credentials agent s)
    as (first & s1 & Hrun & Hfirst).
  destruct (IH (results ++ first) s1) as (entries & s2 & Hloop & Hrest).
  exists (first ++ entries), s2. split.
  - erewrite bind_normal by (erewrite bind_normal by exact Hrun; reflexivity).
    rewrite Hloop. by rewrite <- app_assoc.
  - by eapply Attempts_app.
Qed.

Lemma setupAllAgents_attempts env projectSpec credentials kmsKeyArn s :
  ∃ entries s',
    setupAllAgents projectSpec credentials kmsKeyArn env s
    = (Normal (mkPreDeployIdentityResult entries (existsb isError entries) kmsKeyArn), s')
    ∧ Attempts env credentials s (ownedApiKeyPairs projectSpec) entries s'.
Proof.
  destruct (agents_loop_attempts env credentials
              (AgentCoreProjectSpec.agents projectSpec) [] s)
    as (entries & s' & Hloop & Hattempts).
  exists entries, s'. split; [|done].
  unfold setupAllAgents. by erewrite bind_normal by exact Hloop.
Qed.

(** ** The KMS step *)

Lemma beforeProviders_record c s :
  isProviderCall c = false → beforeProviders s (record c s).
Proof.
  intros Hc. split_and!; [done..|]. exists [c]. split; [done|]. by constructor.
Qed.

Lemma beforeProviders_vault c configuration s :
  isProviderCall c = false → beforeProviders s (record c (withTokenVault configuration s)).
Proof.
  intros Hc. split_and!; [done..|]. exists [c]. split; [done|]. by constructor.
Qed.

Lemma beforeProviders_trans s s1 s2 :
  beforeProviders s s1 → beforeProviders s1 s2 → beforeProviders s s2.
Proof.
  intros (Hp & Hd & calls & Ht & Hc) (Hp' & Hd' & calls' & Ht' & Hc').
  split_and!; [congruence..|]. exists (calls ++ calls'). split.
  - rewrite Ht', Ht. by rewrite app_assoc.
  - by apply Forall_app.
Qed.

Lemma configureTokenVault_run env arn s :
  (∃ result s',
    configureTokenVault arn env s = (Normal result, s')
    ∧ beforeProviders s s'
    ∧ (vaultReconfigurationFails env (clock s) ↔ success result = false)
    ∧ (success result = true → keyArn result = Some arn
       ∧ tokenVault s' = Some (mkKmsConfiguration CustomerManagedKey (Some arn))))
  ∨ (∃ e,
    throws env (clock s) = Some e
    ∧ configureTokenVault arn env s
      = (Abrupt e, record (CSetTokenVaultKmsKey arn) s)).
Proof.
  unfold configureTokenVault, vaultReconfigurationFails.
  destruct (throws env (clock s)) as [e|] eqn:Hthrow.
  { right. exists e. split; [done|].
    by erewrite bind_abrupt by (by apply perform_throws). }
  left. erewrite bind_normal by (by apply perform_returns). cbv beta.
  destruct (rejects env (clock s)) as [err|] eqn:Hreject; simpl.
  - eexists _, _. split; [reflexivity|]. split; [apply beforeProviders_record; reflexivity|].
    split; [|done]. split; [done|]. intros _. right. by eexists.
  - eexists _, _. split; [reflexivity|]. split; [by apply beforeProviders_vault|].
    split; [|done]. split; [|done]. intros [[? ?]|[? ?]]; done.
Qed.

Lemma setupTokenVaultKms_run env region projectSpec s :
  ∃ result s',
    setupTokenVaultKms region projectSpec env s = (Normal result, s')
    ∧ beforeProviders s s'
    ∧ (kmsSetupFails projectSpec env (clock s) ↔ success result = false).
Proof.
  unfold setupTokenVaultKms, kmsSetupFails, tryCatch.
  destruct (truthyString (AgentCoreProjectSpec.identityKmsKeyArn projectSpec))
    as [arn|] eqn:Harn.
  { destruct (configureTokenVault_run env arn s)
      as [(result & s' & Hrun & Hb & Hiff & _) | (e & Hthrow & Hrun)]; rewrite Hrun.
    - by exists result, s'.
    - eexists _, _. split; [reflexivity|]. split; [apply beforeProviders_record; reflexivity|].
      split; [done|]. intros _. left. by eexists. }
  destruct (throws env (clock s)) as [e|] eqn:Hthrow.
  { erewrite bind_abrupt by (by apply perform_throws).
    eexists _, _. split; [reflexivity|]. split; [apply beforeProviders_record; reflexivity|].
    split; [done|]. intros _. left. left. by eexists. }
  erewrite bind_normal by (by apply perform_returns). cbv beta. simpl.
  unfold keyCreationFails. rewrite Hthrow.
  destruct (truthyString (KeyMetadata (kmsCreateKeyResponse env (clock s)) ≫= Arn))
    as [arn|] eqn:Hkey.
  2: { eexists _, _. split; [reflexivity|]. split; [apply beforeProviders_record; reflexivity|].
       split; [done|]. intros _. left. by right. }
  set (c := CKmsCreateKey _ _).
  destruct (configureTokenVault_run env arn (record c s))
    as [(result & s' & Hrun & Hb & Hiff & _) | (e & Hthrow' & Hrun)]; rewrite Hrun.
  - exists result, s'. split; [done|]. split.
    + apply (beforeProviders_trans _ (record c s)); [apply beforeProviders_record; reflexivity | done].
    + rewrite clock_record in Hiff. rewrite <- Hiff. split; [|by right].
      intros [[[? ?]|?]|?]; done.
  - eexists _, _. split; [reflexivity|]. split.
    + apply (beforeProviders_trans _ (record c s)); (apply beforeProviders_record; reflexivity).
    + split; [done|]. intros _. right. left. rewrite clock_record in Hthrow'. by eexists.
Qed.

(** Without a recorded key ARN the KMS step opens with a key creation. *)
Lemma setupTokenVaultKms_creates env region projectSpec s :
  truthyString (AgentCoreProjectSpec.identityKmsKeyArn projectSpec) = None →
  ∃ rest,
    trace (setupTokenVaultKms region projectSpec env s).2
    = trace s
      ++ CKmsCreateKey
           ("AgentCore Identity encryption key for "
              +:+ AgentCoreProjectSpec.name projectSpec)
           (AgentCoreProjectSpec.name projectSpec)
         :: rest.
Proof.
  intros Harn. unfold setupTokenVaultKms, tryCatch. rewrite Harn.
  destruct (throws env (clock s)) as [e|] eqn:Hthrow.
  { erewrite bind_abrupt by (by apply perform_throws). by exists []. }
  erewrite bind_normal by (by apply perform_returns). cbv beta. simpl.
  destruct (truthyString (KeyMetadata (kmsCreateKeyResponse env (clock s)) ≫= Arn))
    as [arn|] eqn:Hkey; [|by exists []].
  set (c := CKmsCreateKey _ _).
  destruct (configureTokenVault_run env arn (record c s))
    as [(result & s' & Hrun & (_ & _ & calls & Htrace & _) & _)
       | (e & Hthrow' & Hrun)]; rewrite Hrun; simpl.
  - exists calls. rewrite Htrace. simpl. by rewrite <- app_assoc.
  - exists [CSetTokenVaultKmsKey arn]. by rewrite <- app_assoc.
Qed.

Lemma setupApiKeyProviders_run options env s :
  (∃ e, throws env (clock s) = Some e
     ∧ setupApiKeyProviders options env s
       = (Abrupt e, record (CReadEnvFile (configBaseDir options)) s))
  ∨ (throws env (clock s) = None
     ∧ kmsRequested options = true
     ∧ kmsSetupFails (projectSpec options) env (S (clock s))
     ∧ ∃ err s',
         setupApiKeyProviders options env s = (Normal (tokenVaultFailure err), s')
         ∧ beforeProviders s s')
  ∨ (throws env (clock s) = None
     ∧ (kmsRequested options = true
        → ¬ kmsSetupFails (projectSpec options) env (S (clock s)))
     ∧ ∃ s1 arn entries s',
         beforeProviders s s1
         ∧ Attempts env
             (allCredentialsOf options (envFileAt env (configBaseDir options)))
             s1 (ownedApiKeyPairs (projectSpec options)) entries s'
         ∧ setupApiKeyProviders options env s
           = (Normal (mkPreDeployIdentityResult entries (existsb isError entries) arn),
              s')).
Proof.
  unfold setupApiKeyProviders.
  destruct (throws env (clock s)) as [e|] eqn:Hread.
  { left. exists e. split; [done|]. by erewrite bind_abrupt by (by apply perform_throws). }
  right. erewrite bind_normal by (by apply perform_returns). cbv beta. simpl.
  set (c := CReadEnvFile _). set (credentials := allCredentialsOf _ _).
  assert (beforeProviders s (record c s)) as Hread'
    by (apply beforeProviders_record; reflexivity).
  destruct (kmsRequested options) eqn:Hkms.
  - destruct (setupTokenVaultKms_run env (region options) (projectSpec options) (record c s))
      as (result & s1 & Hrun & Hb & Hiff).
    rewrite clock_record in Hiff.
    erewrite bind_normal by exact Hrun.
    destruct (success result) eqn:Hsuccess; simpl.
    + right. split; [done|]. split.
      { intros _ Hfails. apply Hiff in Hfails. congruence. }
      destruct (setupAllAgents_attempts env (projectSpec options) credentials
                  (keyArn result) s1) as (entries & s' & Hloop & Hattempts).
      exists s1, (keyArn result), entries, s'. split_and!; [|done..].
      by eapply beforeProviders_trans.
    + left. split; [done|]. split; [done|]. split; [by apply Hiff|].
      exists (error result), s1. split; [done|]. by eapply beforeProviders_trans.
  - right. split; [done|]. split; [done|].
    destruct (setupAllAgents_attempts env (projectSpec options) credentials None
                (record c s)) as (entries & s' & Hloop & Hattempts).
    by exists (record c s), None, entries, s'.
Qed.

(** ** What a chain of attempts does *)

Lemma Attempt_effect env credentials agentName provider s entry s' :
  Attempt env credentials agentName provider s entry s' →
  ApiKeyProviderSetupResult.agentName entry = agentName
  ∧ ApiKeyProviderSetupResult.providerName entry = OwnedIdentityProvider.name provider
  ∧ apiKeyProviders s ⊆ apiKeyProviders s'
  ∧ (ApiKeyProviderSetupResult.status entry = StatusCreated
     → OwnedIdentityProvider.name provider ∈ apiKeyProviders s')
  ∧ ∃ calls,
      trace s' = trace s ++ calls
      ∧ omap existenceCheck calls
        = (if hasSecret credentials (agentName, provider)
           then [OwnedIdentityProvider.name provider] else [])
      ∧ ∀ name apiKey, CCreateApiKeyProvider name apiKey ∈ calls
          → name = OwnedIdentityProvider.name provider ∧ name ∉ apiKeyProviders s.
Proof.
  unfold hasSecret.
  destruct 1 as [s Hs|s k e Hs|s k Hs|s k e Hs|s k err Hs|s k Hs]; simpl; rewrite Hs;
    (split; [done|]); (split; [done|]); (split; [set_solver|]); (split; [try done; set_solver|]).
  - exists []. rewrite app_nil_r. split; [done|]. split; [done|].
    intros ?? []%elem_of_nil.
  - eexists [_]. split; [done|]. split; [done|].
    intros ?? [=]%list_elem_of_singleton.
  - eexists [_]. split; [done|]. split; [done|].
    intros ?? [=]%list_elem_of_singleton.
  - eexists [_; _]. split; [by rewrite <- app_assoc|]. split; [done|].
    intros ?? [[=]|[= -> ->]%list_elem_of_singleton]%elem_of_cons; done.
  - eexists [_; _]. split; [by rewrite <- app_assoc|]. split; [done|].
    intros ?? [[=]|[= -> ->]%list_elem_of_singleton]%elem_of_cons; done.
  - eexists [_; _]. split; [by rewrite <- app_assoc|]. split; [done|].
    intros ?? [[=]|[= -> ->]%list_elem_of_singleton]%elem_of_cons; done.
Qed.

Lemma Attempts_effect env credentials s pairs entries s' :
  Attempts env credentials s pairs entries s' →
  Forall2 (λ pair entry,
      ApiKeyProviderSetupResult.agentName entry = pair.1
      ∧ ApiKeyProviderSetupResult.providerName entry = OwnedIdentityProvider.name pair.2)
    pairs entries
  ∧ apiKeyProviders s ⊆ apiKeyProviders s'
  ∧ ∃ calls,
      trace s' = trace s ++ calls
      ∧ omap existenceCheck calls
        = map (λ pair, OwnedIdentityProvider.name pair.2)
            (List.filter (hasSecret credentials) pairs)
      ∧ ∀ name apiKey, CCreateApiKeyProvider name apiKey ∈ calls
          → name ∉ apiKeyProviders s.
Proof.
  induction 1 as [s|s agentName provider entry s1 pairs entries s2 Hfirst Hrest IH].
  { split; [constructor|]. split; [done|]. exists []. rewrite app_nil_r.
    split; [done|]. split; [done|]. intros ?? []%elem_of_nil. }
  destruct (Attempt_effect _ _ _ _ _ _ _ Hfirst)
    as (Hagent & Hname & Hsub & _ & calls & Htrace & Hchecks & Hcreates).
  destruct IH as (Hall & Hsub' & calls' & Htrace' & Hchecks' & Hcreates').
  split; [by constructor|]. split; [by transitivity (apiKeyProviders s1)|].
  exists (calls ++ calls'). split; [by rewrite Htrace', Htrace, app_assoc|]. split.
  - rewrite omap_app, Hchecks, Hchecks'. simpl.
    by destruct (hasSecret credentials (agentName, provider)).
  - intros name apiKey [Hin|Hin]%elem_of_app.
    + by apply (Hcreates _ _ Hin).
    + intros Hname'. by apply (Hcreates' _ _ Hin), Hsub.
Qed.

Lemma beforeProviders_issued s s1 s' calls :
  beforeProviders s s1 → trace s' = trace s1 ++ calls →
  ∃ before, Forall (λ c, isProviderCall c = false) before
            ∧ issued s s' = before ++ calls.
Proof.
  intros (_ & _ & before & Htrace & Hbefore) Htrace'. exists before. split; [done|].
  apply issued_app. by rewrite Htrace', Htrace, app_assoc.
Qed.

Lemma omap_existenceCheck_before before :
  Forall (λ c, isProviderCall c = false) before → omap existenceCheck before = [].
Proof.
  induction 1 as [|c before Hc _ IH]; [done|].
  by destruct c; simpl in *; rewrite ?IH.
Qed.

Lemma beforeProviders_clock s s1 : beforeProviders s s1 → clock s ≤ clock s1.
Proof.
  intros (_ & _ & calls & Htrace & _). unfold clock. rewrite Htrace, length_app. lia.
Qed.

Lemma Attempt_clock env credentials agentName provider s entry s' :
  Attempt env credentials agentName provider s entry s' → clock s ≤ clock s'.
Proof.
  intros (_ & _ & _ & _ & calls & Htrace & _)%Attempt_effect.
  unfold clock. rewrite Htrace, length_app. lia.
Qed.

(** The attempt made for the pair at a given position. *)
Lemma Attempts_lookup env credentials s pairs entries s' :
  Attempts env credentials s pairs entries s' →
  ∀ i agentName provider,
    pairs !! i = Some (agentName, provider) →
    ∃ si entry si',
      Attempt env credentials agentName provider si entry si'
      ∧ entries !! i = Some entry
      ∧ apiKeyProviders s ⊆ apiKeyProviders si
      ∧ clock s ≤ clock si
      ∧ apiKeyProviders si' ⊆ apiKeyProviders s'.
Proof.
  induction 1 as [s|s a p entry s1 pairs entries s2 Hfirst Hrest IH];
    intros i agentName provider Hi; [done|].
  destruct i as [|i]; simpl in Hi.
  - simplify_eq. exists s, entry, s1. split_and!; [done..|].
    by destruct (Attempts_effect _ _ _ _ _ _ Hrest) as (_ & Hsub & _).
  - destruct (IH _ _ _ Hi) as (si & entry' & si' & Hattempt & Hentry & Hsub & Hclock & Hsub').
    exists si, entry', si'. split_and!; [done..| | |done].
    + destruct (Attempt_effect _ _ _ _ _ _ _ Hfirst) as (_ & _ & Hsub0 & _).
      by transitivity (apiKeyProviders s1).
    + apply Attempt_clock in Hfirst. lia.
Qed.

Lemma Attempts_skipped env credentials s pairs entries s' :
  Attempts env credentials s pairs entries s' →
  Forall (λ pair, secretOf credentials pair.2 = None) pairs →
  entries = map skippedEntry pairs ∧ s' = s.
Proof.
  induction 1 as [s|s a p entry s1 pairs entries s2 Hfirst Hrest IH]; [done|].
  intros [Hmissing Hothers]%Forall_cons. simpl in Hmissing.
  inversion Hfirst; subst; try congruence.
  destruct (IH Hothers) as [-> ->]. done.
Qed.

Lemma existsb_isError_skipped pairs : existsb isError (map skippedEntry pairs) = false.
Proof. induction pairs as [|pair pairs IH]; [done|]. simpl. by rewrite IH. Qed.

(** No run creates a provider the identity service already holds. *)
Lemma no_create_for_existing options env s out s' :
  setupApiKeyProviders options env s = (out, s') →
  ∀ name apiKey, CCreateApiKeyProvider name apiKey ∈ issued s s' →
    name ∉ apiKeyProviders s.
Proof.
  intros Hrun name apiKey.
  destruct (setupApiKeyProviders_run options env s)
    as [(e & He & Hrun')
       | [(_ & _ & _ & err & s1 & Hrun' & Hbefore)
         | (_ & _ & s1 & arn & entries & s2 & Hbefore & Hattempts & Hrun')]];
    rewrite Hrun' in Hrun; simplify_eq.
  - rewrite (issued_app _ _ [CReadEnvFile (configBaseDir options)]) by done.
    intros [=]%list_elem_of_singleton.
  - destruct Hbefore as (_ & _ & calls & Htrace & Hcalls).
    rewrite (issued_app _ _ _ Htrace). intros Hin.
    by apply (proj1 (Forall_forall _ _) Hcalls) in Hin.
  - destruct (Attempts_effect _ _ _ _ _ _ Hattempts)
      as (_ & _ & calls & Htrace & _ & Hcreates).
    destruct (beforeProviders_issued _ _ _ _ Hbefore Htrace) as (before & Hb & ->).
    intros [Hin|Hin]%elem_of_app.
    + by apply (proj1 (Forall_forall _ _) Hb) in Hin.
    + destruct Hbefore as (<- & _). by apply (Hcreates _ _ Hin).
Qed.

End IdentityFacts.

(** * [setupApiKeyProviders]: the claims *)

Section Identity.
Import PreDeployIdentity IdentitySpec IdentityFacts.

(** C3.  If the KMS step fails (the key cannot be created, or the token vault
    cannot be reconfigured), [setupApiKeyProviders] stops there: it reports the
    single [TokenVault] error entry with [hasErrors] set, and it has issued no
    existence check and no creation request for any provider. *)
Theorem kms_failure_aborts_before_providers options env s :
  throws env (clock s) = None →
  kmsRequested options = true →
  kmsSetupFails (projectSpec options) env (S (clock s)) →
  ∃ err s',
    setupApiKeyProviders options env s
    = (Normal
         (mkPreDeployIdentityResult
            [ApiKeyProviderSetupResult.mk EmptyString "TokenVault" StatusError
               (Some ("Failed to configure KMS: " +:+ interpolate err))]
            true None),
       s')
    ∧ Forall (λ c, isProviderCall c = false) (issued s s').
Proof.
  intros Hread Hkms Hfails.
  destruct (setupApiKeyProviders_run options env s)
    as [(e & He & _) | [(_ & _ & _ & err & s' & Hrun & Hbefore) | (_ & Hok & _)]].
  - congruence.
  - exists err, s'. split; [exact Hrun|].
    destruct Hbefore as (_ & _ & calls & Htrace & Hcalls).
    by rewrite (issued_app _ _ _ Htrace).
  - by destruct (Hok Hkms).
Qed.

(** C4 (amended).  A provider's failure (its existence check or its creation
    throws, or creation is refused) is reported as an [error] entry and is
    never thrown; every (agent, owned API-key provider) pair yields exactly one
    entry, in order, and every pair that has a secret gets its existence check,
    whatever happened to the pairs before it.  The entries of a run are the
    outcomes of one attempt per pair, each attempt starting in the state the
    previous one ended in, so the status of every entry is the one its own
    calls give it.  The only rejection that reaches the caller comes from the
    precondition read of the environment file; a KMS failure is returned
    through the [TokenVault] entry. *)
Theorem provider_failures_are_collected options env s :
  match setupApiKeyProviders options env s with
  | (Abrupt e, s') =>
      throws env (clock s) = Some e
      ∧ issued s s' = [CReadEnvFile (configBaseDir options)]
  | (Normal r, s') =>
      (kmsRequested options = true
       ∧ kmsSetupFails (projectSpec options) env (S (clock s))
       ∧ ∃ err, r = tokenVaultFailure err)
      ∨ (Forall2 (λ pair entry,
             ApiKeyProviderSetupResult.agentName entry = pair.1
             ∧ ApiKeyProviderSetupResult.providerName entry
               = OwnedIdentityProvider.name pair.2)
           (ownedApiKeyPairs (projectSpec options)) (results r)
         ∧ omap existenceCheck (issued s s')
           = map (λ pair, OwnedIdentityProvider.name pair.2)
               (List.filter
                  (hasSecret
                     (allCredentialsOf options (envFileAt env (configBaseDir options))))
                  (ownedApiKeyPairs (projectSpec options)))
         ∧ ∃ s1,
             beforeProviders s s1
             ∧ Attempts env
                 (allCredentialsOf options (envFileAt env (configBaseDir options)))
                 s1 (ownedApiKeyPairs (projectSpec options)) (results r) s'
             ∧ ∀ i agentName provider,
                 ownedApiKeyPairs (projectSpec options) !! i = Some (agentName, provider) →
                 ∃ si entry si',
                   results r !! i = Some entry
                   ∧ Attempt env
                       (allCredentialsOf options (envFileAt env (configBaseDir options)))
                       agentName provider si entry si'
                   ∧ clock s ≤ clock si
                   ∧ apiKeyProviders s ⊆ apiKeyProviders si
                   ∧ apiKeyProviders si' ⊆ apiKeyProviders s')
  end
  ∧ ∀ agentName provider credentials s0,
      ∃ entry s0',
        setupApiKeyCredentialProvider agentName provider credentials env s0
        = (Normal entry, s0')
        ∧ ApiKeyProviderSetupResult.agentName entry = agentName
        ∧ ApiKeyProviderSetupResult.providerName entry = OwnedIdentityProvider.name provider
        ∧ (is_Some (secretOf credentials provider) →
           (∀ e, throws env (clock s0) = Some e →
              ApiKeyProviderSetupResult.status entry = StatusError
              ∧ ApiKeyProviderSetupResult.error entry = Some (reportedMessage e))
           ∧ (throws env (clock s0) = None →
              OwnedIdentityProvider.name provider ∉ apiKeyProviders s0 →
              (∀ e, throws env (S (clock s0)) = Some e →
                 ApiKeyProviderSetupResult.status entry = StatusError
                 ∧ ApiKeyProviderSetupResult.error entry = Some (reportedMessage e))
              ∧ (∀ err, throws env (S (clock s0)) = None →
                   rejects env (S (clock s0)) = Some err →
                   ApiKeyProviderSetupResult.status entry = StatusError
                   ∧ ApiKeyProviderSetupResult.error entry = err))).
Proof.
  split.
  - destruct (setupApiKeyProviders_run options env s)
      as [(e & He & Hrun)
         | [(_ & Hkms & Hfails & err & s' & Hrun & _)
           | (_ & _ & s1 & arn & entries & s' & Hbefore & Hattempts & Hrun)]];
      rewrite Hrun.
    + split; [done|]. by apply issued_app.
    + left. split; [done|]. split; [done|]. by exists err.
    + right. destruct (Attempts_effect _ _ _ _ _ _ Hattempts)
        as (Hall & _ & calls & Htrace & Hchecks & _).
      split; [done|]. split.
      { destruct (beforeProviders_issued _ _ _ _ Hbefore Htrace) as (before & Hb & ->).
        by rewrite omap_app, (omap_existenceCheck_before _ Hb), Hchecks. }
      exists s1. split; [done|]. split; [done|]. simpl.
      intros i agentName provider Hpair.
      destruct (Attempts_lookup _ _ _ _ _ _ Hattempts _ _ _ Hpair)
        as (si & entry & si' & Hattempt & Hentry & Hsub & Hclock & Hsub').
      exists si, entry, si'. split_and!; [done..| | |done].
      * apply beforeProviders_clock in Hbefore. lia.
      * destruct Hbefore as (Hsame & _). by rewrite <- Hsame.
  - intros agentName provider credentials s0.
    destruct (setupApiKeyCredentialProvider_attempt env credentials agentName provider s0)
      as (entry & s0' & Hrun & Hattempt).
    exists entry, s0'. split; [done|].
    destruct (Attempt_effect _ _ _ _ _ _ _ Hattempt) as (Hagent & Hname & _).
    split; [done|]. split; [done|]. intros [apiKey Hsecret].
    inversion Hattempt; subst; simpl; (split; [|intros ??; split]);
      intros; simplify_eq; done.
Qed.

(** C8.  [hasErrors] is set exactly when some entry of the result has status
    [error].  A provider without a secret is reported as [skipped], with a
    message that names its environment variable, and does not set [hasErrors]:
    when no provider has a secret the run reports every pair as [skipped] and
    [hasErrors] is false. *)
Theorem hasErrors_iff_error_entry options env s r s' :
  setupApiKeyProviders options env s = (Normal r, s') →
  (hasErrors r = true
   ↔ ∃ entry, entry ∈ results r ∧ ApiKeyProviderSetupResult.status entry = StatusError)
  ∧ (∀ agentName provider credentials s0,
       truthyString
         (SecureCredentials.get credentials (OwnedIdentityProvider.envVarName provider))
       = None →
       setupApiKeyCredentialProvider agentName provider credentials env s0
       = (Normal
            (ApiKeyProviderSetupResult.mk agentName (OwnedIdentityProvider.name provider)
               StatusSkipped
               (Some ("No " +:+ OwnedIdentityProvider.envVarName provider
                        +:+ " found in agentcore/.env.local"))),
          s0))
  ∧ ((∀ err, r ≠ tokenVaultFailure err) →
     Forall (λ pair,
         secretOf (allCredentialsOf options (envFileAt env (configBaseDir options)))
           pair.2 = None)
       (ownedApiKeyPairs (projectSpec options)) →
     results r = map skippedEntry (ownedApiKeyPairs (projectSpec options))
     ∧ hasErrors r = false).
Proof.
  intros Hrun. split_and!.
  - destruct (setupApiKeyProviders_run options env s)
      as [(e & He & Hrun')
         | [(_ & _ & _ & err & s1 & Hrun' & _)
           | (_ & _ & s1 & arn & entries & s2 & _ & _ & Hrun')]];
      rewrite Hrun' in Hrun; simplify_eq; simpl.
    + split; [|done]. intros _. eexists. split; [apply list_elem_of_singleton|]; done.
    + rewrite existsb_exists. unfold isError. split.
      * intros (entry & Hin%list_elem_of_In & Hstatus%bool_decide_eq_true). by exists entry.
      * intros (entry & Hin%list_elem_of_In & Hstatus). exists entry.
        split; [done|]. by apply bool_decide_eq_true.
  - intros agentName provider credentials s0 Hmissing.
    unfold setupApiKeyCredentialProvider. by rewrite Hmissing.
  - intros Hloop Hmissing.
    destruct (setupApiKeyProviders_run options env s)
      as [(e & He & Hrun')
         | [(_ & _ & _ & err & s1 & Hrun' & _)
           | (_ & _ & s1 & arn & entries & s2 & _ & Hattempts & Hrun')]];
      rewrite Hrun' in Hrun; simplify_eq.
    + by destruct (Hloop err).
    + destruct (Attempts_skipped _ _ _ _ _ _ Hattempts Hmissing) as [-> _].
      simpl. split; [done|]. apply existsb_isError_skipped.
Qed.

(** C5 (amended).  A provider that has a secret and that the identity service
    already holds is reported as [exists] after its existence check alone; no
    run issues a creation request for a provider the service already holds.
    Consequently, when provisioning runs twice in a row, no provider created by
    the first run is created again, and if the second run's calls do not throw
    it either stops at the KMS step or reports [exists] for that provider. *)
Theorem created_provider_exists_on_rerun options env s r1 s1 out2 s2 :
  setupApiKeyProviders options env s = (Normal r1, s1) →
  setupApiKeyProviders options env s1 = (out2, s2) →
  (∀ agentName provider credentials apiKey s0,
     truthyString
       (SecureCredentials.get credentials (OwnedIdentityProvider.envVarName provider))
     = Some apiKey →
     throws env (clock s0) = None →
     OwnedIdentityProvider.name provider ∈ apiKeyProviders s0 →
     setupApiKeyCredentialProvider agentName provider credentials env s0
     = (Normal
          (ApiKeyProviderSetupResult.mk agentName (OwnedIdentityProvider.name provider)
             StatusExists None),
        record (CApiKeyProviderExists (OwnedIdentityProvider.name provider)) s0))
  ∧ (∀ name apiKey, CCreateApiKeyProvider name apiKey ∈ issued s s1 →
       name ∉ apiKeyProviders s)
  ∧ (∀ entry, entry ∈ results r1 →
       ApiKeyProviderSetupResult.status entry = StatusCreated →
       ∀ apiKey,
         CCreateApiKeyProvider (ApiKeyProviderSetupResult.providerName entry) apiKey
         ∉ issued s1 s2)
  ∧ ((∀ t, clock s1 ≤ t → throws env t = None) →
     ∃ r2, out2 = Normal r2
       ∧ ((∃ err, r2 = tokenVaultFailure err)
          ∨ ∀ i entry, results r1 !! i = Some entry →
              ApiKeyProviderSetupResult.status entry = StatusCreated →
              results r2 !! i
              = Some (ApiKeyProviderSetupResult.mk
                        (ApiKeyProviderSetupResult.agentName entry)
                        (ApiKeyProviderSetupResult.providerName entry)
                        StatusExists None))).
Proof.
  intros Hrun1 Hrun2. split_and!.
  - intros agentName provider credentials apiKey s0 Hsecret Hthrow Hin.
    destruct (setupApiKeyCredentialProvider_attempt env credentials agentName provider s0)
      as (entry & s0' & -> & Hattempt).
    change (secretOf credentials provider = Some apiKey) in Hsecret.
    inversion Hattempt; subst; first [done | congruence].
  - by apply (no_create_for_existing _ _ _ _ _ Hrun1).
  - intros entry Hentry Hcreated apiKey Hissued.
    apply (no_create_for_existing _ _ _ _ _ Hrun2) in Hissued. apply Hissued. clear Hissued.
    destruct (setupApiKeyProviders_run options env s)
      as [(e & He & Hrun')
         | [(_ & _ & _ & err & s' & Hrun' & _)
           | (_ & _ & sa & arn & entries & s' & _ & Hattempts & Hrun')]];
      rewrite Hrun' in Hrun1; simplify_eq.
    + apply list_elem_of_singleton in Hentry. by subst.
    + simpl in Hentry. apply list_elem_of_lookup in Hentry as [i Hi].
      destruct (Attempts_effect _ _ _ _ _ _ Hattempts) as (Hall & _).
      destruct (Forall2_lookup_r _ _ _ _ _ Hall Hi) as ([a p] & Hpair & _).
      destruct (Attempts_lookup _ _ _ _ _ _ Hattempts _ _ _ Hpair)
        as (si & entry' & si' & Hattempt & Hentry' & _ & _ & Hsub).
      simplify_eq.
      destruct (Attempt_effect _ _ _ _ _ _ _ Hattempt) as (_ & -> & _ & Hheld & _).
      by apply Hsub, Hheld.
  - intros Hquiet.
    destruct (setupApiKeyProviders_run options env s1)
      as [(e & He & Hrun')
         | [(_ & _ & _ & err & s' & Hrun' & _)
           | (_ & _ & sb & arn & entries2 & s' & Hbefore2 & Hattempts2 & Hrun')]];
      rewrite Hrun' in Hrun2; simplify_eq.
    { by rewrite Hquiet in He. }
    { eexists. split; [done|]. left. by eexists. }
    eexists. split; [done|]. right. simpl. intros i entry Hi Hcreated.
    destruct (setupApiKeyProviders_run options env s)
      as [(e & He & Hfirst)
         | [(_ & _ & _ & err & s' & Hfirst & _)
           | (_ & _ & sa & arn1 & entries1 & s' & _ & Hattempts1 & Hfirst)]];
      rewrite Hfirst in Hrun1; simplify_eq.
    { simpl in Hi. apply list_elem_of_lookup_2, list_elem_of_singleton in Hi. by subst. }
    simpl in Hi.
    destruct (Attempts_effect _ _ _ _ _ _ Hattempts1) as (Hall & _).
    destruct (Forall2_lookup_r _ _ _ _ _ Hall Hi) as ([a p] & Hpair & _).
    destruct (Attempts_lookup _ _ _ _ _ _ Hattempts1 _ _ _ Hpair)
      as (si & entry' & si' & Hattempt1 & Hentry' & _ & _ & Hsub1).
    simplify_eq.
    destruct (Attempts_lookup _ _ _ _ _ _ Hattempts2 _ _ _ Hpair)
      as (ti & entry2 & ti' & Hattempt2 & -> & Hsub2 & Hclock2 & _).
    destruct (Attempt_effect _ _ _ _ _ _ _ Hattempt1) as (_ & _ & _ & Hheld & _).
    specialize (Hheld Hcreated).
    assert (OwnedIdentityProvider.name p ∈ apiKeyProviders ti) as Hin.
    { apply Hsub2. destruct Hbefore2 as (-> & _). by apply Hsub1. }
    assert (throws env (clock ti) = None) as Hcheck.
    { apply Hquiet. apply beforeProviders_clock in Hbefore2. lia. }
    inversion Hattempt1; subst; simpl in Hcreated; try discriminate.
    inversion Hattempt2; subst; simpl; by simplify_eq.
Qed.

(** C1 (the sources against their own test).  With encryption requested, no
    key ARN recorded in the project and a token vault that already reports a
    customer-managed key, [setupApiKeyProviders] never reads the vault: it
    creates a new key, points the vault at it and returns the new ARN. *)
Theorem vault_key_not_reused :
  tokenVault Scenarios.encryptedVaultState
  = Some (mkKmsConfiguration CustomerManagedKey
            (Some "arn:aws:kms:us-east-1:123:key/existing"))
  ∧ (setupApiKeyProviders Scenarios.optionsKms Scenarios.quietEnv
       Scenarios.encryptedVaultState).1
    = Normal (mkPreDeployIdentityResult [] false
                (Some "arn:aws:kms:us-east-1:123:key/new-key"))
  ∧ trace (setupApiKeyProviders Scenarios.optionsKms Scenarios.quietEnv
             Scenarios.encryptedVaultState).2
    = [CReadEnvFile "/tmp";
       CKmsCreateKey "AgentCore Identity encryption key for test-project" "test-project";
       CSetTokenVaultKmsKey "arn:aws:kms:us-east-1:123:key/new-key"].
Proof. split_and!; reflexivity. Qed.

(** The same at every input: with encryption requested and no key ARN recorded
    in the project, the first request after the environment file is read is a
    key creation, whatever the token vault holds. *)
Lemma key_created_whatever_the_vault_reports options env s :
  truthyBool (enableKmsEncryption options) = true →
  truthyString (AgentCoreProjectSpec.identityKmsKeyArn (projectSpec options)) = None →
  throws env (clock s) = None →
  ∃ rest,
    issued s (setupApiKeyProviders options env s).2
    = CReadEnvFile (configBaseDir options)
      :: CKmsCreateKey
           ("AgentCore Identity encryption key for "
              +:+ AgentCoreProjectSpec.name (projectSpec options))
           (AgentCoreProjectSpec.name (projectSpec options))
      :: rest.
Proof.
  intros Hrequested Harn Hread. unfold setupApiKeyProviders.
  erewrite bind_normal by (by apply perform_returns). cbv beta. simpl.
  unfold kmsRequested. rewrite Hrequested. simpl.
  set (s1 := record _ s). set (credentials := allCredentialsOf _ _).
  destruct (setupTokenVaultKms_creates env (region options) (projectSpec options) s1 Harn)
    as (rest & Htrace).
  destruct (setupTokenVaultKms_run env (region options) (projectSpec options) s1)
    as (result & s2 & Hrun & _). rewrite Hrun in Htrace. simpl in Htrace.
  erewrite bind_normal by exact Hrun.
  destruct (success result); simpl.
  - destruct (setupAllAgents_attempts env (projectSpec options) credentials
                (keyArn result) s2) as (entries & s' & -> & Hattempts).
    destruct (Attempts_effect _ _ _ _ _ _ Hattempts) as (_ & _ & calls & Htrace' & _).
    exists (rest ++ calls). apply issued_app. simpl.
    rewrite Htrace', Htrace. subst s1. simpl. by rewrite <- !app_assoc.
  - exists rest. apply issued_app. simpl. rewrite Htrace. subst s1. simpl.
    by rewrite <- !app_assoc.
Qed.

Lemma kms_failure_witness :
  List.filter
    (hasSecret
       (allCredentialsOf Scenarios.optionsKmsAB
          (envFileAt Scenarios.deniedSecretsEnv "/tmp")))
    (ownedApiKeyPairs (projectSpec Scenarios.optionsKmsAB))
  = [("A", Scenarios.cred1); ("B", Scenarios.cred2)]
  ∧ omap existenceCheck
      (issued Scenarios.freshState
         (setupApiKeyProviders Scenarios.optionsKmsAB Scenarios.secretEnv
            Scenarios.freshState).2)
    = ["Cred1"]
  ∧ ∃ err s',
      setupApiKeyProviders Scenarios.optionsKmsAB Scenarios.deniedSecretsEnv
        Scenarios.freshState
      = (Normal
           (mkPreDeployIdentityResult
              [ApiKeyProviderSetupResult.mk EmptyString "TokenVault" StatusError
                 (Some ("Failed to configure KMS: " +:+ interpolate err))]
              true None),
         s')
      ∧ Forall (λ c, isProviderCall c = false) (issued Scenarios.freshState s').
Proof.
  split; [reflexivity|]. split; [reflexivity|].
  apply (kms_failure_aborts_before_providers
           Scenarios.optionsKmsAB Scenarios.deniedSecretsEnv Scenarios.freshState).
  - reflexivity.
  - reflexivity.
  - vm_compute. left. left. eexists. reflexivity.
Defined.

(** C4 as stated fails in its last clause: a failure of the KMS step is not
    thrown to the caller, it is returned as the [TokenVault] entry. *)
Lemma kms_setup_failure_is_returned :
  kmsSetupFails (projectSpec Scenarios.optionsKmsAB) Scenarios.deniedSecretsEnv 1
  ∧ (setupApiKeyProviders Scenarios.optionsKmsAB Scenarios.deniedSecretsEnv
       Scenarios.freshState).1
    = Normal (tokenVaultFailure (Some "AccessDeniedException"))
  ∧ ¬ kms_setup_failure_is_thrown.
Proof.
  assert (kmsSetupFails (projectSpec Scenarios.optionsKmsAB)
            Scenarios.deniedSecretsEnv 1) as Hfails.
  { vm_compute. left. left. eexists. reflexivity. }
  split; [exact Hfails|]. split; [reflexivity|]. intros Hclaim.
  destruct (Hclaim Scenarios.optionsKmsAB Scenarios.deniedSecretsEnv
              Scenarios.freshState eq_refl eq_refl Hfails) as [e He].
  discriminate He.
Qed.

Lemma provider_failures_witness :
  map ApiKeyProviderSetupResult.status
    (match (setupApiKeyProviders Scenarios.optionsAB Scenarios.deniedSecretsEnv
              Scenarios.freshState).1 with
     | Normal r => results r
     | Abrupt _ => []
     end)
  = [StatusError; StatusCreated]
  ∧ omap existenceCheck
      (issued Scenarios.freshState
         (setupApiKeyProviders Scenarios.optionsAB Scenarios.deniedSecretsEnv
            Scenarios.freshState).2)
    = ["Cred1"; "Cred2"].
Proof.
  split; [reflexivity|].
  pose proof (proj1 (provider_failures_are_collected
                       Scenarios.optionsAB Scenarios.deniedSecretsEnv
                       Scenarios.freshState)) as H.
  set (run := setupApiKeyProviders Scenarios.optionsAB Scenarios.deniedSecretsEnv
                Scenarios.freshState) in *.
  vm_compute in run. subst run. cbv beta iota in H.
  destruct H as [(Hkms & _) | (_ & H & _)]; [discriminate Hkms|].
  vm_compute in H. vm_compute. exact H.
Defined.

Lemma hasErrors_witness :
  results
    (mkPreDeployIdentityResult
       [Scenarios.entryOf "A" "Cred1" StatusSkipped
          (Some "No CRED1_KEY found in agentcore/.env.local")]
       false None)
  = map skippedEntry (ownedApiKeyPairs Scenarios.projectA)
  ∧ hasErrors
      (mkPreDeployIdentityResult
         [Scenarios.entryOf "A" "Cred1" StatusSkipped
            (Some "No CRED1_KEY found in agentcore/.env.local")]
         false None)
    = false.
Proof.
  apply (proj2 (proj2 (hasErrors_iff_error_entry
                         Scenarios.optionsA Scenarios.quietEnv Scenarios.freshState
                         _ (record (CReadEnvFile "/tmp") Scenarios.freshState)
                         eq_refl))).
  - intros err. discriminate.
  - repeat constructor.
Defined.

(** C5 as stated fails: [Cred1] exists remotely, but its secret is missing
    from the environment file, so it is reported as [skipped]. *)
Lemma existing_provider_without_secret_is_skipped :
  "Cred1" ∈ apiKeyProviders Scenarios.provisionedState
  ∧ (setupApiKeyProviders Scenarios.optionsA Scenarios.quietEnv
       Scenarios.provisionedState).1
    = Normal
        (mkPreDeployIdentityResult
           [Scenarios.entryOf "A" "Cred1" StatusSkipped
              (Some "No CRED1_KEY found in agentcore/.env.local")]
           false None)
  ∧ ¬ existing_provider_always_reported_exists.
Proof.
  split; [by vm_compute|]. split; [reflexivity|].
  intros Hclaim.
  assert (ApiKeyProviderSetupResult.status
            (Scenarios.entryOf "A" "Cred1" StatusSkipped
               (Some "No CRED1_KEY found in agentcore/.env.local"))
          = StatusExists) as Hstatus; [|discriminate Hstatus].
  apply (Hclaim Scenarios.optionsA Scenarios.quietEnv Scenarios.provisionedState
           (mkPreDeployIdentityResult
              [Scenarios.entryOf "A" "Cred1" StatusSkipped
                 (Some "No CRED1_KEY found in agentcore/.env.local")]
              false None)
           (record (CReadEnvFile "/tmp") Scenarios.provisionedState)
           0 "A" Scenarios.cred1).
  - reflexivity.
  - reflexivity.
  - by vm_compute.
  - reflexivity.
Qed.

Lemma created_provider_witness :
  ∃ r2,
    (setupApiKeyProviders Scenarios.optionsA Scenarios.secretEnv
       (setupApiKeyProviders Scenarios.optionsA Scenarios.secretEnv
          Scenarios.freshState).2).1
    = Normal r2
    ∧ ((∃ err, r2 = tokenVaultFailure err)
       ∨ ∀ i entry,
           [Scenarios.entryOf "A" "Cred1" StatusCreated None] !! i = Some entry →
           ApiKeyProviderSetupResult.status entry = StatusCreated →
           results r2 !! i
           = Some (ApiKeyProviderSetupResult.mk
                     (ApiKeyProviderSetupResult.agentName entry)
                     (ApiKeyProviderSetupResult.providerName entry)
                     StatusExists None)).
Proof.
  refine (proj2 (proj2 (proj2
    (created_provider_exists_on_rerun Scenarios.optionsA Scenarios.secretEnv
       Scenarios.freshState
       (mkPreDeployIdentityResult
          [Scenarios.entryOf "A" "Cred1" StatusCreated None] false None)
       (setupApiKeyProviders Scenarios.optionsA Scenarios.secretEnv
          Scenarios.freshState).2
       _ _ _ _))) _).
  - vm_compute. reflexivity.
  - apply surjective_pairing.
  - intros t _. reflexivity.
Defined.

End Identity.

(** * [discoverDeployedTargets] and [destroyTarget]: the claims *)

Module DestroyFacts.
Import Destroy DestroySpec.

Lemma trace_record c s : trace (record c s) = trace s ++ [c].
Proof. reflexivity. Qed.

(** The loop of [discoverDeployedTargets]: one lookup per target, failures
    and missing stacks dropped. *)
Lemma discovery_loop env projectName targets :
  ∀ found s, ∃ s',
    forOf targets
      (λ target deployedTargets,
        tryCatch
          (stack ← findStack (AwsDeploymentTarget.region target) projectName
                     (AwsDeploymentTarget.name target);
           match stack with
           | Some stack => mret (deployedTargets ++ [mkDeployedTarget target stack])
           | None => mret deployedTargets
           end)
          (λ _, mret deployedTargets))
      found env s
    = (Normal (found ++ discovered env (clock s) projectName targets), s')
    ∧ trace s'
      = trace s
        ++ map (λ target,
                  CFindStack (AwsDeploymentTarget.region target) projectName
                    (AwsDeploymentTarget.name target))
             targets.
Proof.
  induction targets as [|target targets IH]; intros found s; simpl.
  { exists s. by rewrite !app_nil_r. }
  set (c := CFindStack _ _ _).
  destruct (IH (found ++ option_list (lookupAt env (clock s) projectName target))
              (record c s)) as (s' & Hloop & Htrace).
  rewrite clock_record, <- app_assoc in Hloop.
  rewrite trace_record, <- app_assoc in Htrace.
  exists s'. split; [|exact Htrace]. rewrite <- Hloop.
  apply bind_normal. unfold tryCatch, lookupAt.
  destruct (throws env (clock s)) as [e|] eqn:Hthrow.
  - erewrite bind_abrupt by (by apply perform_throws). simpl. by rewrite app_nil_r.
  - erewrite bind_normal by (by apply perform_returns). simpl.
    destruct (stackRegistry env _ _ _); simpl; [done|]. by rewrite app_nil_r.
Qed.

Lemma discovered_found env projectName targets :
  ∀ t deployed, deployed ∈ discovered env t projectName targets →
    target deployed ∈ targets
    ∧ stackRegistry env (AwsDeploymentTarget.region (target deployed)) projectName
        (AwsDeploymentTarget.name (target deployed))
      = Some (stack deployed).
Proof.
  induction targets as [|first targets IH]; intros t deployed; simpl.
  { intros []%elem_of_nil. }
  intros [Hin|Hin]%elem_of_app.
  - unfold lookupAt in Hin. destruct (throws env t); [by apply elem_of_nil in Hin|].
    destruct (stackRegistry env _ _ _) as [found|] eqn:Hfound; simpl in Hin;
      [|by apply elem_of_nil in Hin].
    apply list_elem_of_singleton in Hin as ->. simpl. split; [by left|done].
  - destruct (IH _ _ Hin) as [Htarget Hstack]. split; [by right|done].
Qed.

Lemma omap_findStackCall projectName targets :
  omap findStackCall
    (map (λ target,
            CFindStack (AwsDeploymentTarget.region target) projectName
              (AwsDeploymentTarget.name target))
       targets)
  = map (λ target,
           (AwsDeploymentTarget.region target, projectName,
            AwsDeploymentTarget.name target))
      targets.
Proof.
  induction targets as [|target targets IH]; [done|].
  change (map ?f (target :: targets)) with (f target :: map f targets).
  rewrite <- IH. reflexivity.
Qed.

(** The four ways the cleanup after a successful destroy can go. *)
Lemma cleanupDeployedState_run options env s :
  let name := AwsDeploymentTarget.name (target (DestroyTargetOptions.target options)) in
  let cleaned := mkDeployedState (delete name (targets (deployedStateFile s))) in
  (is_Some (throws env (clock s))
   ∧ cleanupDeployedState options env s = (Normal tt, record CReadDeployedState s))
  ∨ (throws env (clock s) = None
     ∧ truthyMember (targets (deployedStateFile s)) name = false
     ∧ cleanupDeployedState options env s = (Normal tt, record CReadDeployedState s))
  ∨ (throws env (clock s) = None
     ∧ truthyMember (targets (deployedStateFile s)) name = true
     ∧ is_Some (throws env (S (clock s)))
     ∧ cleanupDeployedState options env s
       = (Normal tt,
          record (CWriteDeployedState cleaned)
            (withDeployedState
               (interruptedWrite env (S (clock s)) (deployedStateFile s) cleaned)
               (record CReadDeployedState s))))
  ∨ (throws env (clock s) = None
     ∧ truthyMember (targets (deployedStateFile s)) name = true
     ∧ throws env (S (clock s)) = None
     ∧ cleanupDeployedState options env s
       = (Normal tt,
          record (CWriteDeployedState cleaned)
            (withDeployedState cleaned (record CReadDeployedState s)))).
Proof.
  intros name cleaned. unfold cleanupDeployedState, tryCatch.
  destruct (throws env (clock s)) as [e|] eqn:Hread.
  { left. split; [by eexists|]. by erewrite bind_abrupt by (by apply perform_throws). }
  right. erewrite bind_normal by (by apply perform_returns). simpl. fold name.
  destruct (truthyMember (targets (deployedStateFile s)) name) eqn:Hentry.
  2: { left. done. }
  right. fold cleaned. unfold writeDeployedState. rewrite clock_record.
  destruct (throws env (S (clock s))) as [e|] eqn:Hwrite.
  - left. split; [done|]. split; [done|]. split; [by eexists|]. done.
  - right. split; [done|]. split; [done|]. split; [done|]. done.
Qed.

(** An own member is found by the property read; without one the read finds
    what the object inherits. *)
Lemma truthyMember_false {V} (members : gmap string V) name :
  truthyMember members name = false
  ↔ members !! name = None ∧ name ∉ objectPrototypeMembers.
Proof.
  unfold truthyMember. rewrite orb_false_iff, !bool_decide_eq_false.
  by rewrite <- eq_None_not_Some.
Qed.

Lemma truthyMember_true {V} (members : gmap string V) name :
  truthyMember members name = true
  ↔ is_Some (members !! name) ∨ name ∈ objectPrototypeMembers.
Proof.
  unfold truthyMember. by rewrite orb_true_iff, !bool_decide_eq_true.
Qed.

(** How far [destroyTarget] gets before the cleanup. *)
Lemma destroyTarget_run options env s :
  let dir := DestroyTargetOptions.cdkProjectDir options in
  let selection :=
    mkStackSelector PATTERN_MUST_MATCH
      [stackName (stack (DestroyTargetOptions.target options))] in
  (destroyTarget options env s = (Abrupt cdkProjectNotFound, s)
   ∧ dir ∉ directories env)
  ∨ (dir ∈ directories env
     ∧ ∃ e, throws env (clock s) = Some e
        ∧ destroyTarget options env s = (Abrupt e, record (CToolkitInitialize dir) s))
  ∨ (dir ∈ directories env
     ∧ throws env (clock s) = None
     ∧ ∃ e, throws env (S (clock s)) = Some e
        ∧ destroyTarget options env s
          = (Abrupt e,
             record (CToolkitDestroy selection) (record (CToolkitInitialize dir) s)))
  ∨ (dir ∈ directories env
     ∧ throws env (clock s) = None
     ∧ throws env (S (clock s)) = None
     ∧ destroyTarget options env s
       = cleanupDeployedState options env
           (record (CToolkitDestroy selection) (record (CToolkitInitialize dir) s))).
Proof.
  intros dir selection. unfold destroyTarget.
  erewrite bind_normal by reflexivity. fold dir.
  case_bool_decide as Hdir; simpl; [right|by left].
  destruct (throws env (clock s)) as [e|] eqn:Hinit.
  { left. split; [done|]. exists e. split; [done|].
    by erewrite bind_abrupt by (by apply perform_throws). }
  right. erewrite bind_normal by (by apply perform_returns). simpl.
  destruct (throws env (S (clock s))) as [e|] eqn:Hdestroy.
  { left. split; [done|]. split; [done|]. exists e. split; [done|].
    by erewrite bind_abrupt by (apply perform_throws; by rewrite clock_record). }
  right. split; [done|]. split; [done|]. split; [done|].
  by erewrite bind_normal by (apply perform_returns; by rewrite clock_record).
Qed.

Lemma issued_self s : issued s s = [].
Proof. unfold issued, clock. apply drop_all. Qed.

(** Every way [destroyTarget] can go, with the state it ends in. *)
Ltac destroy_cases options env s :=
  let Hrun := fresh "Hrun" in
  let Hclean := fresh "Hclean" in
  pose proof (destroyTarget_run options env s) as Hrun; cbv zeta in Hrun;
  destruct Hrun
    as [(Hrun & ?Hdir)
       | [(?Hdir & ?e & ?Hinit & Hrun)
         | [(?Hdir & ?Hinit & ?e & ?Hdestroy & Hrun)
           | (?Hdir & ?Hinit & ?Hdestroy & Hrun)]]];
  [ | |
    | match type of Hrun with
      | _ = cleanupDeployedState _ _ ?s2 =>
          pose proof (cleanupDeployedState_run options env s2) as Hclean;
          cbv zeta in Hclean; rewrite !clock_record in Hclean;
          destruct Hclean
            as [(?Hread & Hclean)
               | [(?Hread & ?Hentry & Hclean)
                 | [(?Hread & ?Hentry & ?Hwrite & Hclean)
                   | (?Hread & ?Hentry & ?Hwrite & Hclean)]]];
          rewrite Hclean in Hrun; clear Hclean
      end ];
  rewrite Hrun; clear Hrun.

Ltac issued_calls :=
  rewrite ?issued_self;
  repeat match goal with
    | |- context [issued ?s ?s'] =>
        rewrite (issued_app s s' _ ltac:(simpl; rewrite <- ?app_assoc; reflexivity))
    end;
  cbn [app].

End DestroyFacts.

Section DestroyClaims.
Import Destroy DestroySpec DestroyFacts.

(** C6.  Once the project and its targets are read, discovery never fails: it
    looks every configured target up, in order, whatever the earlier lookups
    did; a lookup that throws is swallowed and its target left out, and the
    result lists exactly the targets whose lookup found a stack. *)
Theorem discovery_skips_unreachable_targets configBaseDir env s :
  throws env (clock s) = None →
  throws env (S (clock s)) = None →
  ∃ s',
    discoverDeployedTargets configBaseDir env s
    = (Normal
         (mkDiscoverDeployedResult
            (AgentCoreProjectSpec.name (projectSpecAt env (truthyString configBaseDir)))
            (discovered env (2 + clock s)
               (AgentCoreProjectSpec.name (projectSpecAt env (truthyString configBaseDir)))
               (awsTargetsAt env (truthyString configBaseDir)))),
       s')
    ∧ omap findStackCall (issued s s')
      = map (λ target,
               (AwsDeploymentTarget.region target,
                AgentCoreProjectSpec.name (projectSpecAt env (truthyString configBaseDir)),
                AwsDeploymentTarget.name target))
          (awsTargetsAt env (truthyString configBaseDir))
    ∧ Forall (λ deployed,
          target deployed ∈ awsTargetsAt env (truthyString configBaseDir)
          ∧ stackRegistry env (AwsDeploymentTarget.region (target deployed))
              (AgentCoreProjectSpec.name (projectSpecAt env (truthyString configBaseDir)))
              (AwsDeploymentTarget.name (target deployed))
            = Some (stack deployed))
        (discovered env (2 + clock s)
           (AgentCoreProjectSpec.name (projectSpecAt env (truthyString configBaseDir)))
           (awsTargetsAt env (truthyString configBaseDir))).
Proof.
  intros Hspec Htargets. unfold discoverDeployedTargets.
  set (baseDir := truthyString configBaseDir).
  erewrite bind_normal by (by apply perform_returns). simpl.
  erewrite bind_normal by (apply perform_returns; by rewrite clock_record). simpl.
  set (s2 := record _ (record _ s)).
  destruct (discovery_loop env (AgentCoreProjectSpec.name (projectSpecAt env baseDir))
              (awsTargetsAt env baseDir) [] s2) as (s' & Hloop & Htrace).
  exists s'. split_and!.
  - erewrite bind_normal by exact Hloop. subst s2. by rewrite !clock_record.
  - rewrite (issued_app s s'
               ([CReadProjectSpec baseDir; CReadAWSDeploymentTargets baseDir]
                  ++ map (λ target,
                            CFindStack (AwsDeploymentTarget.region target)
                              (AgentCoreProjectSpec.name (projectSpecAt env baseDir))
                              (AwsDeploymentTarget.name target))
                       (awsTargetsAt env baseDir))).
    + rewrite omap_app. simpl. apply omap_findStackCall.
    + rewrite Htrace. subst s2. simpl. by rewrite <- !app_assoc.
  - apply Forall_forall. intros deployed Hin. by eapply discovered_found.
Qed.

Lemma discovery_witness :
  ∃ s',
    discoverDeployedTargets None unreadableEnv prodState
    = (Normal
         (mkDiscoverDeployedResult "proj"
            [mkDeployedTarget (AwsDeploymentTarget.mk "staging" "eu-west-1" "123")
               stagingStack]),
       s')
    ∧ omap findStackCall (issued prodState s')
      = [("us-east-1", "proj", "prod"); ("eu-west-1", "proj", "staging")]
    ∧ Forall (λ deployed,
          target deployed ∈ awsTargetsAt unreadableEnv None
          ∧ stackRegistry unreadableEnv (AwsDeploymentTarget.region (target deployed))
              "proj" (AwsDeploymentTarget.name (target deployed))
            = Some (stack deployed))
        [mkDeployedTarget (AwsDeploymentTarget.mk "staging" "eu-west-1" "123")
           stagingStack].
Proof.
  apply (discovery_skips_unreachable_targets None unreadableEnv prodState); reflexivity.
Defined.

(** C7.  Whenever [destroyTarget] reaches the toolkit's destroy operation, the
    stack selection it passes is the must-match strategy with one pattern, the
    discovered stack's [stackName]; and it does reach it once the project
    directory exists and the toolkit initialises. *)
Theorem destroy_selects_exact_stack options env s :
  (∀ selection,
     CToolkitDestroy selection ∈ issued s (destroyTarget options env s).2 →
     selection
     = mkStackSelector PATTERN_MUST_MATCH
         [stackName (stack (DestroyTargetOptions.target options))])
  ∧ (DestroyTargetOptions.cdkProjectDir options ∈ directories env →
     throws env (clock s) = None →
     omap (λ c, match c with CToolkitDestroy selection => Some selection | _ => None end)
       (issued s (destroyTarget options env s).2)
     = [mkStackSelector PATTERN_MUST_MATCH
          [stackName (stack (DestroyTargetOptions.target options))]]).
Proof.
  split.
  - intros selection. destroy_cases options env s; simpl; issued_calls;
      rewrite ?elem_of_cons, elem_of_nil; intros Hin;
      repeat (destruct Hin as [Hin|Hin]; simplify_eq); done.
  - intros Hpresent Hinitialised.
    destroy_cases options env s; simpl; issued_calls; simplify_eq; done.
Qed.

Lemma destroy_selection_witness :
  omap (λ c, match c with CToolkitDestroy selection => Some selection | _ => None end)
    (issued prodState (destroyTarget prodOptions diskEnv prodState).2)
  = [mkStackSelector PATTERN_MUST_MATCH ["AgentCore-proj-prod"]].
Proof.
  apply (proj2 (destroy_selects_exact_stack prodOptions diskEnv prodState)).
  - by vm_compute.
  - reflexivity.
Defined.

(** C2 as stated fails: the destroy succeeds, the read of the deployed-state
    file then fails, the failure is swallowed, and the entry of the destroyed
    target is still in the file. *)
Lemma stale_entry_survives_failed_cleanup :
  (destroyTarget prodOptions unreadableEnv prodState).1 = Normal tt
  ∧ targets (deployedStateFile (destroyTarget prodOptions unreadableEnv prodState).2)
      !! "prod"
    = Some prodStack
  ∧ ¬ entry_absent_after_every_successful_destroy.
Proof.
  split; [reflexivity|]. split; [reflexivity|]. intros Hclaim.
  specialize (Hclaim prodOptions unreadableEnv prodState
                (destroyTarget prodOptions unreadableEnv prodState).2).
  assert (targets (deployedStateFile (destroyTarget prodOptions unreadableEnv prodState).2)
            !! "prod" = None) as Habsent.
  { apply Hclaim. vm_compute. reflexivity. }
  vm_compute in Habsent. discriminate Habsent.
Qed.

(** C2 (amended).  Without the CDK project directory [destroyTarget] throws
    its descriptive error before issuing any call.  Once the toolkit has
    initialised and destroyed the stack, [destroyTarget] returns normally
    whatever the cleanup does: the entry of the target is absent afterwards when
    the cleanup's read and write go through, and when the read fails no write
    is attempted and the deployed-state file is left as it was. *)
Theorem destroy_needs_project_and_swallows_cleanup options env s :
  (DestroyTargetOptions.cdkProjectDir options ∉ directories env →
   destroyTarget options env s
   = (Abrupt (newError "CDK project not found. Cannot destroy without CDK project."), s))
  ∧ (DestroyTargetOptions.cdkProjectDir options ∈ directories env →
     throws env (clock s) = None →
     throws env (S (clock s)) = None →
     ∃ s',
       destroyTarget options env s = (Normal tt, s')
       ∧ (throws env (2 + clock s) = None →
          throws env (3 + clock s) = None →
          targets (deployedStateFile s')
            !! AwsDeploymentTarget.name (target (DestroyTargetOptions.target options))
          = None)
       ∧ (is_Some (throws env (2 + clock s)) →
          deployedStateFile s' = deployedStateFile s
          ∧ List.filter isWrite (issued s s') = [])).
Proof.
  split.
  - intros Hmissing. destroy_cases options env s; done.
  - intros Hpresent Hinitialised Hdestroyed.
    destroy_cases options env s; simplify_eq; try done; simpl in *.
    + eexists. split; [done|]. split.
      * intros Hr _. rewrite Hr in Hread. by destruct Hread.
      * intros _. split; [done|]. by issued_calls.
    + eexists. split; [done|]. split.
      * intros _ _. simpl. by apply truthyMember_false in Hentry as [? _].
      * intros [? ?]. congruence.
    + eexists. split; [done|]. split.
      * intros _ Hw. rewrite Hw in Hwrite. by destruct Hwrite.
      * intros [? ?]. congruence.
    + eexists. split; [done|]. split.
      * intros _ _. simpl. apply lookup_delete_eq.
      * intros [? ?]. congruence.
Qed.

Lemma destroy_cleanup_witness :
  ∃ s',
    destroyTarget prodOptions diskEnv prodState = (Normal tt, s')
    ∧ (throws diskEnv 2 = None → throws diskEnv 3 = None →
       targets (deployedStateFile s') !! "prod" = None)
    ∧ (is_Some (throws diskEnv 2) →
       deployedStateFile s' = deployedStateFile prodState
       ∧ List.filter isWrite (issued prodState s') = []).
Proof.
  apply (proj2 (destroy_needs_project_and_swallows_cleanup prodOptions diskEnv prodState)).
  - by vm_compute.
  - reflexivity.
  - reflexivity.
Defined.




End DestroyClaims.

(** * Bind listings: the claim *)

Section Listings.
Import Tui.

Lemma notOwnedBy_spec targetAgent r :
  notOwnedBy targetAgent r = true ↔ ownerAgent r ≠ targetAgent.
Proof.
  unfold notOwnedBy. rewrite negb_true_iff. apply String.eqb_neq.
Qed.

Lemma toItem_inj r1 r2 : toItem r1 = toItem r2 → r1 = r2.
Proof.
  destruct r1 as [name1 owner1], r2 as [name2 owner2]. unfold toItem. simpl.
  intros Hitem. injection Hitem as Hname _ Howner.
  change (owner1 = owner2) in Howner. by subst.
Qed.

Lemma offered_items targetAgent (owned : list OwnedResource) item :
  item ∈ map toItem (List.filter (notOwnedBy targetAgent) owned)
  ↔ ∃ r, r ∈ owned ∧ ownerAgent r ≠ targetAgent ∧ item = toItem r.
Proof.
  rewrite list_elem_of_In, in_map_iff. split.
  - intros (r & <- & [Hin Howner]%filter_In). exists r.
    by rewrite list_elem_of_In, <- notOwnedBy_spec.
  - intros (r & Hin & Howner & ->). exists r. split; [done|].
    apply filter_In. by rewrite <- list_elem_of_In, notOwnedBy_spec.
Qed.

(** C9.  For every target agent, both bind listings offer exactly the
    resources owned by some other agent: each offered item stands for a
    resource whose [ownerAgent] differs from the target agent, and no resource
    owned by the target agent is among the offered items. *)
Theorem owner_is_never_offered_its_own_resources targetAgent
    (ownedIdentities ownedMemories : list OwnedResource) :
  (∀ item,
     item ∈ identityItems (IBindSelectIdentity targetAgent) ownedIdentities
     ↔ ∃ r, r ∈ ownedIdentities ∧ ownerAgent r ≠ targetAgent ∧ item = toItem r)
  ∧ (∀ item,
       item ∈ memoryItems (MBindSelectMemory targetAgent) ownedMemories
       ↔ ∃ r, r ∈ ownedMemories ∧ ownerAgent r ≠ targetAgent ∧ item = toItem r)
  ∧ (∀ r, ownerAgent r = targetAgent →
       (toItem r ∉ identityItems (IBindSelectIdentity targetAgent) ownedIdentities)
       ∧ (toItem r ∉ memoryItems (MBindSelectMemory targetAgent) ownedMemories)).
Proof.
  split_and!.
  - intros item. apply offered_items.
  - intros item. apply offered_items.
  - intros r Howner. split.
    + intros (r' & _ & Hother & ->%toItem_inj)%offered_items. done.
    + intros (r' & _ & Hother & ->%toItem_inj)%offered_items. done.
Qed.

Lemma listing_witness :
  (toItem (mkOwnedResource "Cred1" "A")
   ∉ identityItems (IBindSelectIdentity "A")
       [mkOwnedResource "Cred1" "A"; mkOwnedResource "Cred2" "B"])
  ∧ (toItem (mkOwnedResource "M" "A")
     ∉ memoryItems (MBindSelectMemory "A")
         [mkOwnedResource "M" "A"; mkOwnedResource "N" "B"]).
Proof.
  split.
  - apply (proj2 (proj2 (owner_is_never_offered_its_own_resources "A"
                           [mkOwnedResource "Cred1" "A"; mkOwnedResource "Cred2" "B"]
                           [mkOwnedResource "M" "A"; mkOwnedResource "N" "B"]))
             (mkOwnedResource "Cred1" "A")).
    reflexivity.
  - apply (proj2 (proj2 (owner_is_never_offered_its_own_resources "A"
                           [mkOwnedResource "Cred1" "A"; mkOwnedResource "Cred2" "B"]
                           [mkOwnedResource "M" "A"; mkOwnedResource "N" "B"]))
             (mkOwnedResource "M" "A")).
    reflexivity.
Defined.

End Listings.

(** * Worked scenarios *)

Section Worked.
Import PreDeployIdentity Scenarios.

(** Specification, section 8: agent [A] owns [Cred1], the secrets file lacks
    [CRED1_KEY]. *)
Example missing_secret_scenario :
  (setupApiKeyProviders optionsA quietEnv freshState).1
  = Normal
      (mkPreDeployIdentityResult
         [entryOf "A" "Cred1" StatusSkipped
            (Some "No CRED1_KEY found in agentcore/.env.local")]
         false None).
Proof. reflexivity. Qed.

Example first_run_creates :
  (setupApiKeyProviders optionsA secretEnv freshState).1
  = Normal (mkPreDeployIdentityResult [entryOf "A" "Cred1" StatusCreated None] false None)
  ∧ trace (setupApiKeyProviders optionsA secretEnv freshState).2
    = [CReadEnvFile "/tmp"; CApiKeyProviderExists "Cred1";
       CCreateApiKeyProvider "Cred1" "secret"].
Proof. split; reflexivity. Qed.

Example second_run_finds_it :
  (setupApiKeyProviders optionsA secretEnv
     (setupApiKeyProviders optionsA secretEnv freshState).2).1
  = Normal (mkPreDeployIdentityResult [entryOf "A" "Cred1" StatusExists None] false None)
  ∧ issued (setupApiKeyProviders optionsA secretEnv freshState).2
      (setupApiKeyProviders optionsA secretEnv
         (setupApiKeyProviders optionsA secretEnv freshState).2).2
    = [CReadEnvFile "/tmp"; CApiKeyProviderExists "Cred1"].
Proof. split; reflexivity. Qed.

Example one_failure_does_not_stop_the_loop :
  (setupApiKeyProviders optionsAB deniedSecretsEnv freshState).1
  = Normal
      (mkPreDeployIdentityResult
         [entryOf "A" "Cred1" StatusError (Some "AccessDeniedException");
          entryOf "B" "Cred2" StatusCreated None]
         true None).
Proof. reflexivity. Qed.

(** A key ARN recorded in the project is reused: no key is created. *)
Example recorded_key_is_reused :
  (setupApiKeyProviders
     (mkSetupApiKeyProvidersOptions
        (AgentCoreProjectSpec.mk "test-project" []
           (Some "arn:aws:kms:us-east-1:123:key/recorded"))
        "/tmp" "us-east-1" None None)
     quietEnv freshState).1
  = Normal (mkPreDeployIdentityResult [] false
              (Some "arn:aws:kms:us-east-1:123:key/recorded"))
  ∧ trace (setupApiKeyProviders
             (mkSetupApiKeyProvidersOptions
                (AgentCoreProjectSpec.mk "test-project" []
                   (Some "arn:aws:kms:us-east-1:123:key/recorded"))
                "/tmp" "us-east-1" None None)
             quietEnv freshState).2
    = [CReadEnvFile "/tmp";
       CSetTokenVaultKmsKey "arn:aws:kms:us-east-1:123:key/recorded"].
Proof. split; reflexivity. Qed.

Example denied_key_creation :
  (setupApiKeyProviders optionsKms deniedEnv freshState).1
  = Normal
      (mkPreDeployIdentityResult
         [entryOf EmptyString "TokenVault" StatusError
            (Some "Failed to configure KMS: AccessDeniedException")]
         true None).
Proof. reflexivity. Qed.

Example destroy_removes_the_entry :
  Destroy.destroyTarget DestroySpec.prodOptions DestroySpec.diskEnv DestroySpec.prodState
  = (Normal tt,
     mkState ∅ None
       (mkDeployedState {["staging" := DestroySpec.stagingStack]})
       [CToolkitInitialize "/work/agentcore/cdk";
        CToolkitDestroy (mkStackSelector PATTERN_MUST_MATCH ["AgentCore-proj-prod"]);
        CReadDeployedState;
        CWriteDeployedState (mkDeployedState {["staging" := DestroySpec.stagingStack]})]).
Proof. vm_compute. reflexivity. Qed.

Example destroy_without_project :
  Destroy.destroyTarget DestroySpec.prodOptions quietEnv DestroySpec.prodState
  = (Abrupt (newError "CDK project not found. Cannot destroy without CDK project."),
     DestroySpec.prodState).
Proof. reflexivity. Qed.

End Worked.

(** * Further properties of [pre-deploy-identity.ts] *)

Module IdentityQueryFacts.
Import PreDeployIdentity IdentitySpec IdentityFacts IdentityQueries.

Lemma ownedApiKeyProviders_filter identityProviders :
  ownedApiKeyProviders identityProviders
  = List.filter isApiKeyCredentialProvider (ownedProviders identityProviders).
Proof.
  induction identityProviders as [|p rest IH]; [done|].
  destruct p as [o|]; simpl; [|done].
  destruct (isApiKeyCredentialProvider o); simpl; by rewrite <- IH.
Qed.

Lemma existsb_isOwnedApiKeyProvider identityProviders :
  existsb isOwnedApiKeyProvider identityProviders = false
  ↔ ownedApiKeyProviders identityProviders = [].
Proof.
  induction identityProviders as [|p rest IH]; [done|].
  destruct p as [o|]; simpl; [|done].
  destruct (isApiKeyCredentialProvider o); simpl; [|done]. split; discriminate.
Qed.

Lemma hasOwnedIdentityApiProviders_pairs projectSpec :
  hasOwnedIdentityApiProviders projectSpec = false ↔ ownedApiKeyPairs projectSpec = [].
Proof.
  unfold hasOwnedIdentityApiProviders, ownedApiKeyPairs.
  induction (AgentCoreProjectSpec.agents projectSpec) as [|agent agents IH]; [done|].
  simpl. rewrite orb_false_iff, IH, existsb_isOwnedApiKeyProvider.
  unfold agentApiKeyPairs. rewrite <- ownedApiKeyProviders_filter.
  split.
  - intros [-> ->]. done.
  - intros [Hfirst Hrest]%app_eq_nil. split; [|done].
    by destruct (ownedApiKeyProviders _).
Qed.





(** What a chain of attempts leaves alone. *)
Lemma Attempts_frame env credentials s pairs entries s' :
  Attempts env credentials s pairs entries s' →
  tokenVault s' = tokenVault s
  ∧ deployedStateFile s' = deployedStateFile s
  ∧ ∃ calls, trace s' = trace s ++ calls
             ∧ Forall (λ c, isProviderCall c = true) calls.
Proof.
  induction 1 as [s|s a p entry s1 pairs entries s2 Hfirst Hrest IH].
  { split_and!; [done..|]. exists []. by rewrite app_nil_r. }
  destruct IH as (Hv & Hd & calls & Htrace & Hcalls).
  assert (tokenVault s1 = tokenVault s ∧ deployedStateFile s1 = deployedStateFile s
          ∧ ∃ first, trace s1 = trace s ++ first
                     ∧ Forall (λ c, isProviderCall c = true) first)
    as (Hv1 & Hd1 & first & Htrace1 & Hfirst').
  { inversion Hfirst; subst; (split; [done|]); (split; [done|]).
    - exists []. by rewrite app_nil_r.
    - eexists [_]. split; [done|]. by repeat constructor.
    - eexists [_]. split; [done|]. by repeat constructor.
    - eexists [_; _]. split; [simpl; by rewrite <- app_assoc|]. by repeat constructor.
    - eexists [_; _]. split; [simpl; by rewrite <- app_assoc|]. by repeat constructor.
    - eexists [_; _]. split; [simpl; by rewrite <- app_assoc|]. by repeat constructor. }
  split_and!; [congruence..|]. exists (first ++ calls). split.
  - by rewrite Htrace, Htrace1, app_assoc.
  - by apply Forall_app.
Qed.

End IdentityQueryFacts.

Section IdentityQueries.
Import PreDeployIdentity IdentitySpec IdentityFacts IdentityQueries IdentityQueryFacts.

(** X1.  [hasOwnedIdentityApiProviders] tells whether provisioning has
    anything to do: a run that gets past the KMS step reports no entry exactly
    when it answers false, and then the run has issued no existence check and
    no creation request. *)
Theorem nothing_to_provision_iff_no_owned_api_key_provider options env s r s' :
  setupApiKeyProviders options env s = (Normal r, s') →
  (∀ err, r ≠ tokenVaultFailure err) →
  (results r = [] ↔ hasOwnedIdentityApiProviders (projectSpec options) = false)
  ∧ (hasOwnedIdentityApiProviders (projectSpec options) = false →
     Forall (λ c, isProviderCall c = false) (issued s s')).
Proof.
  intros Hrun Hloop.
  destruct (setupApiKeyProviders_run options env s)
    as [(e & He & Hrun')
       | [(_ & _ & _ & err & s1 & Hrun' & _)
         | (_ & _ & s1 & arn & entries & s2 & Hbefore & Hattempts & Hrun')]];
    rewrite Hrun' in Hrun; simplify_eq.
  { by destruct (Hloop err). }
  simpl. rewrite hasOwnedIdentityApiProviders_pairs.
  destruct (Attempts_effect _ _ _ _ _ _ Hattempts) as (Hall & _).
  split.
  - split.
    + intros ->. by apply Forall2_nil_inv_r in Hall.
    + intros Hnone. rewrite Hnone in Hall. by apply Forall2_nil_inv_l in Hall.
  - intros Hnone. rewrite Hnone in Hattempts. inversion Hattempts; subst.
    destruct Hbefore as (_ & _ & calls & Htrace & Hcalls).
    by rewrite (issued_app _ _ _ Htrace).
Qed.

Lemma nothing_to_provision_witness :
  (results (mkPreDeployIdentityResult [] false None) = []
   ↔ hasOwnedIdentityApiProviders (projectSpec Scenarios.optionsKms) = false)
  ∧ (hasOwnedIdentityApiProviders (projectSpec Scenarios.optionsKms) = false →
     Forall (λ c, isProviderCall c = false)
       (issued Scenarios.freshState
          (record (CReadEnvFile "/tmp") Scenarios.freshState))).
Proof.
  apply (nothing_to_provision_iff_no_owned_api_key_provider
           (mkSetupApiKeyProvidersOptions (projectSpec Scenarios.optionsKms)
              "/tmp" "us-east-1" None None)
           Scenarios.quietEnv Scenarios.freshState).
  - reflexivity.
  - intros err. discriminate.
Defined.





End IdentityQueries.

Module KmsFacts.
Import PreDeployIdentity IdentitySpec IdentityFacts IdentityQueries IdentityQueryFacts.

Lemma filter_isKmsCall_providers calls :
  Forall (λ c, isProviderCall c = true) calls → List.filter isKmsCall calls = [].
Proof.
  induction 1 as [|c calls Hc _ IH]; [done|]. simpl. rewrite IH.
  by destruct c.
Qed.

(** The KMS step when nothing fails. *)
Lemma setupTokenVaultKms_succeeds env region projectSpec s :
  ¬ kmsSetupFails projectSpec env (clock s) →
  ∃ arn s1 calls,
    setupTokenVaultKms region projectSpec env s
    = (Normal (mkOpResult true (Some arn) None), s1)
    ∧ tokenVault s1 = Some (mkKmsConfiguration CustomerManagedKey (Some arn))
    ∧ trace s1 = trace s ++ calls
    ∧ match truthyString (AgentCoreProjectSpec.identityKmsKeyArn projectSpec) with
      | Some recorded => arn = recorded ∧ calls = [CSetTokenVaultKmsKey arn]
      | None =>
          truthyString (KeyMetadata (kmsCreateKeyResponse env (clock s)) ≫= Arn)
          = Some arn
          ∧ calls
            = [CKmsCreateKey
                 ("AgentCore Identity encryption key for "
                    +:+ AgentCoreProjectSpec.name projectSpec)
                 (AgentCoreProjectSpec.name projectSpec);
               CSetTokenVaultKmsKey arn]
      end.
Proof.
  unfold kmsSetupFails, keyCreationFails, vaultReconfigurationFails,
    setupTokenVaultKms, tryCatch, configureTokenVault.
  destruct (truthyString (AgentCoreProjectSpec.identityKmsKeyArn projectSpec))
    as [recorded|] eqn:Hrecorded; intros Hok.
  - destruct (throws env (clock s)) eqn:Hthrow; [destruct Hok; left; by eexists|].
    destruct (rejects env (clock s)) eqn:Hreject; [destruct Hok; right; by eexists|].
    erewrite bind_normal by (by apply perform_returns). cbv beta. rewrite Hreject. simpl.
    eexists _, _, _. split_and!; done.
  - destruct (throws env (clock s)) eqn:Hthrow; [destruct Hok; left; left; by eexists|].
    destruct (truthyString (KeyMetadata (kmsCreateKeyResponse env (clock s)) ≫= Arn))
      as [arn|] eqn:Hkey; [|destruct Hok; left; by right].
    destruct (throws env (S (clock s))) eqn:Hthrow';
      [destruct Hok; right; left; by eexists|].
    destruct (rejects env (S (clock s))) eqn:Hreject;
      [destruct Hok; right; right; by eexists|].
    erewrite bind_normal by (by apply perform_returns). cbv beta. simpl. rewrite Hkey.
    erewrite bind_normal by (apply perform_returns; by rewrite clock_record).
    cbv beta. rewrite clock_record, Hreject. simpl.
    eexists _, _, _. split; [reflexivity|]. split; [done|]. split; [|done].
    simpl. by rewrite <- app_assoc.
Qed.

Lemma createsAreChecked_before credentials calls :
  Forall (λ c, isProviderCall c = false) calls → createsAreChecked credentials [] calls.
Proof.
  intros Hcalls i name apiKey Hi.
  apply list_elem_of_lookup_2 in Hi.
  by apply (proj1 (Forall_forall _ _) Hcalls) in Hi.
Qed.

Lemma createsAreChecked_app credentials pairs calls pairs' calls' :
  createsAreChecked credentials pairs calls →
  createsAreChecked credentials pairs' calls' →
  createsAreChecked credentials (pairs ++ pairs') (calls ++ calls').
Proof.
  intros H1 H2 i name apiKey Hi.
  apply lookup_app_Some in Hi as [Hi|[Hlen Hi]].
  - destruct (H1 _ _ _ Hi) as (j & -> & Hj & pair & Hin & Hname & Hsecret).
    exists j. split; [done|]. split; [by apply lookup_app_l_Some|].
    exists pair. split; [|done]. apply elem_of_app. by left.
  - destruct (H2 _ _ _ Hi) as (j & Hij & Hj & pair & Hin & Hname & Hsecret).
    exists (length calls + j). split; [lia|]. split.
    + rewrite lookup_app_r by lia. by replace (length calls + j - length calls) with j by lia.
    + exists pair. split; [|done]. apply elem_of_app. by right.
Qed.

Lemma Attempt_createsAreChecked env credentials agentName provider s entry s' :
  Attempt env credentials agentName provider s entry s' →
  ∃ calls, trace s' = trace s ++ calls
           ∧ createsAreChecked credentials [(agentName, provider)] calls.
Proof.
  destruct 1 as [s Hs|s k e Hs|s k Hs|s k e Hs|s k err Hs|s k Hs].
  - exists []. rewrite app_nil_r. split; [done|]. by intros [|?] ???.
  - eexists [_]. split; [done|]. by intros [|[|?]] ???.
  - eexists [_]. split; [done|]. by intros [|[|?]] ???.
  - eexists [_; _]. split; [simpl; by rewrite <- app_assoc|].
    intros [|[|[|?]]] ?? Hi; simpl in Hi; simplify_eq. exists 0. split_and!; [done..|].
    exists (agentName, provider). split_and!; [by left|done..].
  - eexists [_; _]. split; [simpl; by rewrite <- app_assoc|].
    intros [|[|[|?]]] ?? Hi; simpl in Hi; simplify_eq. exists 0. split_and!; [done..|].
    exists (agentName, provider). split_and!; [by left|done..].
  - eexists [_; _]. split; [simpl; by rewrite <- app_assoc|].
    intros [|[|[|?]]] ?? Hi; simpl in Hi; simplify_eq. exists 0. split_and!; [done..|].
    exists (agentName, provider). split_and!; [by left|done..].
Qed.

Lemma Attempts_createsAreChecked env credentials s pairs entries s' :
  Attempts env credentials s pairs entries s' →
  ∃ calls, trace s' = trace s ++ calls ∧ createsAreChecked credentials pairs calls.
Proof.
  induction 1 as [s|s a p entry s1 pairs entries s2 Hfirst Hrest IH].
  { exists []. rewrite app_nil_r. split; [done|]. by intros [|?] ???. }
  destruct (Attempt_createsAreChecked _ _ _ _ _ _ _ Hfirst) as (first & Htrace1 & Hfirst').
  destruct IH as (calls & Htrace & Hcalls).
  exists (first ++ calls). split; [by rewrite Htrace, Htrace1, app_assoc|].
  by apply (createsAreChecked_app _ [(a, p)]).
Qed.

End KmsFacts.

Section IdentityRun.
Import PreDeployIdentity IdentitySpec IdentityFacts IdentityQueries IdentityQueryFacts KmsFacts.

(** X4.  When encryption is requested and the KMS step does not fail, the
    run returns the key the token vault now uses: the ARN recorded in the
    project when there is one (no key is created), otherwise the ARN of the
    one key it creates; the vault is pointed at it exactly once. *)
Theorem kms_success_returns_the_vault_key options env s :
  throws env (clock s) = None →
  kmsRequested options = true →
  ¬ kmsSetupFails (projectSpec options) env (S (clock s)) →
  ∃ arn r s',
    setupApiKeyProviders options env s = (Normal r, s')
    ∧ PreDeployIdentity.kmsKeyArn r = Some arn
    ∧ tokenVault s' = Some (mkKmsConfiguration CustomerManagedKey (Some arn))
    ∧ match truthyString (AgentCoreProjectSpec.identityKmsKeyArn (projectSpec options)) with
      | Some recorded =>
          arn = recorded
          ∧ List.filter isKmsCall (issued s s') = [CSetTokenVaultKmsKey arn]
      | None =>
          truthyString (KeyMetadata (kmsCreateKeyResponse env (S (clock s))) ≫= Arn)
          = Some arn
          ∧ List.filter isKmsCall (issued s s')
            = [CKmsCreateKey
                 ("AgentCore Identity encryption key for "
                    +:+ AgentCoreProjectSpec.name (projectSpec options))
                 (AgentCoreProjectSpec.name (projectSpec options));
               CSetTokenVaultKmsKey arn]
      end.
Proof.
  intros Hread Hkms Hok. unfold setupApiKeyProviders.
  erewrite bind_normal by (by apply perform_returns). cbv beta. simpl. rewrite Hkms.
  set (s0 := record _ s). set (credentials := allCredentialsOf _ _).
  destruct (setupTokenVaultKms_succeeds env (region options) (projectSpec options) s0)
    as (arn & s1 & calls & Hrun & Hvault & Htrace & Hcalls).
  { subst s0. by rewrite clock_record. }
  erewrite bind_normal by exact Hrun. simpl.
  destruct (setupAllAgents_attempts env (projectSpec options) credentials (Some arn) s1)
    as (entries & s' & -> & Hattempts).
  destruct (Attempts_frame _ _ _ _ _ _ Hattempts) as (Hv & _ & more & Htrace' & Hmore).
  eexists arn, _, s'. split; [reflexivity|]. split; [done|]. split; [congruence|].
  assert (issued s s' = CReadEnvFile (configBaseDir options) :: calls ++ more) as ->.
  { apply issued_app. rewrite Htrace', Htrace. subst s0. simpl.
    by rewrite <- !app_assoc. }
  subst s0. rewrite clock_record in Hcalls. simpl.
  rewrite List.filter_app, (filter_isKmsCall_providers _ Hmore), app_nil_r.
  destruct (truthyString _); destruct Hcalls as [? ->]; done.
Qed.

Lemma kms_success_witness :
  ∃ arn r s',
    setupApiKeyProviders Scenarios.optionsKms Scenarios.quietEnv Scenarios.freshState
    = (Normal r, s')
    ∧ PreDeployIdentity.kmsKeyArn r = Some arn
    ∧ tokenVault s' = Some (mkKmsConfiguration CustomerManagedKey (Some arn))
    ∧ truthyString (KeyMetadata (kmsCreateKeyResponse Scenarios.quietEnv 1) ≫= Arn)
      = Some arn
    ∧ List.filter isKmsCall (issued Scenarios.freshState s')
      = [CKmsCreateKey "AgentCore Identity encryption key for test-project"
           "test-project";
         CSetTokenVaultKmsKey arn].
Proof.
  apply (kms_success_returns_the_vault_key
           Scenarios.optionsKms Scenarios.quietEnv Scenarios.freshState).
  - reflexivity.
  - reflexivity.
  - vm_compute. intros [[[? Hx]|Hx]|[[? Hx]|[? Hx]]]; discriminate Hx.
Defined.

(** X5.  When encryption is not requested (the flag is off and the project
    records no key ARN) a run issues no KMS request, leaves the token vault as
    it is and returns no [kmsKeyArn]. *)
Theorem no_kms_request_unless_requested options env s :
  kmsRequested options = false →
  List.filter isKmsCall (issued s (setupApiKeyProviders options env s).2) = []
  ∧ tokenVault (setupApiKeyProviders options env s).2 = tokenVault s
  ∧ ∀ r, (setupApiKeyProviders options env s).1 = Normal r →
         PreDeployIdentity.kmsKeyArn r = None.
Proof.
  intros Hkms. unfold setupApiKeyProviders.
  destruct (throws env (clock s)) as [e|] eqn:Hread.
  { erewrite bind_abrupt by (by apply perform_throws). simpl.
    split; [by rewrite (issued_app _ _ [CReadEnvFile (configBaseDir options)])|done]. }
  erewrite bind_normal by (by apply perform_returns). cbv beta. simpl. rewrite Hkms.
  set (s0 := record _ s). set (credentials := allCredentialsOf _ _).
  destruct (setupAllAgents_attempts env (projectSpec options) credentials None s0)
    as (entries & s' & -> & Hattempts).
  destruct (Attempts_frame _ _ _ _ _ _ Hattempts) as (Hv & _ & more & Htrace' & Hmore).
  simpl. split_and!.
  - rewrite (issued_app s s' (CReadEnvFile (configBaseDir options) :: more)).
    + simpl. by apply filter_isKmsCall_providers.
    + rewrite Htrace'. subst s0. simpl. by rewrite <- app_assoc.
  - by rewrite Hv.
  - by intros r [= <-].
Qed.

Lemma no_kms_request_witness :
  List.filter isKmsCall
    (issued Scenarios.freshState
       (setupApiKeyProviders Scenarios.optionsA Scenarios.secretEnv
          Scenarios.freshState).2) = []
  ∧ tokenVault
      (setupApiKeyProviders Scenarios.optionsA Scenarios.secretEnv
         Scenarios.freshState).2 = tokenVault Scenarios.freshState
  ∧ ∀ r, (setupApiKeyProviders Scenarios.optionsA Scenarios.secretEnv
            Scenarios.freshState).1 = Normal r →
         PreDeployIdentity.kmsKeyArn r = None.
Proof.
  apply (no_kms_request_unless_requested
           Scenarios.optionsA Scenarios.secretEnv Scenarios.freshState).
  reflexivity.
Defined.

(** X6.  Check-then-act: in every run, each creation request comes
    immediately after the existence check of the same provider name, and the
    API key it sends is the non-empty value found under the [envVarName] of an
    owned API-key provider of that name. *)
Theorem creation_follows_its_existence_check options env s :
  createsAreChecked
    (allCredentialsOf options (envFileAt env (configBaseDir options)))
    (ownedApiKeyPairs (projectSpec options))
    (issued s (setupApiKeyProviders options env s).2).
Proof.
  destruct (setupApiKeyProviders_run options env s)
    as [(e & He & Hrun)
       | [(_ & _ & _ & err & s' & Hrun & Hbefore)
         | (_ & _ & s1 & arn & entries & s' & Hbefore & Hattempts & Hrun)]];
    rewrite Hrun; simpl.
  - rewrite (issued_app _ _ [CReadEnvFile (configBaseDir options)]) by done.
    by intros [|[|?]] ???.
  - destruct Hbefore as (_ & _ & calls & Htrace & Hcalls).
    rewrite (issued_app _ _ _ Htrace).
    intros i name apiKey Hi.
    by destruct (createsAreChecked_before
                   (allCredentialsOf options (envFileAt env (configBaseDir options)))
                   _ Hcalls _ _ _ Hi) as (? & _ & _ & ? & []%elem_of_nil & _).
  - destruct (Attempts_createsAreChecked _ _ _ _ _ _ Hattempts)
      as (calls & Htrace & Hcalls).
    destruct (beforeProviders_issued _ _ _ _ Hbefore Htrace) as (before & Hb & ->).
    apply (createsAreChecked_app _ [] before); [|done].
    by apply createsAreChecked_before.
Qed.

Lemma creation_check_witness :
  ∃ j, 2 = S j
    ∧ issued Scenarios.freshState
        (setupApiKeyProviders Scenarios.optionsA Scenarios.secretEnv
           Scenarios.freshState).2 !! j
      = Some (CApiKeyProviderExists "Cred1")
    ∧ ∃ pair, pair ∈ ownedApiKeyPairs (projectSpec Scenarios.optionsA)
        ∧ OwnedIdentityProvider.name pair.2 = "Cred1"
        ∧ truthyString
            (SecureCredentials.get
               (allCredentialsOf Scenarios.optionsA
                  (envFileAt Scenarios.secretEnv (configBaseDir Scenarios.optionsA)))
               (OwnedIdentityProvider.envVarName pair.2))
          = Some "secret".
Proof.
  apply (creation_follows_its_existence_check
           Scenarios.optionsA Scenarios.secretEnv Scenarios.freshState 2 "Cred1" "secret").
  reflexivity.
Defined.

End IdentityRun.

(** * Further properties of [destroy/index.ts] and of the remove flow *)

Module DestroyMoreFacts.
Import Destroy DestroySpec DestroyFacts RemoveFlow.

(** The targets found are among the configured ones, in their order. *)
Lemma discovered_sublist env projectName targets :
  ∀ t, sublist (map target (discovered env t projectName targets)) targets.
Proof.
  induction targets as [|first targets IH]; intros t; simpl; [constructor|].
  unfold lookupAt. destruct (throws env t); simpl.
  { apply sublist_cons, IH. }
  destruct (stackRegistry env _ _ _); simpl.
  - apply sublist_skip, IH.
  - apply sublist_cons, IH.
Qed.

(** The loop of [checkDeployedResources]. *)
Lemma findFirstStack_run env currentProjectName targets :
  ∀ s, ∃ out s',
    findFirstStack currentProjectName targets env s = (out, s')
    ∧ trace s'
      = trace s
        ++ map (λ target,
                  CFindStack (AwsDeploymentTarget.region target) currentProjectName
                    (AwsDeploymentTarget.name target))
             (take (lookupsIssued env (clock s) currentProjectName targets) targets)
    ∧ apiKeyProviders s' = apiKeyProviders s
    ∧ tokenVault s' = tokenVault s
    ∧ deployedStateFile s' = deployedStateFile s
    ∧ (out = Normal true
       ↔ ∃ i target,
           targets !! i = Some target
           ∧ is_Some (stackRegistry env (AwsDeploymentTarget.region target)
                        currentProjectName (AwsDeploymentTarget.name target))
           ∧ throws env (clock s + i) = None
           ∧ ∀ j earlier, j < i → targets !! j = Some earlier →
               decisive env (clock s + j) currentProjectName earlier = false)
    ∧ (out = Normal true ∨ out = Normal false ∨ ∃ e, out = Abrupt e).
Proof.
  induction targets as [|target targets IH]; intros s; simpl.
  { exists (Normal false), s. rewrite app_nil_r. split_and!; [done..| |by right; left].
    split; [done|]. by intros (i & ? & Hi & _). }
  unfold decisive at 1.
  destruct (throws env (clock s)) as [e|] eqn:Hthrow.
  { erewrite bind_abrupt by (by apply perform_throws).
    eexists _, _. split; [reflexivity|]. split_and!; [done..| |right; right; by eexists].
    split; [done|]. intros (i & found & Hi & Hfound & Hok & Hearlier).
    destruct i as [|i].
    - rewrite Nat.add_0_r in Hok. congruence.
    - specialize (Hearlier 0 target ltac:(lia) eq_refl).
      unfold decisive in Hearlier. rewrite Nat.add_0_r, Hthrow in Hearlier. done. }
  erewrite bind_normal by (by apply perform_returns). simpl.
  destruct (stackRegistry env (AwsDeploymentTarget.region target) currentProjectName
              (AwsDeploymentTarget.name target)) as [stack|] eqn:Hstack.
  { rewrite bool_decide_eq_true_2 by by eexists.
    eexists _, _. split; [reflexivity|]. split_and!; [done..| |by left].
    split; [|done]. intros _. exists 0, target. rewrite Nat.add_0_r.
    split_and!; [done|by rewrite Hstack|done|]. intros ?? ?. lia. }
  rewrite bool_decide_eq_false_2 by by intros [? ?].
  set (c := CFindStack _ _ _).
  destruct (IH (record c s)) as (out & s' & Hrun & Htrace & Hp & Hv & Hd & Hiff & Hout).
  exists out, s'. rewrite clock_record in *. split; [done|].
  split_and!; [|done..| |done].
  { rewrite Htrace. simpl. by rewrite <- app_assoc. }
  rewrite Hiff. split.
  - intros (i & found & Hi & Hfound & Hok & Hearlier).
    exists (S i), found. split_and!; [done..| |].
    + by replace (clock s + S i) with (S (clock s) + i) by lia.
    + intros [|j] earlier Hj Hlookup.
      * simpl in Hlookup. simplify_eq. unfold decisive.
        rewrite Nat.add_0_r, Hthrow, Hstack. by rewrite bool_decide_eq_false_2 by by intros [? ?].
      * replace (clock s + S j) with (S (clock s) + j) by lia.
        apply Hearlier; [lia|done].
  - intros (i & found & Hi & Hfound & Hok & Hearlier).
    destruct i as [|i].
    + simpl in Hi. simplify_eq. rewrite Hstack in Hfound. by destruct Hfound.
    + exists i, found. split_and!; [done..| |].
      * by replace (S (clock s) + i) with (clock s + S i) by lia.
      * intros j earlier Hj Hlookup.
        replace (S (clock s) + j) with (clock s + S j) by lia.
        apply Hearlier; [lia|done].
Qed.

End DestroyMoreFacts.

Section DestroyMore.
Import Destroy DestroySpec DestroyFacts RemoveFlow DiscoverySpec DestroyMoreFacts.

(** X7.  The deployed state is cleaned only after a destroy that did not
    throw: when [toolkit.initialize] or [toolkit.destroy] throws,
    [destroyTarget] rejects with that very error, the deployed-state file is
    neither read nor written, and a failed initialisation means the destroy
    operation is never invoked. *)
Theorem failed_destroy_keeps_local_state options env s e :
  DestroyTargetOptions.cdkProjectDir options ∈ directories env →
  throws env (clock s) = Some e
  ∨ (throws env (clock s) = None ∧ throws env (S (clock s)) = Some e) →
  (destroyTarget options env s).1 = Abrupt e
  ∧ deployedStateFile (destroyTarget options env s).2 = deployedStateFile s
  ∧ List.filter isCleanupCall (issued s (destroyTarget options env s).2) = []
  ∧ (throws env (clock s) = Some e →
     issued s (destroyTarget options env s).2
     = [CToolkitInitialize (DestroyTargetOptions.cdkProjectDir options)]).
Proof.
  intros Hpresent Hfails.
  destroy_cases options env s; simpl; issued_calls;
    destruct Hfails as [?|[? ?]]; simplify_eq; try done.
  split_and!; [done..|]. intros ?. congruence.
Qed.

Lemma failed_destroy_witness :
  (destroyTarget prodOptions
     (mkEnv (λ t, if Nat.eqb t 1 then Some (newError "stack is in use") else None)
        (rejects diskEnv) (kmsCreateKeyResponse diskEnv) (envFileAt diskEnv)
        (projectSpecAt diskEnv) (awsTargetsAt diskEnv) (stackRegistry diskEnv)
        (directories diskEnv) (interruptedWrite diskEnv))
     prodState).1 = Abrupt (newError "stack is in use")
  ∧ deployedStateFile
      (destroyTarget prodOptions
         (mkEnv (λ t, if Nat.eqb t 1 then Some (newError "stack is in use") else None)
            (rejects diskEnv) (kmsCreateKeyResponse diskEnv) (envFileAt diskEnv)
            (projectSpecAt diskEnv) (awsTargetsAt diskEnv) (stackRegistry diskEnv)
            (directories diskEnv) (interruptedWrite diskEnv))
         prodState).2 = deployedStateFile prodState.
Proof.
  pose proof (failed_destroy_keeps_local_state prodOptions
     (mkEnv (λ t, if Nat.eqb t 1 then Some (newError "stack is in use") else None)
        (rejects diskEnv) (kmsCreateKeyResponse diskEnv) (envFileAt diskEnv)
        (projectSpecAt diskEnv) (awsTargetsAt diskEnv) (stackRegistry diskEnv)
        (directories diskEnv) (interruptedWrite diskEnv))
     prodState (newError "stack is in use")) as H.
  destruct H as (Hout & Hfile & _).
  - by vm_compute.
  - right. split; reflexivity.
  - split; [exact Hout | exact Hfile].
Defined.

(** X8.  Destroying the same target again after a destroy and cleanup that
    went through finds no entry left, and the second run leaves the
    deployed-state file exactly as the first one left it.  It issues no write,
    unless the target's name is that of a member inherited from
    [Object.prototype]: the file is then written again, with the content it
    already has. *)
Theorem repeated_destroy_changes_nothing options env s :
  DestroyTargetOptions.cdkProjectDir options ∈ directories env →
  (∀ t, clock s ≤ t → throws env t = None) →
  targets (deployedStateFile (destroyTarget options env s).2)
    !! AwsDeploymentTarget.name (target (DestroyTargetOptions.target options))
  = None
  ∧ (List.filter isWrite
       (issued (destroyTarget options env s).2
          (destroyTarget options env (destroyTarget options env s).2).2)
     = []
     ↔ AwsDeploymentTarget.name (target (DestroyTargetOptions.target options))
       ∉ objectPrototypeMembers)
  ∧ (∀ written,
       CWriteDeployedState written
       ∈ issued (destroyTarget options env s).2
           (destroyTarget options env (destroyTarget options env s).2).2 →
       written = deployedStateFile (destroyTarget options env s).2)
  ∧ deployedStateFile (destroyTarget options env (destroyTarget options env s).2).2
    = deployedStateFile (destroyTarget options env s).2.
Proof.
  intros Hpresent Hquiet.
  assert (∀ s0, clock s ≤ clock s0 →
            targets (deployedStateFile s0)
              !! AwsDeploymentTarget.name (target (DestroyTargetOptions.target options))
            = None →
            (List.filter isWrite (issued s0 (destroyTarget options env s0).2) = []
             ↔ AwsDeploymentTarget.name (target (DestroyTargetOptions.target options))
               ∉ objectPrototypeMembers)
            ∧ (∀ written,
                 CWriteDeployedState written ∈ issued s0 (destroyTarget options env s0).2 →
                 written = deployedStateFile s0)
            ∧ deployedStateFile (destroyTarget options env s0).2 = deployedStateFile s0)
    as Hsecond.
  { intros s0 Hlater Habsent.
    assert (mkDeployedState
              (delete (AwsDeploymentTarget.name
                         (target (DestroyTargetOptions.target options)))
                 (targets (deployedStateFile s0)))
            = deployedStateFile s0) as Hsame.
    { rewrite delete_id by done. by destruct (deployedStateFile s0). }
    destroy_cases options env s0; simpl in *; issued_calls; simpl;
      rewrite ?Hquiet in * by lia; simplify_eq; try done;
      try (by destruct Hread); try (by destruct Hwrite).
    - apply truthyMember_false in Hentry as [_ Hown].
      split_and!; [done| |done].
      intros written Hin. rewrite !elem_of_cons, elem_of_nil in Hin.
      by destruct Hin as [?|[?|[?|[]]]].
    - apply truthyMember_true in Hentry as [[? ?]|Hinherited]; [congruence|].
      split_and!; [done| |done].
      intros written Hin. rewrite !elem_of_cons, elem_of_nil in Hin.
      destruct Hin as [?|[?|[?|[?|[]]]]]; by simplify_eq. }
  assert (targets (deployedStateFile (destroyTarget options env s).2)
            !! AwsDeploymentTarget.name (target (DestroyTargetOptions.target options))
          = None
          ∧ clock s ≤ clock (destroyTarget options env s).2) as [Habsent Hlater].
  { destroy_cases options env s; simpl in *;
      rewrite ?Hquiet in * by lia; simplify_eq; try done;
      try (by destruct Hread); try (by destruct Hwrite).
    - split; [by apply truthyMember_false in Hentry as [? _]|].
      rewrite !clock_record. lia.
    - split; [apply lookup_delete_eq|]. rewrite !clock_record. unfold clock. simpl.
      rewrite !length_app. simpl. lia. }
  split; [done|]. by apply Hsecond.
Qed.

Lemma repeated_destroy_witness :
  targets (deployedStateFile (destroyTarget prodOptions diskEnv prodState).2) !! "prod"
  = None
  ∧ (List.filter isWrite
       (issued (destroyTarget prodOptions diskEnv prodState).2
          (destroyTarget prodOptions diskEnv
             (destroyTarget prodOptions diskEnv prodState).2).2)
     = []
     ↔ "prod" ∉ objectPrototypeMembers)
  ∧ (∀ written,
       CWriteDeployedState written
       ∈ issued (destroyTarget prodOptions diskEnv prodState).2
           (destroyTarget prodOptions diskEnv
              (destroyTarget prodOptions diskEnv prodState).2).2 →
       written = deployedStateFile (destroyTarget prodOptions diskEnv prodState).2)
  ∧ deployedStateFile
      (destroyTarget prodOptions diskEnv
         (destroyTarget prodOptions diskEnv prodState).2).2
    = deployedStateFile (destroyTarget prodOptions diskEnv prodState).2.
Proof.
  apply (repeated_destroy_changes_nothing prodOptions diskEnv prodState).
  - by vm_compute.
  - intros t _. reflexivity.
Defined.

Lemma discovery_loop_frame env projectName targets :
  ∀ found s, ∃ s',
    forOf targets
      (λ target deployedTargets,
        tryCatch
          (stack ← findStack (AwsDeploymentTarget.region target) projectName
                     (AwsDeploymentTarget.name target);
           match stack with
           | Some stack => mret (deployedTargets ++ [mkDeployedTarget target stack])
           | None => mret deployedTargets
           end)
          (λ _, mret deployedTargets))
      found env s
    = (Normal (found ++ discovered env (clock s) projectName targets), s')
    ∧ apiKeyProviders s' = apiKeyProviders s
    ∧ tokenVault s' = tokenVault s
    ∧ deployedStateFile s' = deployedStateFile s.
Proof.
  induction targets as [|target targets IH]; intros found s; simpl.
  { exists s. by rewrite !app_nil_r. }
  set (c := CFindStack (AwsDeploymentTarget.region target) projectName
              (AwsDeploymentTarget.name target)).
  destruct (IH (found ++ option_list (lookupAt env (clock s) projectName target))
              (record c s)) as (s' & Hloop & Hframe).
  rewrite clock_record, <- app_assoc in Hloop.
  exists s'. split; [|exact Hframe]. rewrite <- Hloop.
  apply bind_normal. unfold tryCatch, lookupAt.
  destruct (throws env (clock s)) as [e|] eqn:Hthrow.
  - erewrite bind_abrupt by (by apply perform_throws). simpl. by rewrite app_nil_r.
  - erewrite bind_normal by (by apply perform_returns). simpl.
    destruct (stackRegistry env _ _ _); simpl; [done|]. by rewrite app_nil_r.
Qed.

(** X9.  Discovery only reads: it issues nothing but the two configuration
    reads and one stack lookup per target, and changes neither the identity
    providers, nor the token vault, nor the deployed-state file.  It rejects
    only when one of the two configuration reads does, and then before any
    lookup; otherwise the targets it returns are configured targets, in the
    order of the targets file, under the project's name. *)
Theorem discovery_only_reads configBaseDir env s :
  apiKeyProviders (discoverDeployedTargets configBaseDir env s).2 = apiKeyProviders s
  ∧ tokenVault (discoverDeployedTargets configBaseDir env s).2 = tokenVault s
  ∧ deployedStateFile (discoverDeployedTargets configBaseDir env s).2
    = deployedStateFile s
  ∧ Forall (λ c, isDiscoveryCall c = true)
      (issued s (discoverDeployedTargets configBaseDir env s).2)
  ∧ (∀ e, (discoverDeployedTargets configBaseDir env s).1 = Abrupt e →
       (throws env (clock s) = Some e ∨ throws env (S (clock s)) = Some e)
       ∧ omap findStackCall (issued s (discoverDeployedTargets configBaseDir env s).2)
         = [])
  ∧ (∀ r, (discoverDeployedTargets configBaseDir env s).1 = Normal r →
       projectName r
       = AgentCoreProjectSpec.name (projectSpecAt env (truthyString configBaseDir))
       ∧ sublist (map target (deployedTargets r))
           (awsTargetsAt env (truthyString configBaseDir))).
Proof.
  unfold discoverDeployedTargets. set (baseDir := truthyString configBaseDir).
  destruct (throws env (clock s)) as [e|] eqn:Hspec.
  { erewrite bind_abrupt by (by apply perform_throws). simpl.
    rewrite (issued_app _ _ [CReadProjectSpec baseDir]) by done.
    split_and!; [done..|by repeat constructor| |done].
    intros ? [= <-]. split; [by left|done]. }
  erewrite bind_normal by (by apply perform_returns). simpl.
  destruct (throws env (S (clock s))) as [e|] eqn:Htargets.
  { erewrite bind_abrupt by (apply perform_throws; by rewrite clock_record). simpl.
    rewrite (issued_app _ _ [CReadProjectSpec baseDir; CReadAWSDeploymentTargets baseDir])
      by (simpl; by rewrite <- app_assoc).
    split_and!; [done..|by repeat constructor| |done].
    intros ? [= <-]. split; [by right|done]. }
  erewrite bind_normal by (apply perform_returns; by rewrite clock_record). simpl.
  set (s2 := record _ (record _ s)).
  set (projectName := AgentCoreProjectSpec.name (projectSpecAt env baseDir)).
  destruct (discovery_loop_frame env projectName (awsTargetsAt env baseDir) [] s2)
    as (s' & Hloop & Hp & Hv & Hd).
  destruct (discovery_loop env projectName (awsTargetsAt env baseDir) [] s2)
    as (s'' & Hloop' & Htrace).
  rewrite Hloop in Hloop'. injection Hloop' as <-.
  erewrite bind_normal by exact Hloop. simpl.
  assert (issued s s'
          = [CReadProjectSpec baseDir; CReadAWSDeploymentTargets baseDir]
              ++ map (λ target,
                        CFindStack (AwsDeploymentTarget.region target) projectName
                          (AwsDeploymentTarget.name target))
                   (awsTargetsAt env baseDir)) as ->.
  { apply issued_app. rewrite Htrace. subst s2. simpl. by rewrite <- !app_assoc. }
  split_and!; [done..| |done|].
  - apply Forall_app. split; [by repeat constructor|].
    apply Forall_forall. by intros c (? & <- & _)%list_elem_of_In%in_map_iff.
  - intros r [= <-]. simpl. split; [done|]. apply discovered_sublist.
Qed.

Lemma discovery_only_reads_witness :
  deployedStateFile (discoverDeployedTargets None unreadableEnv prodState).2
  = deployedStateFile prodState
  ∧ sublist [AwsDeploymentTarget.mk "staging" "eu-west-1" "123"]
      (awsTargetsAt unreadableEnv None).
Proof.
  destruct (discovery_only_reads None unreadableEnv prodState)
    as (_ & _ & Hd & _ & _ & Hn).
  split; [exact Hd|]. exact (proj2 (Hn _ eq_refl)).
Defined.

(** X10.  The remove flow's check for deployed resources never fails and
    stops at the first lookup that answers: it reports deployed resources
    exactly when the project name is non-empty, the targets file is read, and
    the first lookup that either throws or finds a stack is one that finds a
    stack.  Targets after that lookup are not looked up; in particular a
    lookup that throws ends the check with "nothing deployed". *)
Theorem deployed_check_stops_at_first_answer currentProjectName env s :
  ∃ found s',
    checkDeployedResources currentProjectName env s = (Normal found, s')
    ∧ deployedStateFile s' = deployedStateFile s
    ∧ (found = true
       ↔ currentProjectName ≠ EmptyString
         ∧ throws env (clock s) = None
         ∧ ∃ i target,
             awsTargetsAt env None !! i = Some target
             ∧ is_Some (stackRegistry env (AwsDeploymentTarget.region target)
                          currentProjectName (AwsDeploymentTarget.name target))
             ∧ throws env (S (clock s) + i) = None
             ∧ ∀ j earlier, j < i → awsTargetsAt env None !! j = Some earlier →
                 decisive env (S (clock s) + j) currentProjectName earlier = false)
    ∧ (currentProjectName ≠ EmptyString → throws env (clock s) = None →
       omap findStackCall (issued s s')
       = map (λ target,
                (AwsDeploymentTarget.region target, currentProjectName,
                 AwsDeploymentTarget.name target))
           (take (lookupsIssued env (S (clock s)) currentProjectName
                    (awsTargetsAt env None))
              (awsTargetsAt env None))).
Proof.
  unfold checkDeployedResources.
  destruct currentProjectName as [|c name] eqn:Hname; simpl.
  { exists false, s. split_and!; [done..| |done]. split; [done|]. by intros [? _]. }
  rewrite <- Hname. unfold tryCatch.
  destruct (throws env (clock s)) as [e|] eqn:Hread.
  { erewrite bind_abrupt by (by apply perform_throws).
    eexists _, _. split; [reflexivity|]. split_and!; [done| |done].
    split; [done|]. by intros (_ & ? & _). }
  erewrite bind_normal by (by apply perform_returns). simpl.
  set (s1 := record _ s).
  destruct (findFirstStack_run env currentProjectName (awsTargetsAt env None) s1)
    as (out & s' & Hrun & Htrace & _ & _ & Hd & Hiff & Hout).
  subst s1. rewrite clock_record in *. rewrite Hrun.
  assert (issued s (match out with
                    | Normal _ => s'
                    | Abrupt _ => s'
                    end)
          = CReadAWSDeploymentTargets None
            :: map (λ target,
                      CFindStack (AwsDeploymentTarget.region target) currentProjectName
                        (AwsDeploymentTarget.name target))
                 (take (lookupsIssued env (S (clock s)) currentProjectName
                          (awsTargetsAt env None))
                    (awsTargetsAt env None))) as Hissued.
  { apply issued_app. destruct out; rewrite Htrace; simpl; by rewrite <- app_assoc. }
  destruct Hout as [->|[->|[e ->]]]; simpl in *.
  - exists true, s'. split_and!; [done..| |].
    + split; [|done]. intros _. split; [by subst|]. split; [done|]. by apply Hiff.
    + intros _ _. rewrite Hissued. simpl. apply omap_findStackCall.
  - exists false, s'. split_and!; [done..| |].
    + split; [done|]. intros (_ & _ & Hfound). apply Hiff in Hfound. done.
    + intros _ _. rewrite Hissued. simpl. apply omap_findStackCall.
  - exists false, s'. split_and!; [done..| |].
    + split; [done|]. intros (_ & _ & Hfound). apply Hiff in Hfound. done.
    + intros _ _. rewrite Hissued. simpl. apply omap_findStackCall.
Qed.

Lemma deployed_check_witness :
  omap findStackCall
    (issued prodState (checkDeployedResources "proj" diskEnv prodState).2)
  = [("us-east-1", "proj", "prod")]
  ∧ (checkDeployedResources "proj" diskEnv prodState).1 = Normal true.
Proof.
  destruct (deployed_check_stops_at_first_answer "proj" diskEnv prodState)
    as (found & s' & Hrun & _ & Hfound & Hcalls).
  rewrite Hrun. simpl. split.
  - rewrite Hcalls; [reflexivity|discriminate|reflexivity].
  - f_equal. apply Hfound. split; [discriminate|]. split; [reflexivity|].
    exists 0, (AwsDeploymentTarget.mk "prod" "us-east-1" "123").
    split; [reflexivity|]. split; [by eexists|]. split; [reflexivity|].
    intros j earlier Hj. lia.
Defined.

End DestroyMore.

(** ** AWS account detection *)

Module AwsAccountFacts.
Import AwsAccount.

Lemma codeIs_true code expected : codeIs code expected = true ↔ code = Some expected.
Proof. unfold codeIs. by rewrite bool_decide_eq_true. Qed.

Lemma recognised_spec code :
  codeIs code "ExpiredTokenException" || codeIs code "ExpiredToken"
  || (codeIs code "InvalidClientTokenId" || codeIs code "SignatureDoesNotMatch")
  || (codeIs code "AccessDenied" || codeIs code "AccessDeniedException") = true
  ↔ ∃ c, code = Some c ∧ c ∈ recognisedCodes.
Proof.
  unfold recognisedCodes. rewrite !orb_true_iff, !codeIs_true. split.
  - intros [[[->| ->]|[->| ->]]|[->| ->]]; eexists; (split; [reflexivity|]);
      rewrite !elem_of_cons; tauto.
  - intros (c & -> & Hc). rewrite !elem_of_cons, elem_of_nil in Hc.
    destruct Hc as [->|[->|[->|[->|[->|[->|[]]]]]]]; tauto.
Qed.

Lemma detectAccount_rejected processEnv sts err :
  sts (getCredentialProvider processEnv) (clientRegion processEnv) = Rejected err →
  (∃ e, detectAccount processEnv sts = inl e
        ∧ AwsCredentialsError.shortMessage e
          ∈ ["AWS credentials expired."; "AWS credentials are invalid.";
             "AWS credentials lack required permissions."]
        ∧ AwsCredentialsError.message e ≠ AwsCredentialsError.shortMessage e
        ∧ ∃ c, errorCode err = Some c ∧ c ∈ recognisedCodes)
  ∨ (detectAccount processEnv sts = inr None
     ∧ ¬ ∃ c, errorCode err = Some c ∧ c ∈ recognisedCodes).
Proof.
  intros Hsts. unfold detectAccount. rewrite Hsts. cbv zeta.
  pose proof (recognised_spec (errorCode err)) as Hspec.
  destruct (codeIs _ "ExpiredTokenException" || codeIs _ "ExpiredToken") eqn:H1;
    [|destruct (codeIs _ "InvalidClientTokenId" || codeIs _ "SignatureDoesNotMatch") eqn:H2;
      [|destruct (codeIs _ "AccessDenied" || codeIs _ "AccessDeniedException") eqn:H3]];
    simpl in Hspec.
  1-3: left; eexists; split; [reflexivity|]; simpl;
    split; [rewrite !elem_of_cons; tauto|]; split; [done|]; by apply Hspec.
  right. split; [done|]. intros Hc. by apply Hspec in Hc.
Qed.

End AwsAccountFacts.

Section AwsAccountProperties.
Import AwsAccount AwsAccountFacts.

(** X11.  [validateAwsCredentials] returns exactly when the security token
    service answered with a non-empty account id.  Every error it throws
    carries one of four short messages and a detailed message different from
    it; the short message is "No AWS credentials configured." exactly when
    [detectAccount] returned [null] or an empty account id. *)
Theorem credentials_valid_iff_account_answered processEnv sts :
  (validateAwsCredentials processEnv sts = inr tt
   ↔ ∃ account,
       sts (getCredentialProvider processEnv) (clientRegion processEnv)
       = Responded (Some account)
       ∧ account ≠ EmptyString)
  ∧ ∀ e, validateAwsCredentials processEnv sts = inl e →
      AwsCredentialsError.shortMessage e ∈ shortMessages
      ∧ AwsCredentialsError.message e ≠ AwsCredentialsError.shortMessage e
      ∧ (AwsCredentialsError.shortMessage e = "No AWS credentials configured."
         ↔ detectAccount processEnv sts = inr None
           ∨ detectAccount processEnv sts = inr (Some EmptyString)).
Proof.
  unfold validateAwsCredentials, shortMessages.
  destruct (sts (getCredentialProvider processEnv) (clientRegion processEnv))
    as [account|err] eqn:Hsts.
  - unfold detectAccount. rewrite Hsts. cbv zeta.
    destruct account as [[|c account]|]; simpl.
    + split; [split; [done|by intros (? & [= <-] & ?)]|].
      intros e [= <-]. simpl. rewrite !elem_of_cons. split_and!; [tauto|done|].
      split; [by right|done].
    + split; [split; [by eexists|done]|done].
    + split; [split; [done|by intros (? & [=] & ?)]|].
      intros e [= <-]. simpl. rewrite !elem_of_cons. split_and!; [tauto|done|].
      split; [by left|done].
  - destruct (detectAccount_rejected processEnv sts err Hsts)
      as [(e & -> & Hshort & Hmessage & _)|[-> _]]; simpl.
    + split; [split; [done|by intros (? & [=] & ?)]|].
      intros ? [= <-]. rewrite !elem_of_cons, elem_of_nil in Hshort.
      rewrite !elem_of_cons. split_and!; [tauto|done|].
      split; [|by intros [?|?]].
      intros Hno. rewrite Hno in Hshort. by destruct Hshort as [?|[?|[?|[]]]].
    + split; [split; [done|by intros (? & [=] & ?)]|].
      intros e [= <-]. simpl. rewrite !elem_of_cons. split_and!; [tauto|done|].
      split; [by left|done].
Qed.

(** X12.  A rejected request makes [detectAccount] throw exactly when its
    code, which is the error's [name] when it has one and its [Code] only
    otherwise, is one of the six recognised codes; any other rejection is
    turned into [null].  So a rejection with an unrecognised [name] yields
    [null] whatever its [Code]. *)
Theorem rejection_is_classified_by_name_first processEnv sts err :
  sts (getCredentialProvider processEnv) (clientRegion processEnv) = Rejected err →
  ((∃ e, detectAccount processEnv sts = inl e)
   ↔ ∃ code, errorCode err = Some code ∧ code ∈ recognisedCodes)
  ∧ ((¬ ∃ code, errorCode err = Some code ∧ code ∈ recognisedCodes) →
     detectAccount processEnv sts = inr None)
  ∧ ∀ name, StsError.name err = Some name → name ∉ recognisedCodes →
      detectAccount processEnv sts = inr None.
Proof.
  intros Hsts.
  destruct (detectAccount_rejected processEnv sts err Hsts)
    as [(e & Hrun & _ & _ & Hcode)|[Hrun Hcode]]; rewrite Hrun.
  - split_and!.
    + split; [done|by eexists].
    + done.
    + intros name Hname Hnot. destruct Hcode as (c & Hc & Hin).
      unfold errorCode in Hc. rewrite Hname in Hc. by simplify_eq.
  - split_and!; [|done..]. split; [by intros [? ?]|done].
Qed.

Lemma rejection_witness :
  detectAccount ∅ namedErrorSts = inr None.
Proof.
  apply (proj2 (proj2 (rejection_is_classified_by_name_first ∅ namedErrorSts
                         (StsError.mk (Some "Error") (Some "ExpiredToken")) eq_refl))
           "Error");
    [reflexivity|].
  unfold recognisedCodes. rewrite !elem_of_cons, elem_of_nil.
  by intros [?|[?|[?|[?|[?|[?|[]]]]]]].
Defined.

(** X13.  The environment's credentials are used only when both
    [AWS_ACCESS_KEY_ID] and [AWS_SECRET_ACCESS_KEY] are set and non-empty.
    When they are not, [detectAwsAccount] returns what [detectAccount]
    returns whenever the latter returns, and [null] where it throws. *)
Theorem detectAwsAccount_agrees_without_env_credentials processEnv sts :
  truthyString (processEnv !! "AWS_ACCESS_KEY_ID") = None
  ∨ truthyString (processEnv !! "AWS_SECRET_ACCESS_KEY") = None →
  getCredentialProvider processEnv = fromNodeProviderChain
  ∧ (∀ account, detectAccount processEnv sts = inr account →
       detectAwsAccount processEnv sts = account)
  ∧ (∀ e, detectAccount processEnv sts = inl e →
       detectAwsAccount processEnv sts = None).
Proof.
  intros Hunset.
  assert (getCredentialProvider processEnv = fromNodeProviderChain) as Hchain.
  { unfold getCredentialProvider. destruct Hunset as [-> | ->]; [done|].
    by destruct (truthyString _). }
  split; [done|]. unfold detectAwsAccount.
  destruct (sts fromNodeProviderChain (clientRegion processEnv)) as [account|err] eqn:Hsts.
  - unfold detectAccount. rewrite Hchain, Hsts. cbv zeta. split; [|done].
    by intros ? [= <-].
  - rewrite <- Hchain in Hsts.
    destruct (detectAccount_rejected processEnv sts err Hsts)
      as [(e & -> & _)|[-> _]]; split; first [done | by intros ? [= <-]].
Qed.

Lemma detectAwsAccount_witness :
  detectAwsAccount {["AWS_ACCESS_KEY_ID" := "AKIA"]} chainOnlySts
  = Some "123456789012".
Proof.
  apply (detectAwsAccount_agrees_without_env_credentials
           {["AWS_ACCESS_KEY_ID" := "AKIA"]} chainOnlySts);
    [right; by vm_compute | by vm_compute].
Defined.

End AwsAccountProperties.

(** ** Dev-server configuration *)

Module DevFacts.
Import Dev.

Lemma split_nonempty s : split s ≠ [].
Proof. destruct s as [|c s]; simpl; [done|]. by repeat case_match. Qed.

Lemma split_last s :
  ∃ prefix d,
    last (split s) = Some d
    ∧ s = prefix +:+ d
    ∧ hasSlash d = false
    ∧ (prefix = EmptyString ∨ ∃ p, prefix = p +:+ "/")
    ∧ (prefix = EmptyString ↔ tail (split s) = []).
Proof.
  induction s as [|c s (prefix & d & Hlast & Hs & Hd & Hprefix & Htail)]; simpl.
  { exists EmptyString, EmptyString. split_and!; [done..|by left|done]. }
  destruct (Ascii.eqb c slash) eqn:Hc.
  - apply Ascii.eqb_eq in Hc as ->.
    exists (String slash prefix), d. split_and!.
    + pose proof (split_nonempty s). by destruct (split s).
    + change (String slash s = String slash (prefix +:+ d)). by rewrite <- Hs.
    + done.
    + right. destruct Hprefix as [->|[p ->]]; [by exists EmptyString|].
      by exists (String slash p).
    + split; [done|]. intros Hnil. by destruct (split_nonempty s).
  - destruct (split s) as [|segment [|next segments]] eqn:Hsplit;
      [by destruct (split_nonempty s)| |].
    + simpl in *. simplify_eq. assert (prefix = EmptyString) as -> by by apply Htail.
      exists EmptyString, (String c d). simpl. rewrite Hc. by split_and!.
    + simpl in Htail. exists (String c prefix), d. split_and!.
      * exact Hlast.
      * change (String c s = String c (prefix +:+ d)). by rewrite <- Hs.
      * done.
      * right. destruct Hprefix as [->|[p ->]]; [by destruct Htail as [Htail _]; specialize (Htail eq_refl)|].
        by exists (String c p).
      * done.
Qed.

Lemma split_snoc_slash s : split (s +:+ "/") = split s ++ [EmptyString].
Proof.
  induction s as [|c s IH]; simpl; [done|].
  rewrite IH. destruct (Ascii.eqb c slash); [done|].
  pose proof (split_nonempty s). by destruct (split s).
Qed.

Lemma unsupported_has_reason agent :
  supported (isDevSupported agent) = false →
  ∃ reason', reason (isDevSupported agent) = Some reason'
             ∧ reason' ≠ "Agent does not support dev mode".
Proof.
  unfold isDevSupported. case_bool_decide; simpl.
  - destruct (Agent.runtime agent) as [entrypoint ?|?]; simpl.
    + destruct (truthyString entrypoint); simpl; [done|]. intros _. by eexists.
    + intros _. by eexists.
  - intros _. by eexists.
Qed.

Lemma supported_spec agent :
  supported (isDevSupported agent) = true
  ↔ Agent.targetLanguage agent = "Python"
    ∧ ∃ entrypoint codeLocation,
        Agent.runtime agent = CodeZip (Some entrypoint) codeLocation
        ∧ entrypoint ≠ EmptyString.
Proof.
  unfold isDevSupported. case_bool_decide as Hpython; simpl.
  - destruct (Agent.runtime agent) as [[[|c entrypoint]|] ?|?]; simpl.
    + split; [done|]. by intros (_ & ? & ? & [= <-] & ?).
    + split; [|done]. intros _. split; [done|]. by eexists _, _.
    + split; [done|]. by intros (_ & ? & ? & [=] & ?).
    + split; [done|]. by intros (_ & ? & ? & [=] & ?).
  - split; [done|]. by intros [? _].
Qed.

Lemma head_filter_Some {A} (P : A → bool) (l : list A) x :
  head (List.filter P l) = Some x
  ↔ ∃ i, l !! i = Some x ∧ P x = true
         ∧ ∀ j y, j < i → l !! j = Some y → P y = false.
Proof.
  induction l as [|a l IH]; simpl.
  { split; [done|]. by intros (? & ? & _). }
  destruct (P a) eqn:Ha; simpl.
  - split.
    + intros [= <-]. exists 0. split_and!; [done..|]. intros; lia.
    + intros ([|i] & Hi & Hx & Hbefore); simpl in Hi; [by simplify_eq|].
      specialize (Hbefore 0 a). simpl in Hbefore.
      rewrite Hbefore in Ha; [done|lia|done].
  - rewrite IH. split.
    + intros (i & Hi & Hx & Hbefore). exists (S i). split_and!; [done..|].
      intros [|j] y Hj Hy; simpl in Hy; [by simplify_eq|]. apply (Hbefore j); [lia|done].
    + intros ([|i] & Hi & Hx & Hbefore); simpl in Hi; [simplify_eq; congruence|].
      exists i. split_and!; [done..|]. intros j y Hj Hy. apply (Hbefore (S j)); [lia|done].
Qed.

Lemma head_filter_None {A} (P : A → bool) (l : list A) :
  head (List.filter P l) = None ↔ ∀ x, x ∈ l → P x = false.
Proof.
  induction l as [|a l IH]; simpl.
  { split; [|done]. by intros _ ? ?%elem_of_nil. }
  destruct (P a) eqn:Ha; simpl.
  - split; [done|]. intros Hall. rewrite Hall in Ha; [done|by left].
  - rewrite IH. split.
    + intros Hall x [->|?]%elem_of_cons; [done|by apply Hall].
    + intros Hall x ?. apply Hall. by right.
Qed.

(** What a configured (not default) result looks like. *)
Lemma configured_run path workingDir project configRoot agentName' targetAgent :
  findTargetAgent project agentName' = Normal (Some targetAgent) →
  supported (isDevSupported targetAgent) = true →
  ∃ entrypoint directory',
    getDevConfig path workingDir (Some project) configRoot agentName'
    = Normal (mkDevConfig (Agent.name targetAgent) (Some entrypoint) directory' true true)
    ∧ entrypoint ≠ EmptyString
    ∧ entrypointOf (Agent.runtime targetAgent) = Some entrypoint
    ∧ (truthyString configRoot = None → directory' = workingDir).
Proof.
  intros Hfind Hsupported. unfold getDevConfig. rewrite Hfind. cbv zeta.
  rewrite Hsupported. simpl.
  apply supported_spec in Hsupported
    as (Hpython & entrypoint & codeLocation & Hruntime & Hentry).
  rewrite Hruntime, Hpython. simpl. eexists _, _. split; [reflexivity|].
  split_and!; [done..|]. by intros ->.
Qed.

End DevFacts.

Section DevProperties.
Import Dev DevFacts.

(** X14.  The directory name used for the default agent name is the part of
    the working directory after its last slash: it contains no slash, the rest
    of the working directory is empty or ends with a slash, and it is the
    empty string when the working directory ends with a slash.  The fallback
    name "unknown" is never used. *)
Theorem dirName_is_the_last_segment workingDir :
  last (split workingDir) = Some (dirNameOf workingDir)
  ∧ hasSlash (dirNameOf workingDir) = false
  ∧ (∃ prefix,
       workingDir = prefix +:+ dirNameOf workingDir
       ∧ (prefix = EmptyString ∨ ∃ p, prefix = p +:+ "/"))
  ∧ dirNameOf (workingDir +:+ "/") = EmptyString.
Proof.
  unfold dirNameOf.
  destruct (split_last workingDir) as (prefix & d & -> & Hs & Hd & Hprefix & _).
  simpl. split_and!; [done..|by exists prefix|].
  by rewrite split_snoc_slash, last_snoc.
Qed.



(** X16.  Every configuration [getDevConfig] returns is a Python
    configuration with a non-empty module.  A configuration with [hasConfig]
    names a dev-supported agent of the project and its module is that agent's
    entrypoint; one without is the default on the working directory.  Without
    a config root the directory is always the working directory. *)
Theorem dev_config_is_python_with_module path workingDir project configRoot
    agentName' config :
  getDevConfig path workingDir project configRoot agentName' = Normal config →
  isPython config = true
  ∧ (∃ entrypoint, module config = Some entrypoint ∧ entrypoint ≠ EmptyString)
  ∧ (hasConfig config = true →
     ∃ project' agent,
       project = Some project'
       ∧ agent ∈ Project.agents project'
       ∧ supported (isDevSupported agent) = true
       ∧ agentName config = Agent.name agent
       ∧ module config = entrypointOf (Agent.runtime agent))
  ∧ (hasConfig config = false →
     directory config = workingDir ∧ module config = Some "src.main:app")
  ∧ (truthyString configRoot = None → directory config = workingDir).
Proof.
  destruct project as [project|]; [|intros [= <-]; simpl; split_and!; by eauto].
  destruct (findTargetAgent project agentName') as [[targetAgent|]|e] eqn:Hfind.
  - destruct (supported (isDevSupported targetAgent)) eqn:Hsupported.
    + destruct (configured_run path workingDir project configRoot agentName'
                  targetAgent Hfind Hsupported)
        as (entrypoint & directory' & -> & Hentry & Hof & Hdir).
      intros [= <-]. simpl. split_and!; [done|by eauto| |done|done].
      intros _. exists project, targetAgent. split_and!; [done| |done..].
      unfold findTargetAgent in Hfind. destruct (truthyString agentName').
      * destruct (list_find _ _) as [[i a]|] eqn:Hlist; [|done]. simplify_eq.
        apply list_find_Some in Hlist as (Hi & _). by eapply list_elem_of_lookup_2.
      * injection Hfind as Hhead. simpl in Hhead.
        apply head_filter_Some in Hhead as (i & Hi & _).
        by eapply list_elem_of_lookup_2.
    + unfold getDevConfig. rewrite Hfind. cbv zeta. by rewrite Hsupported.
  - unfold getDevConfig. rewrite Hfind. intros [= <-]. simpl. split_and!; by eauto.
  - unfold getDevConfig. by rewrite Hfind.
Qed.

Lemma dev_config_witness :
  isPython (mkDevConfig "researcher" (Some "main.py:app") "/work/app/researcher" true true)
  = true.
Proof.
  apply (dev_config_is_python_with_module examplePath "/work/agentcore"
           (Some exampleProject) (Some "/work/agentcore") None
           (mkDevConfig "researcher" (Some "main.py:app") "/work/app/researcher" true true)).
  reflexivity.
Defined.

(** X17.  Without an agent name [getDevConfig] never throws: it configures
    the first dev-supported agent of the project, skipping the agents before
    it, and returns the default configuration, named after the working
    directory, when the project has no dev-supported agent. *)
Theorem dev_config_defaults_to_first_supported_agent path workingDir project
    configRoot agentName' :
  truthyString agentName' = None →
  ∃ config,
    getDevConfig path workingDir (Some project) configRoot agentName' = Normal config
    ∧ (hasConfig config = true
       ↔ ∃ agent, agent ∈ Project.agents project
                  ∧ supported (isDevSupported agent) = true)
    ∧ (hasConfig config = false →
       agentName config = dirNameOf workingDir +:+ "_Agent")
    ∧ (hasConfig config = true →
       ∃ i agent,
         Project.agents project !! i = Some agent
         ∧ supported (isDevSupported agent) = true
         ∧ (∀ j earlier, j < i → Project.agents project !! j = Some earlier →
              supported (isDevSupported earlier) = false)
         ∧ agentName config = Agent.name agent
         ∧ module config = entrypointOf (Agent.runtime agent)).
Proof.
  intros Hname.
  assert (findTargetAgent project agentName'
          = Normal (head (getDevSupportedAgents (Some project)))) as Hfind.
  { unfold findTargetAgent. by rewrite Hname. }
  destruct (head (getDevSupportedAgents (Some project))) as [targetAgent|] eqn:Hhead.
  - simpl in Hhead. apply head_filter_Some in Hhead as (i & Hi & Hsupported & Hbefore).
    destruct (configured_run path workingDir project configRoot agentName'
                targetAgent Hfind Hsupported)
      as (entrypoint & directory' & -> & Hentry & Hof & _).
    eexists. split; [reflexivity|]. simpl. split_and!; [|done|].
    + split; [|done]. intros _. exists targetAgent. split; [|done].
      by eapply list_elem_of_lookup_2.
    + intros _. by exists i, targetAgent.
  - simpl in Hhead. unfold getDevConfig. rewrite Hfind. eexists. split; [reflexivity|].
    simpl. split_and!; [|done..]. split; [done|].
    intros (agent & Hagent & Hsupported).
    rewrite (proj1 (head_filter_None _ _) Hhead agent Hagent) in Hsupported. done.
Qed.

Lemma dev_config_default_witness :
  ∃ config,
    getDevConfig examplePath "/work/agentcore" (Some exampleProject) None None
    = Normal config
    ∧ agentName config = "researcher".
Proof.
  destruct (dev_config_defaults_to_first_supported_agent examplePath "/work/agentcore"
              exampleProject None None eq_refl)
    as (config & Hrun & _).
  exists config. split; [exact Hrun|].
  vm_compute in Hrun. by injection Hrun as <-.
Defined.

(** X18.  With an agent name, [getDevConfig] throws exactly when the project
    has no agent of that name or when the first agent of that name does not
    support dev mode, whatever later agents of the same name do; the error
    then carries that agent's reason and never the fallback message.
    Otherwise it configures that first agent. *)
Theorem dev_config_for_named_agent path workingDir project configRoot name' :
  name' ≠ EmptyString →
  ((∃ e, getDevConfig path workingDir (Some project) configRoot (Some name') = Abrupt e)
   ↔ firstNamed project name' = None
     ∨ ∃ agent, firstNamed project name' = Some agent
                ∧ supported (isDevSupported agent) = false)
  ∧ (firstNamed project name' = None ↔ name' ∉ map Agent.name (Project.agents project))
  ∧ (∀ e, getDevConfig path workingDir (Some project) configRoot (Some name') = Abrupt e →
       thrownMessage e ≠ "Agent does not support dev mode"
       ∧ ∀ agent, firstNamed project name' = Some agent →
           reason (isDevSupported agent) = Some (thrownMessage e))
  ∧ (∀ config,
       getDevConfig path workingDir (Some project) configRoot (Some name') = Normal config →
       agentName config = name' ∧ hasConfig config = true).
Proof.
  intros Hname.
  assert (truthyString (Some name') = Some name') as Htruthy by by destruct name'.
  assert (firstNamed project name' = None
          ↔ name' ∉ map Agent.name (Project.agents project)) as Hnone.
  { unfold firstNamed. rewrite fmap_None, list_find_None, Forall_forall.
    rewrite list_elem_of_fmap. split.
    - intros Hall (a & -> & Ha). by apply (Hall a).
    - intros Hnot a Ha Heq. apply Hnot. by exists a. }
  unfold firstNamed in *.
  destruct (list_find (λ a, Agent.name a = name') (Project.agents project))
    as [[i targetAgent]|] eqn:Hlist; simpl in Hnone;
    [change (snd <$> Some (i, targetAgent)) with (Some targetAgent)
    |change (@snd nat Agent.t <$> None) with (@None Agent.t)].
  - assert (findTargetAgent project (Some name') = Normal (Some targetAgent)) as Hfind.
    { unfold findTargetAgent. by rewrite Htruthy, Hlist. }
    apply list_find_Some in Hlist as (Hi & Hnamed & _).
    destruct (supported (isDevSupported targetAgent)) eqn:Hsupported.
    + destruct (configured_run path workingDir project configRoot (Some name')
                  targetAgent Hfind Hsupported)
        as (entrypoint & directory' & -> & _).
      split_and!; [|done|done|].
      * split; [by intros [? ?]|]. intros [?|(? & [= <-] & ?)]; congruence.
      * by intros ? [= <-].
    + destruct (unsupported_has_reason targetAgent Hsupported) as (r & Hr & Hfallback).
      unfold getDevConfig. rewrite Hfind. cbv zeta. rewrite Hsupported, Hr. simpl.
      split_and!; [|done| |done].
      * split; [|by eexists]. intros _. right. by exists targetAgent.
      * intros e [= <-]. simpl. split; [done|]. by intros ? [= <-].
  - unfold getDevConfig, findTargetAgent. rewrite Htruthy, Hlist.
    split_and!; [|done| |done].
    + split; [by left|by eexists].
    + intros e [= <-]. split; [|done]. unfold quote. simpl. discriminate.
Qed.

Lemma dev_config_named_witness :
  ∃ e, getDevConfig examplePath "/work/agentcore" (Some exampleProject) None (Some "packer")
       = Abrupt e.
Proof.
  apply (dev_config_for_named_agent examplePath "/work/agentcore" exampleProject None
           "packer"); [discriminate|].
  right. exists containerAgent. split; reflexivity.
Defined.

End DevProperties.

(** ** Text inputs *)

Module InputFacts.
Import Input.

Section WithUnit.
Context {Unit : Type}.
Implicit Types (value displayValue : list Unit).

Local Ltac lines_lia := unfold LINE_WIDTH in *; lia.

Lemma repeatString_single (m : Unit) n : repeatString [m] n = replicate n m.
Proof. unfold repeatString. induction n as [|n IH]; simpl; [done|]. by f_equal. Qed.

Lemma linesFrom_lookup displayValue fuel :
  ∀ i k, length displayValue - i ≤ fuel →
    linesFrom fuel i displayValue !! k
    = if i + LINE_WIDTH * k <? length displayValue
      then Some (take LINE_WIDTH (drop (i + LINE_WIDTH * k) displayValue))
      else None.
Proof.
  induction fuel as [|fuel IH]; intros i k Hfuel; cbn [linesFrom].
  { destruct (Nat.ltb_spec (i + LINE_WIDTH * k) (length displayValue));
      [lines_lia|apply lookup_nil]. }
  destruct (Nat.ltb_spec i (length displayValue)) as [Hi|Hi].
  - destruct k as [|k].
    + rewrite Nat.mul_0_r, Nat.add_0_r.
      destruct (Nat.ltb_spec i (length displayValue)); [|lia].
      unfold slice. cbn [lookup list_lookup]. do 2 f_equal. lia.
    + change ((?x :: ?l) !! S k) with (l !! k). rewrite IH by lines_lia.
      replace (i + LINE_WIDTH + LINE_WIDTH * k) with (i + LINE_WIDTH * S k) by lia.
      done.
  - destruct (Nat.ltb_spec (i + LINE_WIDTH * k) (length displayValue));
      [lines_lia|apply lookup_nil].
Qed.

Lemma linesFrom_concat displayValue fuel :
  ∀ i, length displayValue - i ≤ fuel →
    concat (linesFrom fuel i displayValue) = drop i displayValue.
Proof.
  induction fuel as [|fuel IH]; intros i Hfuel; cbn [linesFrom concat].
  { rewrite drop_ge; [done|lia]. }
  destruct (Nat.ltb_spec i (length displayValue)) as [Hi|Hi]; cbn [concat].
  - rewrite IH by lines_lia. unfold slice.
    replace (i + LINE_WIDTH - i) with LINE_WIDTH by lia.
    rewrite <- (drop_drop displayValue LINE_WIDTH i). apply take_drop.
  - rewrite drop_ge; [done|lia].
Qed.

Lemma windowOf_spec displayLength cursor maxWidth :
  20 ≤ maxWidth → maxWidth < displayLength → cursor ≤ displayLength →
  (windowOf displayLength cursor maxWidth).1 ≤ cursor
  ∧ cursor ≤ (windowOf displayLength cursor maxWidth).2
  ∧ (windowOf displayLength cursor maxWidth).2 ≤ displayLength
  ∧ (windowOf displayLength cursor maxWidth).2
    - (windowOf displayLength cursor maxWidth).1 = maxWidth - 2
  ∧ (cursor = (windowOf displayLength cursor maxWidth).2 → cursor = displayLength).
Proof.
  intros Hwidth Hlong Hcursor. unfold windowOf.
  assert ((maxWidth - 2) / 2 < maxWidth - 2) as Hhalf by (apply Nat.div_lt; lia).
  set (halfWindow := (maxWidth - 2) / 2) in *. clearbody halfWindow. cbv zeta.
  destruct (Nat.eqb_spec
              (Nat.min displayLength (Nat.max 0 (cursor - halfWindow) + (maxWidth - 2)))
              displayLength) as [Hend|Hend].
  - destruct (Nat.eqb_spec (Nat.max 0 (displayLength - (maxWidth - 2))) 0); simpl; lia.
  - destruct (Nat.eqb_spec (Nat.max 0 (cursor - halfWindow)) 0); simpl; lia.
Qed.

(** A view whose parts are cut out of the display value between [first] and
    [last], around the cursor. *)
Lemma slice_of_slice_before displayValue first last cursor :
  first ≤ cursor → cursor ≤ last →
  slice (slice displayValue first last) 0 (cursor - first)
  = slice displayValue first cursor.
Proof.
  intros ? ?. unfold slice. rewrite drop_0, Nat.sub_0_r, take_take. f_equal. lia.
Qed.

Lemma slice_of_slice_after displayValue first last cursor :
  first ≤ cursor → cursor ≤ last →
  drop (cursor - first + 1) (slice displayValue first last)
  = slice displayValue (cursor + 1) last.
Proof.
  intros ? ?. unfold slice.
  destruct (decide (cursor = last)) as [->|Hne].
  - rewrite drop_ge by (rewrite length_take; lia).
    by replace (last - (last + 1)) with 0 by lia.
  - rewrite take_drop_commute, drop_drop.
    replace (first + (cursor - first + 1)) with (cursor + 1) by lia.
    rewrite (take_drop_commute _ (last - (cursor + 1)) (cursor + 1)).
    do 2 f_equal. lia.
Qed.

Lemma slice_lookup_cursor (space : Unit) displayValue first last cursor :
  first ≤ cursor → cursor ≤ last → last ≤ length displayValue →
  (cursor = last → cursor = length displayValue) →
  default space (slice displayValue first last !! (cursor - first))
  = default space (displayValue !! cursor).
Proof.
  intros ? ? ? Hend. unfold slice.
  destruct (decide (cursor = last)) as [->|Hne].
  - rewrite lookup_take_ge by lia. by rewrite (lookup_ge_None_2 displayValue) by lia.
  - rewrite lookup_take_lt, lookup_drop by lia. do 2 f_equal. lia.
Qed.

Section Validation.
Variable schema : option (list Unit → SafeParse Unit).
Variable customValidation : option (list Unit → CustomResult Unit).

(** When [validateValue] answers nothing truthy for a non-empty value. *)
Lemma validateValue_falsy value :
  value ≠ [] →
  truthy (validateValue schema customValidation value) = false →
  (∀ check message,
     customValidation = Some check → check value = Invalid message → message = [])
  ∧ (∀ parse message,
       (customValidation = None
        ∨ ∃ check, customValidation = Some check ∧ check value = Valid) →
       schema = Some parse → parse value = Failure (Some message) → message = []).
Proof.
  intros Hvalue. unfold validateValue.
  destruct value as [|u value]; [done|].
  destruct customValidation as [check|].
  - destruct (check (u :: value)) as [|message] eqn:Hcheck.
    + intros Hfalsy. split; [intros ? ? [= <-]; congruence|].
      intros parse message _ -> Hparse. rewrite Hparse in Hfalsy.
      by destruct message.
    + intros Hfalsy. split.
      * intros ? m [= <-] Hm. rewrite Hcheck in Hm. injection Hm as <-.
        by destruct message.
      * intros parse m [?|(? & [= <-] & ?)]; congruence.
  - intros Hfalsy. split; [done|].
    intros parse message _ -> Hparse. rewrite Hparse in Hfalsy. by destruct message.
Qed.

Lemma validateValue_silent value check :
  customValidation = Some check →
  check value = Invalid [] →
  truthy (validateValue schema customValidation value) = false.
Proof.
  intros -> Hcheck. unfold validateValue. destruct value; [done|]. by rewrite Hcheck.
Qed.

End Validation.
End WithUnit.
End InputFacts.

Section InputProperties.
Import Input InputFacts.
Context {Unit : Type}.
Implicit Types (value displayValue val : list Unit).

Local Ltac lines_lia := unfold LINE_WIDTH in *; lia.

(** X19.  With a mask of one code unit the display value of the secret input
    has the length of the value.  While the value is hidden and the cursor is
    at its end, every position outside the first and the last [revealChars]
    shows the mask, and every position does when the value has at most
    [2 * revealChars] code units.  While the cursor is elsewhere the value is
    displayed as it is, hidden or not. *)
Theorem secret_display_masks_the_middle showValue value cursor (mask : Unit)
    revealChars :
  cursor ≤ length value →
  length (getDisplayValue showValue value cursor [mask] revealChars) = length value
  ∧ (showValue = false → cursor = length value →
     ∀ i, i < length value →
       revealChars ≤ i < length value - revealChars
       ∨ length value ≤ revealChars * 2 →
       getDisplayValue showValue value cursor [mask] revealChars !! i = Some mask)
  ∧ (cursor < length value →
     getDisplayValue showValue value cursor [mask] revealChars = value).
Proof.
  intros Hcursor. unfold getDisplayValue. rewrite !repeatString_single.
  destruct showValue; [by split_and!; [done|done|]|].
  destruct (Nat.eqb_spec (length value) 0) as [Hempty|Hnonempty].
  { split_and!; [by rewrite Hempty|intros; lia|intros; lia]. }
  destruct (Nat.eqb_spec cursor (length value)) as [Hend|Hmiddle]; simpl;
    [|split_and!; [done|done|done]].
  destruct (Nat.ltb_spec 0 revealChars) as [Hreveal|Hreveal]; simpl.
  - destruct (Nat.ltb_spec (revealChars * 2) (length value)) as [Hlong|Hshort].
    + split_and!.
      * rewrite !length_app, length_take, length_replicate, length_drop. lia.
      * intros _ _ i Hi [Hmid|?]; [|lia].
        rewrite lookup_app_r by (rewrite length_take; lia).
        rewrite length_take, lookup_app_l by (rewrite length_replicate; lia).
        apply lookup_replicate_2. lia.
      * intros; lia.
    + split_and!; [by rewrite length_replicate| |intros; lia].
      intros _ _ i Hi _. by apply lookup_replicate_2.
  - split_and!; [by rewrite length_replicate| |intros; lia].
    intros _ _ i Hi _. by apply lookup_replicate_2.
Qed.

(** X20.  The lines of a non-empty display value are a partition of it into
    pieces of [LINE_WIDTH] code units, the last one possibly shorter but not
    empty.  The cursor's line and column address its position; a cursor on a
    code unit is on the line that holds it, and a cursor at the end is on a
    rendered line exactly when the length is no multiple of [LINE_WIDTH]. *)
Theorem lines_partition_the_display_value displayValue cursor :
  displayValue ≠ [] →
  concat (lines (getLines displayValue cursor)) = displayValue
  ∧ (∀ k line,
       lines (getLines displayValue cursor) !! k = Some line →
       0 < length line ≤ LINE_WIDTH
       ∧ (S k < length (lines (getLines displayValue cursor)) →
          length line = LINE_WIDTH))
  ∧ cursorLine (getLines displayValue cursor) * LINE_WIDTH
    + cursorCol (getLines displayValue cursor) = cursor
  ∧ cursorCol (getLines displayValue cursor) < LINE_WIDTH
  ∧ (cursor < length displayValue →
     ∃ line,
       lines (getLines displayValue cursor)
         !! cursorLine (getLines displayValue cursor) = Some line
       ∧ line !! cursorCol (getLines displayValue cursor) = displayValue !! cursor)
  ∧ (cursor = length displayValue →
     (cursorRendered (getLines displayValue cursor) = true
      ↔ length displayValue mod LINE_WIDTH ≠ 0)).
Proof.
  intros Hnonempty. unfold getLines, cursorRendered.
  destruct (Nat.eqb_spec (length displayValue) 0) as [Hlen|Hlen].
  { by destruct displayValue. }
  cbn [lines cursorLine cursorCol].
  assert (∀ k, linesFrom (length displayValue) 0 displayValue !! k
               = if LINE_WIDTH * k <? length displayValue
                 then Some (take LINE_WIDTH (drop (LINE_WIDTH * k) displayValue))
                 else None) as Hlookup.
  { intros k. rewrite linesFrom_lookup by lines_lia. done. }
  assert (∀ k, k < length (linesFrom (length displayValue) 0 displayValue)
               ↔ LINE_WIDTH * k < length displayValue) as Hlength.
  { intros k. rewrite <- lookup_lt_is_Some, Hlookup.
    destruct (Nat.ltb_spec (LINE_WIDTH * k) (length displayValue)).
    - split; [done|by eexists].
    - split; [by intros [? ?]|lia]. }
  pose proof (Nat.div_mod_eq cursor LINE_WIDTH) as Hdivmod.
  assert (cursor mod LINE_WIDTH < LINE_WIDTH) as Hcol
    by (apply Nat.mod_upper_bound; unfold LINE_WIDTH; lia).
  split_and!.
  - rewrite linesFrom_concat by lines_lia. done.
  - intros k line Hline. rewrite Hlookup in Hline.
    destruct (Nat.ltb_spec (LINE_WIDTH * k) (length displayValue)); [|done].
    simplify_eq. rewrite length_take, length_drop. split; [lines_lia|].
    intros Hnext%Hlength. lines_lia.
  - lines_lia.
  - done.
  - intros Hcursor. rewrite Hlookup.
    destruct (Nat.ltb_spec (LINE_WIDTH * (cursor / LINE_WIDTH)) (length displayValue));
      [|lines_lia].
    eexists. split; [reflexivity|].
    rewrite lookup_take_lt, lookup_drop by done. f_equal. lines_lia.
  - intros ->. rewrite bool_decide_eq_true, Hlength.
    pose proof (Nat.div_mod_eq (length displayValue) LINE_WIDTH). lines_lia.
Qed.

Section Validation.
Variable trim : list Unit → list Unit.
Variable schema : option (list Unit → SafeParse Unit).
Variable customValidation : option (list Unit → CustomResult Unit).

(** X21.  What the secret input hands to [onSubmit] is the trimmed input and
    is not empty; a custom validation has not refused it with a non-empty
    message, and where the custom validation is absent or accepts it, the
    schema has not failed on it with a non-empty message.  An input that trims
    to nothing is never validated: it is skipped or cancelled. *)
Theorem secret_submits_only_validated_values onSkip val :
  (∀ v, secretOnSubmit trim schema customValidation onSkip val = Submitted v →
     v = trim val
     ∧ v ≠ []
     ∧ (∀ check message,
          customValidation = Some check → check v = Invalid message → message = [])
     ∧ (∀ parse message,
          (customValidation = None
           ∨ ∃ check, customValidation = Some check ∧ check v = Valid) →
          schema = Some parse → parse v = Failure (Some message) → message = []))
  ∧ (trim val = [] →
     secretOnSubmit trim schema customValidation onSkip val
     = if onSkip then Skipped else Cancelled).
Proof.
  unfold secretOnSubmit. split.
  - intros v. destruct (trim val) as [|u trimmed] eqn:Htrim; [by destruct onSkip|].
    destruct (truthy (validateValue schema customValidation (u :: trimmed))) eqn:Hfalsy;
      simpl; [done|].
    intros [= <-]. split; [done|]. split; [done|].
    by apply validateValue_falsy.
  - by intros ->.
Qed.

(** X22.  What the text input hands to [onSubmit] is the trimmed input; it is
    empty only when [allowEmpty] is set, and then it is submitted without any
    validation.  A non-empty submitted value has passed the validations as in
    the secret input. *)
Theorem text_submits_only_validated_values allowEmpty val :
  (∀ v, textOnSubmit trim schema customValidation allowEmpty val = Submitted v →
     v = trim val
     ∧ (v = [] → allowEmpty = true)
     ∧ (v ≠ [] →
        (∀ check message,
           customValidation = Some check → check v = Invalid message → message = [])
        ∧ (∀ parse message,
             (customValidation = None
              ∨ ∃ check, customValidation = Some check ∧ check v = Valid) →
             schema = Some parse → parse v = Failure (Some message) → message = [])))
  ∧ (trim val = [] →
     textOnSubmit trim schema customValidation allowEmpty val
     = if allowEmpty then Submitted [] else ErrorShown).
Proof.
  unfold textOnSubmit. split.
  - intros v. destruct (trim val) as [|u trimmed] eqn:Htrim.
    + destruct allowEmpty; simpl; [|done]. intros [= <-]. by split_and!.
    + cbv zeta. change (truthy (Some (u :: trimmed))) with true.
      rewrite orb_true_r, andb_true_l.
      destruct (truthy (validateValue schema customValidation (u :: trimmed)))
        eqn:Hfalsy; cbn [negb]; [done|].
      intros [= <-]. split; [done|]. split; [done|]. intros _.
      by apply validateValue_falsy.
  - intros ->. by destruct allowEmpty.
Qed.

(** X23.  A custom validation that refuses a value with the empty message
    does not stop it: both inputs submit the trimmed value, and the schema is
    not consulted. *)
Theorem refusal_without_message_is_submitted onSkip allowEmpty val check :
  customValidation = Some check →
  check (trim val) = Invalid [] →
  trim val ≠ [] →
  secretOnSubmit trim schema customValidation onSkip val = Submitted (trim val)
  ∧ textOnSubmit trim schema customValidation allowEmpty val = Submitted (trim val).
Proof.
  intros Hcustom Hcheck Hvalue. unfold secretOnSubmit, textOnSubmit.
  cbv zeta.
  rewrite (validateValue_silent schema customValidation _ check Hcustom Hcheck).
  destruct (trim val); [done|]. by rewrite orb_true_r.
Qed.

End Validation.

(** X24.  The input line of the text input shows a piece of the display value
    that contains the cursor position: the text before and after the cursor
    is what lies between the piece's ends, the cursor's cell shows the code
    unit under the cursor (a space at the end), and an ellipsis is shown on a
    side exactly when text is cut off there.  The display width is at least
    20.  The rendered text is never wider than the display width plus the
    cursor's cell, and a value too long to fit is shown through a window of
    the display width less two, filling the display width up to one cell. *)
Theorem window_keeps_the_cursor_in_view (space : Unit) displayValue cursor columns
    hideArrow :
  cursor ≤ length displayValue →
  20 ≤ maxDisplayWidth columns hideArrow
  ∧ (∃ first last,
       first ≤ cursor ∧ cursor ≤ last ∧ last ≤ length displayValue
       ∧ beforeCursor (viewOf space displayValue cursor
                         (maxDisplayWidth columns hideArrow))
         = slice displayValue first cursor
       ∧ charAtCursor (viewOf space displayValue cursor
                         (maxDisplayWidth columns hideArrow))
         = default space (displayValue !! cursor)
       ∧ afterCursor (viewOf space displayValue cursor
                        (maxDisplayWidth columns hideArrow))
         = slice displayValue (cursor + 1) last
       ∧ (showEllipsisBefore (viewOf space displayValue cursor
                                (maxDisplayWidth columns hideArrow)) = true
          ↔ 0 < first)
       ∧ (showEllipsisAfter (viewOf space displayValue cursor
                               (maxDisplayWidth columns hideArrow)) = true
          ↔ last < length displayValue)
       ∧ (cursor = last → cursor = length displayValue)
       ∧ (maxDisplayWidth columns hideArrow < length displayValue →
          last - first = maxDisplayWidth columns hideArrow - 2))
  ∧ renderedWidth (viewOf space displayValue cursor (maxDisplayWidth columns hideArrow))
    ≤ maxDisplayWidth columns hideArrow + 1
  ∧ (maxDisplayWidth columns hideArrow < length displayValue →
     maxDisplayWidth columns hideArrow - 1
     ≤ renderedWidth (viewOf space displayValue cursor
                        (maxDisplayWidth columns hideArrow))
     ≤ maxDisplayWidth columns hideArrow).
Proof.
  intros Hcursor.
  assert (20 ≤ maxDisplayWidth columns hideArrow) as Hwidth
    by (unfold maxDisplayWidth; lia).
  set (maxWidth := maxDisplayWidth columns hideArrow) in *. clearbody maxWidth.
  split; [done|]. unfold viewOf, renderedWidth.
  destruct (Nat.leb_spec (length displayValue) maxWidth) as [Hfits|Hlong].
  - cbn [showEllipsisBefore beforeCursor charAtCursor afterCursor showEllipsisAfter].
    split_and!.
    + exists 0, (length displayValue). split_and!; try done; try lia.
      unfold slice. rewrite take_ge; [done|]. rewrite length_drop. lia.
    + unfold slice. rewrite length_take, !length_drop. lia.
    + lia.
  - pose proof (windowOf_spec (length displayValue) cursor maxWidth Hwidth Hlong Hcursor)
      as (Hfirst & Hlast & Hbound & Hsize & Hend).
    destruct (windowOf (length displayValue) cursor maxWidth) as [first last].
    cbn [fst snd] in *.
    cbn [showEllipsisBefore beforeCursor charAtCursor afterCursor showEllipsisAfter].
    rewrite slice_of_slice_before, slice_of_slice_after by done.
    rewrite (slice_lookup_cursor space) by done.
    split_and!.
    + exists first, last. split_and!; try done.
      * by rewrite Nat.ltb_lt.
      * by rewrite Nat.ltb_lt.
    + unfold slice. rewrite !length_take, !length_drop.
      destruct (Nat.ltb_spec 0 first), (Nat.ltb_spec last (length displayValue)); lia.
    + intros _. unfold slice. rewrite !length_take, !length_drop.
      destruct (Nat.ltb_spec 0 first), (Nat.ltb_spec last (length displayValue)); lia.
Qed.

End InputProperties.

Section InputExamples.
Import Input.

Lemma secret_display_witness :
  getDisplayValue false (String.list_ascii_of_string "sk-secret") 9 [star] 2
  !! 4 = Some star.
Proof.
  apply (secret_display_masks_the_middle false (String.list_ascii_of_string "sk-secret")
           9 star 2);
    simpl; first [reflexivity | lia].
Defined.

Lemma lines_partition_witness :
  concat (lines (getLines (replicate 104 star) 104)) = replicate 104 star
  ∧ (cursorRendered (getLines (replicate 104 star) 104) = true
     ↔ length (replicate 104 star) mod LINE_WIDTH ≠ 0).
Proof.
  destruct (lines_partition_the_display_value (replicate 104 star) 104)
    as (Hconcat & _ & _ & _ & _ & Hend); [discriminate|].
  split; [exact Hconcat|]. apply Hend. reflexivity.
Defined.

Lemma secret_submit_witness :
  secretOnSubmit id (Some minThree) None true [] = Skipped.
Proof.
  apply (secret_submits_only_validated_values id (Some minThree) None true []).
  reflexivity.
Defined.

Lemma text_submit_witness :
  textOnSubmit id (Some minThree) None true [] = Submitted [].
Proof.
  apply (text_submits_only_validated_values id (Some minThree) None true []).
  reflexivity.
Defined.

Lemma refusal_witness :
  secretOnSubmit id (Some minThree) (Some silentRefusal) false [star; star]
  = Submitted [star; star].
Proof.
  apply (refusal_without_message_is_submitted id (Some minThree) (Some silentRefusal)
           false false [star; star] silentRefusal);
    [reflexivity | reflexivity | discriminate].
Defined.

Lemma window_witness :
  renderedWidth (viewOf star (replicate 100 star) 100 (maxDisplayWidth (Some 40) false))
  ≤ maxDisplayWidth (Some 40) false + 1.
Proof.
  apply (window_keeps_the_cursor_in_view star (replicate 100 star) 100 (Some 40) false).
  reflexivity.
Defined.

End InputExamples.

(** ** Loading the project and the identity flow *)

Section DevLoadProperties.
Import DevLoad.

(** X25.  [loadProjectConfig] never rejects and changes nothing.  It returns
    a project exactly when a config root is found, the project file exists
    there and reading it does not throw; the project is then the one read
    under that root.  The file is read at most once, and not at all when the
    root or the file is missing. *)
Theorem loadProjectConfig_never_rejects findConfigRoot configExists workingDir env s :
  ∃ project s',
    loadProjectConfig findConfigRoot configExists workingDir env s
    = (Normal project, s')
    ∧ apiKeyProviders s' = apiKeyProviders s
    ∧ tokenVault s' = tokenVault s
    ∧ deployedStateFile s' = deployedStateFile s
    ∧ (∀ projectSpec,
         project = Some projectSpec
         ↔ ∃ configRoot,
             truthyString (findConfigRoot workingDir) = Some configRoot
             ∧ configExists configRoot = true
             ∧ throws env (clock s) = None
             ∧ projectSpec = projectSpecAt env (Some configRoot))
    ∧ (issued s s' = []
       ∨ ∃ configRoot,
           truthyString (findConfigRoot workingDir) = Some configRoot
           ∧ configExists configRoot = true
           ∧ issued s s' = [CReadProjectSpec (Some configRoot)]).
Proof.
  unfold loadProjectConfig.
  destruct (truthyString (findConfigRoot workingDir)) as [configRoot|] eqn:Hroot.
  2:{ exists None, s. split_and!; [done..| |left; apply DestroyFacts.issued_self].
      intros ?. split; [done|]. by intros (? & ? & _). }
  destruct (configExists configRoot) eqn:Hexists; simpl.
  2:{ exists None, s. split_and!; [done..| |left; apply DestroyFacts.issued_self].
      intros ?. split; [done|]. intros (? & [= <-] & ? & _). congruence. }
  unfold tryCatch.
  destruct (throws env (clock s)) as [e|] eqn:Hthrow.
  - erewrite bind_abrupt by (by apply perform_throws).
    eexists _, _. split; [reflexivity|]. simpl. split_and!; [done..| |].
    + intros ?. split; [done|]. by intros (? & _ & _ & ? & _).
    + right. exists configRoot. split_and!; [done..|]. by apply issued_app.
  - erewrite bind_normal by (by apply perform_returns).
    eexists _, _. split; [reflexivity|]. simpl. split_and!; [done..| |].
    + intros projectSpec. split.
      * intros [= <-]. by exists configRoot.
      * by intros (? & [= <-] & _ & _ & ->).
    + right. exists configRoot. split_and!; [done..|]. by apply issued_app.
Qed.

End DevLoadProperties.

Module IdentityFlowFacts.
Import Tui IdentityFlow.

Lemma offered_is_bindable ownedIdentities targetAgent item :
  item ∈ identityItems (IBindSelectIdentity targetAgent) ownedIdentities →
  bindable ownedIdentities targetAgent (id item).
Proof.
  simpl. intros (r & -> & Hr)%list_elem_of_fmap.
  apply list_elem_of_In, filter_In in Hr as [Hr Hother].
  exists r. split_and!; [by apply list_elem_of_In|done|].
  unfold notOwnedBy in Hother. apply negb_true_iff, String.eqb_neq in Hother. done.
Qed.

Lemma handle_invariant ownedIdentities flow event :
  flowInvariant ownedIdentities flow →
  selectable ownedIdentities flow event →
  flowInvariant ownedIdentities (handle flow event).1
  ∧ ∀ request, request ∈ (handle flow event).2 →
      bindable ownedIdentities (targetAgent request) (identityName request).
Proof.
  intros Hflow Hevent.
  destruct event as [item|item| |item| | |[?|?]|envVar result| |]; simpl;
    try (split; [done|by intros ? ?%elem_of_nil]).
  - split; [by destruct (String.eqb _ _)|by intros ? ?%elem_of_nil].
  - destruct flow; simpl in *; try (split; [done|by intros ? ?%elem_of_nil]).
    split; [by apply offered_is_bindable|by intros ? ?%elem_of_nil].
  - destruct flow; simpl in *; try (split; [done|by intros ? ?%elem_of_nil]).
    split; [by destruct result|]. by intros ? ->%list_elem_of_singleton.
  - destruct flow; simpl in *; split; first [done|by intros ? ?%elem_of_nil].
Qed.

End IdentityFlowFacts.

Section IdentityFlowProperties.
Import Tui IdentityFlow IdentityFlowFacts.

(** X26.  In every course of the identity flow in which identities are
    selected from the list on display, each attach request names a target
    agent and an identity that some other agent owns, and the flow asks for an
    environment variable only for such a pair. *)
Theorem attach_requests_are_for_bindable_identities ownedIdentities events :
  ∀ flow,
    flowInvariant ownedIdentities flow →
    selectionsFromDisplay ownedIdentities flow events →
    flowInvariant ownedIdentities (run flow events).1
    ∧ ∀ request, request ∈ (run flow events).2 →
        bindable ownedIdentities (targetAgent request) (identityName request).
Proof.
  induction events as [|event events IH]; intros flow Hflow Hevents; simpl.
  { split; [done|by intros ? ?%elem_of_nil]. }
  destruct Hevents as [Hevent Hevents].
  destruct (handle_invariant ownedIdentities flow event Hflow Hevent)
    as [Hnext Hrequests].
  destruct (handle flow event) as [flow' requests] eqn:Hhandle. simpl in *.
  destruct (IH flow' Hnext Hevents) as [Hfinal Hrest].
  destruct (run flow' events) as [final requests']. simpl in *.
  split; [done|]. intros request [?|?]%elem_of_app; auto.
Qed.

Lemma attach_requests_witness :
  bindable exampleIdentities "packer" "openai".
Proof.
  apply (proj2 (attach_requests_are_for_bindable_identities exampleIdentities
                  exampleEvents IModeSelect I
                  (conj I (conj I (conj (list_elem_of_here _ _) (conj I I)))))
           (mkAttachRequest "packer" "openai" "OPENAI_CREDENTIAL_ID")).
  simpl. by left.
Defined.

End IdentityFlowProperties.
